(** * Ageing Futures: the simulation core, embedded and verified

    A shallow embedding of [ageing_futures/sim] (hazards, policies, shocks,
    capacity, scoring, engine).

    Numbers.  Python floats are idealised as exact rationals [Q]; the
    arithmetic that numpy performs with [+ - * /], [maximum], [clip] and the
    comparisons is written out over [Q].  What numpy computes by other
    means, the exponential, the square root and the pseudo-random
    generator, is taken as a [Numpy] runtime that every function receives,
    so nothing proved below depends on how those are implemented unless a
    statement says so.  There is no NaN or infinity in [Q]; [x / 0] is [0].

    Arrays.  A one-dimensional [ndarray] is a [list]; element-wise binary
    operations follow numpy's broadcasting rule for one dimension (equal
    lengths, or one operand of length one) and raise otherwise.  The
    engine fixes the element type of every array it works on with
    [astype], so its arrays are lists of numbers, of booleans or of
    integers as the code has them.  [ensure_competing_risk] takes arrays of
    the caller's making and divides by their sums: there an [array] carries
    its element type, and a [float64] is a rational or one of the
    non-finite values that numpy's division and multiplication give.

    Objects.  [Cohort] objects live in a heap indexed by location, because
    [simulate_round] receives a reference to the caller's cohort; every
    other mutable object of the engine is local to one call and is
    threaded as a value. *)

From Stdlib Require Import QArith Qabs ZArith List String Bool Lia Lqa.
From stdpp Require Import base list.

Open Scope string_scope.
Open Scope list_scope.
Open Scope Q_scope.

(** ** Exceptions and the error monad *)

Inductive exn : Type :=
| KeyError (key : string)
| IndexError
| ValueError
| TypeError
| StopIteration
| AttributeError.

Inductive result (A : Type) : Type :=
| Ok (a : A)
| Raise (e : exn).

Arguments Ok {A} a.
Arguments Raise {A} e.

Definition bind {A B : Type} (m : result A) (f : A -> result B) : result B :=
  match m with
  | Ok a => f a
  | Raise e => Raise e
  end.

Notation "x <- m ;; k" := (bind m (fun x => k))
  (at level 100, m at next level, right associativity).

Definition raises {A : Type} (m : result A) : Prop :=
  match m with
  | Ok _ => False
  | Raise _ => True
  end.

(* a [for] loop whose body may raise *)
Definition foldM {A B : Type} (f : A -> B -> result A) (l : list B) (a : A)
    : result A :=
  fold_left (fun acc b => x <- acc ;; f x b) l (Ok a).

Fixpoint mapM {A B : Type} (f : A -> result B) (l : list A) : result (list B) :=
  match l with
  | [] => Ok []
  | x :: rest =>
      y <- f x ;;
      ys <- mapM f rest ;;
      Ok (y :: ys)
  end.

(** ** The numpy runtime taken as given *)

Record Numpy : Type := {
  np_exp : Q -> Q;
  np_sqrt : Q -> Q;
  Generator : Type;
  default_rng : Z -> Generator;
  (* one uniform draw of [Generator.random] *)
  next_double : Generator -> Q * Generator;
  (* one draw of [Generator.gamma] with the given shape and scale *)
  next_gamma : Q -> Q -> Generator -> Q * Generator
}.

(** ** numpy kernels over [Q] *)

Module np.

Definition ndarray : Type := list Q.

Definition ltb (a b : Q) : bool := negb (Qle_bool b a).
Definition leb (a b : Q) : bool := Qle_bool a b.

(* Python's [max(a, b)] and [np.maximum]: [b] when [b > a], else [a]. *)
Definition maximum (a b : Q) : Q := if ltb a b then b else a.
Definition minimum (a b : Q) : Q := if ltb b a then b else a.
Definition clip (x lo hi : Q) : Q := minimum (maximum x lo) hi.

(* Element-wise binary operation with one-dimensional broadcasting. *)
Definition broadcast2 {A B C : Type} (f : A -> B -> C)
    (a : list A) (b : list B) : result (list C) :=
  if (length a =? length b)%nat then Ok (zip_with f a b)
  else match a, b with
       | [x], _ => Ok (map (f x) b)
       | _, [y] => Ok (map (fun x => f x y) a)
       | _, _ => Raise ValueError
       end.

Definition zeros (n : nat) : ndarray := repeat 0 n.

Definition sum (a : ndarray) : Q := fold_left Qplus a 0.

(* [a.mean()]; numpy yields NaN on a zero-size array, here [0 / 0 = 0]. *)
Definition mean (a : ndarray) : Q := sum a / inject_Z (Z.of_nat (length a)).

(* [a.astype(bool)], [a.astype(float)] and [a.astype(int)]. *)
Definition nonzero (x : Q) : bool := negb (Qeq_bool x 0).
Definition astype_bool (a : ndarray) : list bool := map nonzero a.
Definition of_bool (b : bool) : Q := if b then 1 else 0.
Definition bool_astype (a : list bool) : ndarray := map of_bool a.
Definition trunc (x : Q) : Z := Z.quot (Qnum x) (Zpos (Qden x)).
Definition astype_int (a : ndarray) : list Z := map trunc a.
Definition int_astype (a : list Z) : ndarray := map inject_Z a.

(* [mask.sum()] *)
Fixpoint count (mask : list bool) : nat :=
  match mask with
  | [] => 0%nat
  | b :: rest => ((if b then 1 else 0) + count rest)%nat
  end.

(* [arr[mask] = v] with a scalar [v]. *)
Definition mask_set {A : Type} (arr : list A) (mask : list bool) (v : A)
    : result (list A) :=
  if (length mask =? length arr)%nat
  then Ok (zip_with (fun x (m : bool) => if m then v else x) arr mask)
  else Raise IndexError.

(* [arr[mask]] *)
Fixpoint select {A : Type} (arr : list A) (mask : list bool) : list A :=
  match arr, mask with
  | x :: arr', m :: mask' => if m then x :: select arr' mask' else select arr' mask'
  | _, _ => []
  end.

Definition mask_get {A : Type} (arr : list A) (mask : list bool) : result (list A) :=
  if (length mask =? length arr)%nat then Ok (select arr mask) else Raise IndexError.

(* [arr[mask] = vals]: the values fill the selected positions in order. *)
Fixpoint scatter {A : Type} (arr : list A) (mask : list bool) (vals : list A) : list A :=
  match arr, mask with
  | x :: arr', m :: mask' =>
      if m then match vals with
                | v :: vals' => v :: scatter arr' mask' vals'
                | [] => x :: scatter arr' mask' []
                end
      else x :: scatter arr' mask' vals
  | _, _ => arr
  end.

Definition mask_assign {A : Type} (arr : list A) (mask : list bool) (vals : list A)
    : result (list A) :=
  if (length mask =? length arr)%nat
  then if (length vals =? count mask)%nat
       then Ok (scatter arr mask vals)
       else match vals with
            | [v] => Ok (zip_with (fun x (m : bool) => if m then v else x) arr mask)
            | _ => Raise ValueError
            end
  else Raise IndexError.

(** Arrays that carry their element type.  A [float64] is a number, an
    infinity with its sign, or NaN; a finite result is exact, and a zero is
    the positive zero. *)
Inductive float64 : Type :=
| Finite (q : Q)
| Inf (negative : bool)
| NaN.

Inductive array : Type :=
| BoolArray (v : list bool)
| IntArray (v : list Z)
| FloatArray (v : list float64).

Definition negative (a : Q) : bool := ltb a 0.

Definition fneg (x : float64) : float64 :=
  match x with
  | Finite a => Finite (- a)
  | Inf s => Inf (negb s)
  | NaN => NaN
  end.

Definition fadd (x y : float64) : float64 :=
  match x, y with
  | NaN, _ | _, NaN => NaN
  | Finite a, Finite b => Finite (a + b)
  | Inf s, Inf s' => if Bool.eqb s s' then Inf s else NaN
  | Inf s, Finite _ | Finite _, Inf s => Inf s
  end.

Definition fsub (x y : float64) : float64 := fadd x (fneg y).

Definition fmul (x y : float64) : float64 :=
  match x, y with
  | NaN, _ | _, NaN => NaN
  | Finite a, Finite b => Finite (a * b)
  | Inf s, Inf s' => Inf (xorb s s')
  | Inf s, Finite a | Finite a, Inf s =>
      if Qeq_bool a 0 then NaN else Inf (xorb s (negative a))
  end.

(* float division does not raise: [x / 0] is an infinity, [0 / 0] is NaN *)
Definition fdiv (x y : float64) : float64 :=
  match x, y with
  | NaN, _ | _, NaN => NaN
  | Finite a, Finite b =>
      if Qeq_bool b 0
      then if Qeq_bool a 0 then NaN else Inf (negative a)
      else Finite (a / b)
  | Finite _, Inf _ => Finite 0
  | Inf s, Finite b => Inf (xorb s (negative b))
  | Inf _, Inf _ => NaN
  end.

(* [x < y] and [x <= y]: False whenever NaN is compared *)
Definition flt (x y : float64) : bool :=
  match x, y with
  | NaN, _ | _, NaN => false
  | Finite a, Finite b => ltb a b
  | Inf s, Inf s' => s && negb s'
  | Inf s, Finite _ => s
  | Finite _, Inf s => negb s
  end.

Definition fle (x y : float64) : bool :=
  match x, y with
  | NaN, _ | _, NaN => false
  | _, _ => negb (flt y x)
  end.

(* [np.maximum], [np.minimum] and [np.clip] hand NaN on *)
Definition fmaximum (x y : float64) : float64 :=
  match x, y with
  | NaN, _ | _, NaN => NaN
  | _, _ => if flt x y then y else x
  end.

Definition fminimum (x y : float64) : float64 :=
  match x, y with
  | NaN, _ | _, NaN => NaN
  | _, _ => if flt y x then y else x
  end.

Definition fclip (x lo hi : float64) : float64 := fminimum (fmaximum x lo) hi.

(* the values of an array in float arithmetic *)
Definition as_float (a : array) : list float64 :=
  match a with
  | BoolArray v => map (fun b : bool => Finite (of_bool b)) v
  | IntArray v => map (fun z => Finite (inject_Z z)) v
  | FloatArray v => v
  end.

(* [np.zeros_like]: zeros of the same shape and element type *)
Definition zeros_like (a : array) : array :=
  match a with
  | BoolArray v => BoolArray (map (fun _ => false) v)
  | IntArray v => IntArray (map (fun _ => 0%Z) v)
  | FloatArray v => FloatArray (map (fun _ => Finite 0) v)
  end.

(* int64 arithmetic wraps around *)
Definition wrap64 (z : Z) : Z :=
  ((z + 9223372036854775808) mod 18446744073709551616 - 9223372036854775808)%Z.

(* an operation in place: the result keeps the shape of [total] *)
Definition inplace {A B : Type} (f : A -> B -> A) (total : list A) (arr : list B)
    : result (list A) :=
  if (length arr =? length total)%nat then Ok (zip_with f total arr)
  else match arr with
       | [y] => Ok (map (fun x => f x y) total)
       | _ => Raise ValueError
       end.

(* [total += arr].  The sum is computed in the common type of the two and
   written back into [total]; numpy refuses (UFuncTypeError, a TypeError)
   where that means casting a float to an integer or a number to a
   boolean, and it decides so before it looks at the shapes.  On booleans
   [+] is [or]. *)
Definition iadd (total arr : array) : result array :=
  match total, arr with
  | FloatArray t, _ =>
      v <- inplace fadd t (as_float arr) ;; Ok (FloatArray v)
  | IntArray t, IntArray a =>
      v <- inplace (fun x y => wrap64 (x + y)) t a ;; Ok (IntArray v)
  | IntArray t, BoolArray a =>
      v <- inplace (fun x (y : bool) => wrap64 (x + (if y then 1 else 0))) t a ;;
      Ok (IntArray v)
  | IntArray _, FloatArray _ => Raise TypeError
  | BoolArray t, BoolArray a =>
      v <- inplace orb t a ;; Ok (BoolArray v)
  | BoolArray _, _ => Raise TypeError
  end.

(* [np.max]: a zero-size array has no maximum; NaN is handed on. *)
Definition max (a : list float64) : result float64 :=
  match a with
  | [] => Raise ValueError
  | x :: rest => Ok (fold_left fmaximum rest x)
  end.

End np.

(** ** Python dictionaries: insertion-ordered association lists *)

Module dict.

Definition t (V : Type) : Type := list (string * V).

Fixpoint get {V : Type} (d : t V) (k : string) : option V :=
  match d with
  | [] => None
  | (k', v) :: rest => if String.eqb k' k then Some v else get rest k
  end.

(* [d.get(k, default)] *)
Definition get_or {V : Type} (d : t V) (k : string) (default : V) : V :=
  match get d k with
  | Some v => v
  | None => default
  end.

(* [d[k]] *)
Definition getitem {V : Type} (d : t V) (k : string) : result V :=
  match get d k with
  | Some v => Ok v
  | None => Raise (KeyError k)
  end.

(* [k in d] *)
Definition mem {V : Type} (d : t V) (k : string) : bool :=
  match get d k with
  | Some _ => true
  | None => false
  end.

(* [d[k] = v]: an existing key keeps its position, a new key goes last. *)
Fixpoint set {V : Type} (d : t V) (k : string) (v : V) : t V :=
  match d with
  | [] => [(k, v)]
  | (k', v') :: rest =>
      if String.eqb k' k then (k', v) :: rest else (k', v') :: set rest k v
  end.

Definition keys {V : Type} (d : t V) : list string := map fst d.
Definition values {V : Type} (d : t V) : list V := map snd d.

(* [d.update(other)], and [d | other] on a fresh copy of [d] *)
Definition update {V : Type} (d other : t V) : t V :=
  fold_left (fun acc kv => set acc (fst kv) (snd kv)) other d.

(* a dict display or comprehension: later items overwrite earlier ones *)
Definition of_items {V : Type} (items : list (string * V)) : t V :=
  update [] items.

End dict.

(** ** hazards.py *)

Module hazards.

Import np.

Section WithRuntime.
Context (rt : Numpy).

Definition log_linear_predictor (intercept : Q) (coefficients : dict.t Q)
    (features : dict.t ndarray) : result ndarray :=
  first <- match dict.values features with
           | [] => Raise StopIteration
           | v :: _ => Ok v
           end ;;
  foldM
    (fun lp kc =>
       match dict.get features (fst kc) with
       | None => Ok lp
       | Some values => broadcast2 Qplus lp (map (fun v => snd kc * v) values)
       end)
    coefficients (map (fun _ => intercept) first).

Definition hazard_to_probability (hazard : ndarray) (dt_months : Q) : ndarray :=
  let dt_years := dt_months / 12.0 in
  let probability :=
    map (fun h => 1.0 - np_exp rt (- maximum h 0 * dt_years)) hazard in
  map (fun p => clip p 0.0 1.0) probability.

Definition log_hazard_to_probability (lp : ndarray) (dt_months : Q) : ndarray :=
  let hazard := map (np_exp rt) lp in
  hazard_to_probability hazard dt_months.

Definition ensure_competing_risk (probabilities : list array)
    : result (list array) :=
  first <- match probabilities with
           | [] => Raise IndexError
           | p :: _ => Ok p
           end ;;
  total <- foldM iadd probabilities (zeros_like first) ;;
  let total := as_float total in
  let excess := map (fun t => fmaximum (fsub t (Finite 1.0)) (Finite 0.0)) total in
  worst <- np.max excess ;;
  if fle worst (Finite 0.00000001) then Ok probabilities
  else
    (* Rescale to keep sum <= 1 *)
    mapM (fun arr =>
            share <- broadcast2 fdiv (as_float arr)
                       (map (fun t => fadd t (Finite 0.000000000001)) total) ;;
            cut <- broadcast2 fmul excess share ;;
            kept <- broadcast2 fsub (as_float arr) cut ;;
            Ok (FloatArray (map (fun x => fclip x (Finite 0.0) (Finite 1.0)) kept)))
         probabilities.

End WithRuntime.

End hazards.

(** ** utils.py: the configuration bundle *)

Module utils.

Record BaselinePopulationConfig : Type := {
  cohort_size : Z;
  age_distribution : dict.t Q;
  sex_distribution : dict.t Q;
  regions : dict.t Q;
  imd_distribution : list Q;
  urban_rural_split : dict.t Q;
  service_indices : dict.t Q;
  environment_indices : dict.t Q;
  care_capacity : dict.t Q
}.

Record TransitionDefinition : Type := {
  intercept : Q;
  coefficients : dict.t Q
}.

Record LengthOfStayConfig : Type := {
  mean : Q;
  overdispersion : Q;
  capacity_multiplier : Q
}.

Record TransitionsConfig : Type := {
  time_step_months : Z;
  transitions : dict.t TransitionDefinition;
  length_of_stay : dict.t LengthOfStayConfig
}.

Record PolicyConfig : Type := {
  id : string;
  name : string;
  description : string;
  cost_per_capita : Q;
  (* [target], free-form display metadata, is read nowhere in the package *)
  effects : dict.t Q;
  lag_months : Z;
  diminishing_return : Q
}.

Record PoliciesConfig : Type := {
  policies : list PolicyConfig;
  round_budget_gbp : Q
}.

Record CostsConfig : Type := {
  unit_costs : dict.t Q;
  qaly_weights : dict.t Q
}.

Record ScoringConfig : Type := {
  weights : dict.t Q;
  equity_outcomes : list string;
  normalisation : string
}.

Record ConfigBundle : Type := {
  baseline : BaselinePopulationConfig;
  transitions_cfg : TransitionsConfig;
  policies_cfg : PoliciesConfig;
  costs : CostsConfig;
  scoring : ScoringConfig
}.

End utils.

(** ** policies.py *)

Module policies.

Import np.

Record ActivePolicy : Type := {
  policy : utils.PolicyConfig;
  intensity : Q;
  months_active : Z
}.

(* a decision: the mapping with keys "intensity" and "coverage" *)
Definition Decisions : Type := dict.t (dict.t Q).

Section WithRuntime.
Context (rt : Numpy).

Definition ramp (self : ActivePolicy) : Q :=
  let lag := Z.max (utils.lag_months (policy self)) 0 in
  if (months_active self <=? lag)%Z then 0.0
  else
    let effective_months := (months_active self - lag)%Z in
    let ramp := 1.0 - np_exp rt (- inject_Z effective_months / 6.0) in
    clip ramp 0.0 1.0.

Definition diminishing_multiplier (self : ActivePolicy) : Q :=
  let dim := maximum 0.0 (minimum 1.0 (utils.diminishing_return (policy self))) in
  1.0 - dim * (1.0 - clip (intensity self) 0.0 1.0).

Definition effect_strength (self : ActivePolicy) : Q :=
  clip (intensity self) 0.0 1.0 * ramp self * diminishing_multiplier self.

(* Python truthiness of an optional mapping: [None] and [{}] are false. *)
Definition truthy {V : Type} (d : option (dict.t V)) : bool :=
  match d with
  | Some (_ :: _) => true
  | _ => false
  end.

Definition items_of {V : Type} (d : option (dict.t V)) : dict.t V :=
  match d with
  | Some m => m
  | None => []
  end.

Definition build_active_policies (policies_cfg : utils.PoliciesConfig)
    (decisions : option Decisions) (months_elapsed : option (dict.t Z))
    : result (dict.t ActivePolicy) :=
  if negb (truthy decisions) then Ok []
  else
    let policy_by_id :=
      dict.of_items (map (fun p => (utils.id p, p)) (utils.policies policies_cfg)) in
    Ok (fold_left
          (fun active pd =>
             let '(policy_id, detail) := pd in
             match dict.get policy_by_id policy_id with
             | None => active
             | Some policy =>
                 let intensity := dict.get_or detail "intensity" 1.0 in
                 let months_active :=
                   if truthy months_elapsed
                   then dict.get_or (items_of months_elapsed) policy_id 0%Z
                   else 0%Z in
                 dict.set active policy_id
                   {| policy := policy; intensity := intensity;
                      months_active := months_active |}
             end)
          (items_of decisions) []).

Definition aggregate_policy_effects (active : list ActivePolicy) : dict.t Q :=
  fold_left
    (fun modifiers active_policy =>
       let strength := effect_strength active_policy in
       if leb strength 0 then modifiers
       else
         fold_left
           (fun modifiers kv =>
              dict.set modifiers (fst kv)
                (dict.get_or modifiers (fst kv) 0.0 + snd kv * strength))
           (utils.effects (policy active_policy)) modifiers)
    active [].

Definition calculate_policy_cost (policies_cfg : utils.PoliciesConfig)
    (decisions : option Decisions) (cohort_size : Z) : result Q :=
  if negb (truthy decisions) then Ok 0.0
  else
    let policy_lookup :=
      dict.of_items (map (fun p => (utils.id p, p)) (utils.policies policies_cfg)) in
    Ok (fold_left
          (fun total pd =>
             let '(policy_id, detail) := pd in
             match dict.get policy_lookup policy_id with
             | None => total
             | Some policy =>
                 let intensity := dict.get_or detail "intensity" 1.0 in
                 let coverage := dict.get_or detail "coverage" 1.0 in
                 total + utils.cost_per_capita policy * inject_Z cohort_size
                         * intensity * coverage
             end)
          (items_of decisions) 0.0).

End WithRuntime.

End policies.

(** ** shocks.py *)

Module shocks.

Record Shock : Type := {
  name : string;
  description : string;
  duration_months : Z;
  modifiers : dict.t Q
}.

Definition PREDEFINED_SHOCKS : dict.t Shock :=
  [ ("heatwave",
     {| name := "heatwave";
        description := "Sustained heat raises frailty and hospitalisation risk.";
        duration_months := 2;
        modifiers := [("shock_hospital", 0.25); ("shock_mortality", 0.15)] |});
    ("cold_snap",
     {| name := "cold_snap";
        description := "Winter cold strains capacity and drives mortality.";
        duration_months := 3;
        modifiers := [("shock_mortality", 0.2); ("shock_hospital", 0.1)] |});
    ("flu_season",
     {| name := "flu_season";
        description := "Influenza season raises admissions but short-lived.";
        duration_months := 3;
        modifiers := [("shock_hospital", 0.18)] |});
    ("industrial_action",
     {| name := "industrial_action";
        description := "Workforce strike reduces capacity.";
        duration_months := 1;
        modifiers := [("capacity_hospital", -0.2); ("capacity_community", -0.15)] |}) ].

Definition get_shock (name : string) : option Shock :=
  dict.get PREDEFINED_SHOCKS name.

Definition active_shock_modifiers (active : list Shock) : dict.t Q :=
  fold_left
    (fun acc shock =>
       fold_left
         (fun acc kv =>
            dict.set acc (fst kv) (dict.get_or acc (fst kv) 0.0 + snd kv))
         (modifiers shock) acc)
    active [].

End shocks.

(** ** states.py *)

Module states.

Record Cohort : Type := {
  data : dict.t np.ndarray;
  months_elapsed : Z
}.

(* [Cohort({k: v.copy() for k, v in self.data.items()}, self.months_elapsed)]:
   the same keys in the same order, each with an equal array of its own *)
Definition copy (self : Cohort) : Cohort :=
  {| data := map (fun kv => (fst kv, snd kv)) (data self);
     months_elapsed := months_elapsed self |}.

Definition size (self : Cohort) : nat :=
  match dict.values (data self) with
  | [] => 0%nat
  | v :: _ => length v
  end.

Record SimulationTimestepResult : Type := {
  month_index : Z;
  incidence : Q;
  hospital_admissions : Q;
  bed_days : Q;
  care_home_admissions : Q;
  deaths : Q;
  costs_gbp : Q;
  qalys : Q;
  disability_prevalence : Q;
  equity_gaps : dict.t Q
}.

End states.

(** ** capacity.py *)

Module capacity.

Import np.

Definition capacity_feedback (cohort : states.Cohort) (base_length_of_stay : Q)
    (modifiers : option (dict.t Q)) : result (dict.t Q) :=
  let modifiers := policies.items_of modifiers in
  h <- dict.getitem (states.data cohort) "hospitalised" ;;
  let hospitalised := astype_bool h in
  c <- dict.getitem (states.data cohort) "care_home" ;;
  let care_home := astype_bool c in
  hb <- dict.getitem (states.data cohort) "hospital_beds_per_1k" ;;
  let hospital_beds := mean hb in
  cb <- dict.getitem (states.data cohort) "care_home_beds_per_1k" ;;
  let care_beds := mean cb in

  let hospital_occupancy :=
    mean (bool_astype hospitalised) * 1000 / maximum hospital_beds 0.1 in
  let care_occupancy :=
    mean (bool_astype care_home) * 1000 / maximum care_beds 0.1 in

  let hospital_pressure := maximum 0.0 (hospital_occupancy - 1.0) in
  let care_pressure := maximum 0.0 (care_occupancy - 1.0) in

  let los_multiplier := 1.0 + hospital_pressure * 0.3 in
  let mortality_multiplier := 1.0 + hospital_pressure * 0.2 in
  let disability_persistence := 1.0 + care_pressure * 0.15 in

  let los_multiplier :=
    los_multiplier * (1.0 + dict.get_or modifiers "capacity_hospital" 0.0) in
  let disability_persistence :=
    disability_persistence * (1.0 + dict.get_or modifiers "capacity_community" 0.0) in

  Ok [ ("length_of_stay", base_length_of_stay * los_multiplier);
       ("mortality_multiplier", mortality_multiplier);
       ("disability_persistence", disability_persistence) ].

End capacity.

(** ** scoring.py *)

Module scoring.

Import np.

(* A pandas column holds numbers or objects (strings). *)
Inductive Series : Type :=
| Float (v : ndarray)
| Object (v : list string).

(* Row labels and named columns; pandas keeps every column as long as the
   index. *)
Record DataFrame : Type := {
  index : list nat;
  columns : dict.t Series
}.

Definition len (df : DataFrame) : nat := length (index df).

Definition wf (df : DataFrame) : Prop :=
  Forall (fun kv => match snd kv with
                    | Float v => length v = len df
                    | Object v => length v = len df
                    end) (columns df).

Definition setcol (df : DataFrame) (column : string) (s : Series) : DataFrame :=
  {| index := index df; columns := dict.set (columns df) column s |}.

Definition DIMENSION_DIRECTIONS : dict.t Z :=
  [ ("health", 1%Z); ("cost", (-1)%Z); ("capacity", 1%Z); ("equity", 1%Z) ].

(* [math.isclose(a, b)] with its defaults rel_tol=1e-09, abs_tol=0.0 *)
Definition isclose (a b : Q) : bool :=
  leb (Qabs (a - b)) (maximum (0.000000001 * maximum (Qabs a) (Qabs b)) 0.0).

(* [Series.min()] and [Series.max()]; NaN on an empty series, here [0] *)
Definition series_min (values : ndarray) : Q :=
  match values with
  | [] => 0
  | x :: rest => fold_left minimum rest x
  end.

Definition series_max (values : ndarray) : Q :=
  match values with
  | [] => 0
  | x :: rest => fold_left maximum rest x
  end.

Section WithRuntime.
Context (rt : Numpy).

(* [Series.std(ddof=0)], in exact arithmetic: the deviation of a column
   of equal values is 0 here, where binary64 can leave a residue of a few
   1e-17 in a column of several rows *)
Definition std0 (values : ndarray) : Q :=
  let m := mean values in
  np_sqrt rt (mean (map (fun v => (v - m) * (v - m)) values)).

Definition _normalise (series : Series) (method : string) (direction : Z)
    : result ndarray :=
  match series with
  | Object _ => Raise TypeError
  | Float series =>
      let values := map (fun v => v * inject_Z direction) series in
      if String.eqb method "zscore" then
        let mean := mean values in
        let std := std0 values in
        if isclose std 0.0 then Ok (zeros (length values))
        else Ok (map (fun v => (v - mean) / std) values)
      else
        let min_val := series_min values in
        let max_val := series_max values in
        if isclose max_val min_val then Ok (zeros (length values))
        else Ok (map (fun v => (v - min_val) / (max_val - min_val)) values)
  end.

(* [sort_values(..., ascending=False)]: descending, ties in their original
   order (pandas sorts the reversed column with numpy's sort, an insertion
   sort below 17 elements, and reverses the result).  On longer columns
   numpy's sort is not stable, and rows with equal keys can come in another
   order than they do here. *)
Fixpoint insert_desc (x : nat * Q) (sorted : list (nat * Q)) : list (nat * Q) :=
  match sorted with
  | [] => [x]
  | y :: rest =>
      if ltb (snd y) (snd x) then x :: y :: rest else y :: insert_desc x rest
  end.

Definition argsort_desc (key : ndarray) : list nat :=
  map fst (fold_left (fun acc x => insert_desc x acc)
             (combine (seq 0 (length key)) key) []).

Definition take_rows {A : Type} (order : list nat) (l : list A) : list A :=
  omap (fun i => l !! i) order.

(* the frame with its rows, labels and cells, taken in the given order *)
Definition take_frame (order : list nat) (df : DataFrame) : DataFrame :=
  {| index := take_rows order (index df);
     columns := map (fun kv =>
                       (fst kv,
                        match snd kv with
                        | Float v => Float (take_rows order v)
                        | Object v => Object (take_rows order v)
                        end)) (columns df) |}.

Definition sort_values_desc (df : DataFrame) (by_ : string) : result DataFrame :=
  s <- dict.getitem (columns df) by_ ;;
  match s with
  | Object _ => Raise TypeError
  | Float key => Ok (take_frame (argsort_desc key) df)
  end.

(* [df[a] += df[b] * weight] *)
Definition add_weighted (df : DataFrame) (a b : string) (weight : Q)
    : result DataFrame :=
  sa <- dict.getitem (columns df) a ;;
  sb <- dict.getitem (columns df) b ;;
  match sa, sb with
  | Float va, Float vb =>
      Ok (setcol df a (Float (zip_with Qplus va (map (fun x => x * weight) vb))))
  | _, _ => Raise TypeError
  end.

(* the body of [for dimension in scoring_cfg.weights] *)
Definition score_dimension (scoring_cfg : utils.ScoringConfig)
    (df : DataFrame) (dimension : string) : result DataFrame :=
  let column := String.append dimension "_value" in
  let df := if dict.mem (columns df) column then df
            else setcol df column (Float (zeros (len df))) in
  let direction := dict.get_or DIMENSION_DIRECTIONS dimension 1%Z in
  s <- dict.getitem (columns df) column ;;
  normalised <- _normalise s (utils.normalisation scoring_cfg) direction ;;
  Ok (setcol df (String.append dimension "_score") (Float normalised)).

(* [score_round] up to the sort: the frame with a score column per
   dimension and their weighted sum in [total_score] *)
Definition scored_frame (metrics : DataFrame) (scoring_cfg : utils.ScoringConfig)
    : result DataFrame :=
  let df := metrics in
  df <- foldM (score_dimension scoring_cfg)
          (dict.keys (utils.weights scoring_cfg)) df ;;
  let df := setcol df "total_score" (Float (zeros (len df))) in
  foldM (fun df dw =>
           add_weighted df "total_score" (String.append (fst dw) "_score") (snd dw))
        (utils.weights scoring_cfg) df.

Definition score_round (metrics : DataFrame) (scoring_cfg : utils.ScoringConfig)
    : result DataFrame :=
  df <- scored_frame metrics scoring_cfg ;;
  df <- sort_values_desc df "total_score" ;;
  Ok (setcol df "rank"
        (Float (map (fun k => inject_Z (Z.of_nat k)) (seq 1 (len df))))).

End WithRuntime.

End scoring.

(** ** engine.py *)

Module engine.

Import np.

Definition loc : Type := nat.
(* the objects a caller shares with the engine by reference *)
Definition heap : Type := list states.Cohort.

Definition _build_features (cohort : states.Cohort) : result (dict.t ndarray) :=
  let data := states.data cohort in
  age <- dict.getitem data "age" ;;
  imd_quintile <- dict.getitem data "imd_quintile" ;;
  community_capacity <- dict.getitem data "community_capacity" ;;
  ltc_level <- dict.getitem data "ltc_state" ;;
  disability <- dict.getitem data "disability" ;;
  heat_exposure <- dict.getitem data "heat_exposure" ;;
  cold_exposure <- dict.getitem data "cold_exposure" ;;
  hospitalised <- dict.getitem data "hospitalised" ;;
  Ok [ ("age", age);
       ("imd_quintile", imd_quintile);
       ("community_capacity", community_capacity);
       ("ltc_level", ltc_level);
       ("disability", disability);
       ("heat_exposure", heat_exposure);
       ("cold_exposure", cold_exposure);
       ("hospitalised", hospitalised) ].

Definition _calculate_qalys (ltc_state : list Z) (disability alive : list bool)
    (weights : dict.t Q) (dt_years : Q) : result Q :=
  let base :=
    map (fun s =>
           if (s =? 0)%Z then dict.get_or weights "healthy" 0.9
           else if (s =? 1)%Z then dict.get_or weights "ltc_mild" 0.8
           else if (s =? 2)%Z then dict.get_or weights "ltc_moderate" 0.65
           else if (3 <=? s)%Z then dict.get_or weights "ltc_severe" 0.45
           else 0.5) ltc_state in
  let disability_factor :=
    dict.get_or weights "disability" 0.5
    / maximum (dict.get_or weights "healthy" 0.9) 0.000001 in
  adjusted <- broadcast2 Qmult base
                (map (fun d : bool => if d then disability_factor else 1.0) disability) ;;
  adjusted <- broadcast2 Qmult adjusted (bool_astype alive) ;;
  Ok (sum adjusted * dt_years).

Definition _imd_gap (disability imd : ndarray) (alive : list bool) : result Q :=
  let mask_alive := alive in
  if (count mask_alive =? 0)%nat then Ok 0.0
  else
    imd_alive <- mask_get imd mask_alive ;;
    disability_alive <- mask_get disability mask_alive ;;
    let lowest := scoring.series_min imd_alive in
    let highest := scoring.series_max imd_alive in
    let q1 := mean (select disability_alive
                      (map (fun x => Qeq_bool x lowest) imd_alive)) in
    let q5 := mean (select disability_alive
                      (map (fun x => Qeq_bool x highest) imd_alive)) in
    Ok (q5 - q1).

(* [df[key]] for [df = pd.DataFrame(monthly_records)]; the records of one
   round all carry the same keys, and no record means no column *)
Definition records_column (monthly_records : list (dict.t Q)) (key : string)
    : result ndarray :=
  match monthly_records with
  | [] => Raise (KeyError key)
  | _ => mapM (fun record => dict.getitem record key) monthly_records
  end.

Definition iloc_last (column : ndarray) : result Q :=
  match last column with
  | Some x => Ok x
  | None => Raise IndexError
  end.

Definition _summarise_round (monthly_records : list (dict.t Q))
    : result (dict.t Q) :=
  incidence <- records_column monthly_records "incidence" ;;
  hospital_admissions <- records_column monthly_records "hospital_admissions" ;;
  bed_days <- records_column monthly_records "bed_days" ;;
  care_home_admissions <- records_column monthly_records "care_home_admissions" ;;
  deaths <- records_column monthly_records "deaths" ;;
  costs_gbp <- records_column monthly_records "costs_gbp" ;;
  qalys <- records_column monthly_records "qalys" ;;
  disability_prevalence <- records_column monthly_records "disability_prevalence" ;;
  disability_prev_end <- iloc_last disability_prevalence ;;
  equity_gap_disability <- records_column monthly_records "equity_gap_disability" ;;
  equity_gap_end <- iloc_last equity_gap_disability ;;
  Ok [ ("incidence_total", sum incidence);
       ("hospital_admissions_total", sum hospital_admissions);
       ("bed_days_total", sum bed_days);
       ("care_home_admissions_total", sum care_home_admissions);
       ("deaths_total", sum deaths);
       ("costs_total", sum costs_gbp);
       ("qalys_total", sum qalys);
       ("disability_prev_end", disability_prev_end);
       ("equity_gap_disability", equity_gap_end);
       ("health_value", sum qalys);
       ("cost_value", sum costs_gbp);
       ("capacity_value", - sum bed_days);
       ("equity_value", - Qabs equity_gap_end) ].

Section WithRuntime.
Context (rt : Numpy).
(* what [load_config_bundle()] reads from the package's config directory *)
Context (load_config_bundle : result utils.ConfigBundle).

Definition _probability_for_transition (name : string)
    (features : dict.t ndarray) (intercept : Q) (coefficients : dict.t Q)
    (dt_months : Q) (policy_modifiers shock_modifiers : dict.t Q)
    : result ndarray :=
  age <- dict.getitem features "age" ;;
  let alive_mask := map (fun a => a * 0 + 1.0) age in
  let intercept_shift :=
    dict.get_or policy_modifiers name 0.0 + dict.get_or shock_modifiers name 0.0 in
  let combined_features :=
    fold_left
      (fun combined source =>
         fold_left
           (fun combined kv =>
              let '(key, value) := kv in
              if String.prefix "capacity_" key then combined
              else if dict.mem coefficients key && negb (dict.mem combined key)
                   then dict.set combined key (map (fun _ => value) alive_mask)
                   else combined)
           source combined)
      [policy_modifiers; shock_modifiers] features in
  lp <- hazards.log_linear_predictor (intercept + intercept_shift)
          coefficients combined_features ;;
  Ok (hazards.log_hazard_to_probability rt lp dt_months).

(* [gen.random(size)] *)
Fixpoint random (gen : Generator rt) (size : nat) : ndarray * Generator rt :=
  match size with
  | O => ([], gen)
  | S k =>
      let '(x, gen) := next_double rt gen in
      let '(xs, gen) := random gen k in
      (x :: xs, gen)
  end.

(* [gen.gamma(shape, scale, size)]; numpy rejects a negative parameter *)
Fixpoint gamma_draws (gen : Generator rt) (shape scale : Q) (size : nat)
    : ndarray * Generator rt :=
  match size with
  | O => ([], gen)
  | S k =>
      let '(x, gen) := next_gamma rt shape scale gen in
      let '(xs, gen) := gamma_draws gen shape scale k in
      (x :: xs, gen)
  end.

Definition gamma (gen : Generator rt) (shape scale : Q) (size : nat)
    : result (ndarray * Generator rt) :=
  if ltb shape 0 || ltb scale 0 then Raise ValueError
  else Ok (gamma_draws gen shape scale size).

(* the local variables of [simulate_round] that live across months; the
   name [cohort] is the working copy made on entry *)
Record Locals : Type := {
  gen : Generator rt;
  cohort : states.Cohort;
  features : dict.t ndarray;
  alive : list bool;
  ltc_state : list Z;
  disability : list bool;
  hospitalised : list bool;
  care_home : list bool;
  hospital_los_remaining : ndarray;
  policy_counters : dict.t Z;
  timestep_results : list states.SimulationTimestepResult;
  monthly_records : list (dict.t Q)
}.

Definition working_copy (st : Locals) : states.Cohort := cohort st.

Definition set_data (cohort : states.Cohort) (key : string) (v : ndarray)
    : states.Cohort :=
  {| states.data := dict.set (states.data cohort) key v;
     states.months_elapsed := states.months_elapsed cohort |}.

Section Round.
Context (months : Z) (decisions : option policies.Decisions)
        (cfg : utils.ConfigBundle) (shock_mods : dict.t Q) (base_los : Q).

Let transitions_cfg := utils.transitions_cfg cfg.
Let policies_cfg := utils.policies_cfg cfg.
Let costs_cfg := utils.costs cfg.
Let dt_months : Q := inject_Z (utils.time_step_months transitions_cfg).
Let dt_years : Q := dt_months / 12.0.

(* [_probability_for_transition(name, features,
      transitions_cfg.transitions[name].intercept,
      transitions_cfg.transitions[name].coefficients, ...) * alive_mask] *)
Definition transition_probs (name : string) (features : dict.t ndarray)
    (policy_modifiers : dict.t Q) (alive_mask : ndarray) : result ndarray :=
  definition <- dict.getitem (utils.transitions transitions_cfg) name ;;
  p <- _probability_for_transition name features
         (utils.intercept definition) (utils.coefficients definition)
         dt_months policy_modifiers shock_mods ;;
  broadcast2 Qmult p alive_mask.

(* the long-term-condition block of one month *)
Definition ltc_transitions (gen : Generator rt) (size : nat)
    (onset_probs progression_probs severe_probs : ndarray) (ltc_state : list Z)
    : result (list Z * nat * Generator rt) :=
  let '(draw, gen) := random gen size in
  hit <- broadcast2 ltb draw onset_probs ;;
  onset_mask <- broadcast2 andb (map (fun s => (s =? 0)%Z) ltc_state) hit ;;
  ltc_state <- mask_set ltc_state onset_mask 1%Z ;;
  let new_incidence := count onset_mask in

  let '(draw, gen) := random gen size in
  hit <- broadcast2 ltb draw progression_probs ;;
  progress_mask <- broadcast2 andb (map (fun s => (s =? 1)%Z) ltc_state) hit ;;
  ltc_state <- mask_set ltc_state progress_mask 2%Z ;;

  let '(draw, gen) := random gen size in
  hit <- broadcast2 ltb draw severe_probs ;;
  severe_mask <- broadcast2 andb (map (fun s => (2 <=? s)%Z) ltc_state) hit ;;
  ltc_state <- mask_set ltc_state severe_mask 3%Z ;;
  Ok (ltc_state, new_incidence, gen).

(* the recovery probabilities as they are compared with the draw *)
Definition scaled_recovery_probs (recovery_probs : ndarray)
    (capacity_modifiers : dict.t Q) : ndarray :=
  map (fun p =>
         p / maximum (dict.get_or capacity_modifiers "disability_persistence" 1.0) 0.000001)
      recovery_probs.

Definition scaled_mortality_probs (mortality_probs : ndarray)
    (capacity_modifiers : dict.t Q) : ndarray :=
  map (fun p =>
         clip (p * dict.get_or capacity_modifiers "mortality_multiplier" 1.0) 0.0 1.0)
      mortality_probs.

(* disability onset and recovery *)
Definition disability_transitions (gen : Generator rt) (size : nat)
    (disability_probs recovery_probs : ndarray) (disability : list bool)
    : result (list bool * Generator rt) :=
  let '(draw, gen) := random gen size in
  hit <- broadcast2 ltb draw disability_probs ;;
  disability_onset <- broadcast2 andb (map negb disability) hit ;;
  disability <- mask_set disability disability_onset true ;;

  let '(draw, gen) := random gen size in
  hit <- broadcast2 ltb draw recovery_probs ;;
  disability_recover <- broadcast2 andb disability hit ;;
  disability <- mask_set disability disability_recover false ;;
  Ok (disability, gen).

(* admissions, lengths of stay and discharges; returns the new
   [hospitalised], [hospital_los_remaining], the admissions and bed-days *)
Definition hospital_transitions (gen : Generator rt) (size : nat)
    (hospital_probs : ndarray) (capacity_modifiers : dict.t Q)
    (hospitalised : list bool) (hospital_los_remaining : ndarray)
    : result (list bool * ndarray * nat * Q * Generator rt) :=
  let '(draw, gen) := random gen size in
  hit <- broadcast2 ltb draw hospital_probs ;;
  new_admissions_mask <- broadcast2 andb (map negb hospitalised) hit ;;
  let new_hospital := count new_admissions_mask in
  hospitalised <- mask_set hospitalised new_admissions_mask true ;;
  los_mean <- dict.getitem capacity_modifiers "length_of_stay" ;;
  drawn <- gamma gen (los_mean / 2.0) 2.0 (count new_admissions_mask) ;;
  let '(sampled, gen) := drawn in
  let los := map (fun x => maximum 1.0 x) sampled in
  hospital_los_remaining <- mask_assign hospital_los_remaining new_admissions_mask los ;;
  let bed_days := 0.0 + sum los in

  staying <- mask_get hospital_los_remaining hospitalised ;;
  hospital_los_remaining <-
    mask_assign hospital_los_remaining hospitalised
      (map (fun x => maximum 0.0 (x - dt_months * 30)) staying) ;;
  discharged <- broadcast2 andb hospitalised
                  (map (fun x => leb x 0.0) hospital_los_remaining) ;;
  hospitalised <- mask_set hospitalised discharged false ;;
  Ok (hospitalised, hospital_los_remaining, new_hospital, bed_days, gen).

Definition care_home_transitions (gen : Generator rt) (size : nat)
    (care_probs : ndarray) (care_home disability : list bool) (ltc_state : list Z)
    : result (list bool * nat * Generator rt) :=
  eligible <- broadcast2 andb (map negb care_home) disability ;;
  eligible <- broadcast2 andb eligible (map (fun s => (2 <=? s)%Z) ltc_state) ;;
  let '(draw, gen) := random gen size in
  hit <- broadcast2 ltb draw care_probs ;;
  care_mask <- broadcast2 andb eligible hit ;;
  care_home <- mask_set care_home care_mask true ;;
  Ok (care_home, count care_mask, gen).

(* deaths; returns [alive], [hospitalised], [care_home], [disability] *)
Definition mortality_transitions (gen : Generator rt) (size : nat)
    (mortality_probs : ndarray)
    (alive hospitalised care_home disability : list bool)
    : result (list bool * list bool * list bool * list bool * nat * Generator rt) :=
  let '(draw, gen) := random gen size in
  hit <- broadcast2 ltb draw mortality_probs ;;
  death_mask <- broadcast2 andb alive hit ;;
  let new_deaths := count death_mask in
  alive <- mask_set alive death_mask false ;;
  hospitalised <- mask_set hospitalised death_mask false ;;
  care_home <- mask_set care_home death_mask false ;;
  disability <- mask_set disability death_mask false ;;
  Ok (alive, hospitalised, care_home, disability, new_deaths, gen).

(* one pass through the body of [for month in range(months)] *)
Definition simulate_month (month : nat) (st : Locals) : result Locals :=
  let gen := gen st in
  let cohort := cohort st in
  let alive := alive st in
  let ltc_state := ltc_state st in
  let disability := disability st in
  let hospitalised := hospitalised st in
  let care_home := care_home st in
  let hospital_los_remaining := hospital_los_remaining st in
  let policy_counters := policy_counters st in
  let size := states.size cohort in

  let alive_mask := bool_astype alive in
  let features :=
    dict.update (features st)
      [ ("ltc_level", int_astype ltc_state);
        ("disability", bool_astype disability);
        ("hospitalised", bool_astype hospitalised) ] in

  active <- policies.build_active_policies policies_cfg decisions
              (Some policy_counters) ;;
  let policy_modifiers :=
    policies.aggregate_policy_effects rt (dict.values active) in
  capacity_modifiers <-
    capacity.capacity_feedback cohort base_los
      (Some (dict.update policy_modifiers shock_mods)) ;;

  (* LTC transitions *)
  onset_probs <- transition_probs "ltc_onset" features policy_modifiers alive_mask ;;
  progression_probs <-
    transition_probs "ltc_progression" features policy_modifiers alive_mask ;;
  let severe_probs := map (fun p => clip (p * 0.5) 0.0 1.0) progression_probs in
  r <- ltc_transitions gen size onset_probs progression_probs severe_probs ltc_state ;;
  let '(ltc_state, new_incidence, gen) := r in

  (* Disability transitions *)
  disability_probs <-
    transition_probs "disability_onset" features policy_modifiers alive_mask ;;
  recovery_probs <-
    transition_probs "disability_recovery" features policy_modifiers alive_mask ;;
  let recovery_probs := scaled_recovery_probs recovery_probs capacity_modifiers in
  r <- disability_transitions gen size disability_probs recovery_probs disability ;;
  let '(disability, gen) := r in

  (* Hospitalisation transitions *)
  hospital_probs <-
    transition_probs "hospitalisation" features policy_modifiers alive_mask ;;
  r <- hospital_transitions gen size hospital_probs capacity_modifiers
         hospitalised hospital_los_remaining ;;
  let '(hospitalised, hospital_los_remaining, new_hospital, bed_days, gen) := r in

  (* Care home admissions (only for disabled severe) *)
  care_probs <- transition_probs "care_home" features policy_modifiers alive_mask ;;
  r <- care_home_transitions gen size care_probs care_home disability ltc_state ;;
  let '(care_home, new_care, gen) := r in

  (* Mortality *)
  mortality_probs <-
    transition_probs "mortality" features policy_modifiers alive_mask ;;
  let mortality_probs := scaled_mortality_probs mortality_probs capacity_modifiers in
  r <- mortality_transitions gen size mortality_probs
         alive hospitalised care_home disability ;;
  let '(alive, hospitalised, care_home, disability, new_deaths, gen) := r in

  (* Update cohort arrays *)
  age <- dict.getitem (states.data cohort) "age" ;;
  let cohort := set_data cohort "age" (map (fun a => a + dt_months / 12.0) age) in
  let cohort := set_data cohort "ltc_state" (int_astype ltc_state) in
  let cohort := set_data cohort "disability" (bool_astype disability) in
  let cohort := set_data cohort "hospitalised" (bool_astype hospitalised) in
  let cohort := set_data cohort "care_home" (bool_astype care_home) in
  let cohort := set_data cohort "alive" (bool_astype alive) in
  features <- _build_features cohort ;;

  disabled_alive <- broadcast2 andb disability alive ;;
  let disability_prev :=
    inject_Z (Z.of_nat (count disabled_alive))
    / inject_Z (Z.max (Z.of_nat (count alive)) 1) in
  qalys <- _calculate_qalys ltc_state disability alive
             (utils.qaly_weights costs_cfg) dt_years ;;
  priced <- policies.calculate_policy_cost policies_cfg decisions
              (Z.of_nat (states.size cohort)) ;;
  let policy_cost := priced / inject_Z (Z.max months 1) in
  let hospital_cost :=
    bed_days * dict.get_or (utils.unit_costs costs_cfg) "hospital_bed_day" 0.0 in
  let care_cost :=
    inject_Z (Z.of_nat (count care_home)) * 30
    * dict.get_or (utils.unit_costs costs_cfg) "care_home_day" 0.0 in
  let total_cost := policy_cost + hospital_cost + care_cost in

  imd <- dict.getitem (states.data cohort) "imd_quintile" ;;
  equity_gap <- _imd_gap (bool_astype disability) imd alive ;;
  let metrics : dict.t Q :=
    [ ("month", inject_Z (Z.of_nat month + 1));
      ("incidence", inject_Z (Z.of_nat new_incidence));
      ("hospital_admissions", inject_Z (Z.of_nat new_hospital));
      ("bed_days", bed_days);
      ("care_home_admissions", inject_Z (Z.of_nat new_care));
      ("deaths", inject_Z (Z.of_nat new_deaths));
      ("costs_gbp", total_cost);
      ("qalys", qalys);
      ("disability_prevalence", disability_prev);
      ("equity_gap_disability", equity_gap) ] in
  let timestep :=
    {| states.month_index := Z.of_nat month + 1;
       states.incidence := inject_Z (Z.of_nat new_incidence);
       states.hospital_admissions := inject_Z (Z.of_nat new_hospital);
       states.bed_days := bed_days;
       states.care_home_admissions := inject_Z (Z.of_nat new_care);
       states.deaths := inject_Z (Z.of_nat new_deaths);
       states.costs_gbp := total_cost;
       states.qalys := qalys;
       states.disability_prevalence := disability_prev;
       states.equity_gaps := [("disability", equity_gap)] |} in

  let policy_counters :=
    fold_left
      (fun counters policy_id =>
         if policies.truthy decisions
            && dict.mem (policies.items_of decisions) policy_id
         then
           if ltb 0 (dict.get_or
                       (dict.get_or (policies.items_of decisions) policy_id [])
                       "intensity" 0)
           then dict.set counters policy_id
                  (dict.get_or counters policy_id 0 + 1)%Z
           else counters
         else counters)
      (dict.keys policy_counters) policy_counters in

  Ok {| gen := gen;
        cohort := cohort;
        features := features;
        alive := alive;
        ltc_state := ltc_state;
        disability := disability;
        hospitalised := hospitalised;
        care_home := care_home;
        hospital_los_remaining := hospital_los_remaining;
        policy_counters := policy_counters;
        timestep_results := timestep_results st ++ [timestep];
        monthly_records := monthly_records st ++ [metrics] |}.

(* [for month in range(months)] *)
Definition run_months (st : Locals) : result Locals :=
  foldM (fun st month => simulate_month month st) (seq 0 (Z.to_nat months)) st.

End Round.

Definition _build_leaderboard (summary : dict.t Q)
    (scoring_cfg : utils.ScoringConfig) : result scoring.DataFrame :=
  health_value <- dict.getitem summary "health_value" ;;
  cost_value <- dict.getitem summary "cost_value" ;;
  capacity_value <- dict.getitem summary "capacity_value" ;;
  equity_value <- dict.getitem summary "equity_value" ;;
  let metrics_df :=
    {| scoring.index := [0%nat];
       scoring.columns :=
         [ ("team", scoring.Object ["current"]);
           ("health_value", scoring.Float [health_value]);
           ("cost_value", scoring.Float [cost_value]);
           ("capacity_value", scoring.Float [capacity_value]);
           ("equity_value", scoring.Float [equity_value]) ] |} in
  scoring.score_round rt metrics_df scoring_cfg.

Definition Outputs : Type :=
  (loc * list states.SimulationTimestepResult * dict.t Q * scoring.DataFrame)%type.

(* the body of [simulate_round] from [cohort = cohort.copy()] on, run on
   the working copy; returns that copy as it stands at [return] *)
Definition simulate_copy (cohort : states.Cohort) (months : Z)
    (decisions : option policies.Decisions) (shocks : option (list shocks.Shock))
    (cfg : utils.ConfigBundle) (seed : Z)
    (policy_months_active : option (dict.t Z))
    : result (states.Cohort * list states.SimulationTimestepResult
              * dict.t Q * scoring.DataFrame) :=
  let transitions_cfg := utils.transitions_cfg cfg in
  let scoring_cfg := utils.scoring cfg in
  let gen := default_rng rt seed in

  features <- _build_features cohort ;;
  alive <- dict.getitem (states.data cohort) "alive" ;;
  ltc_state <- dict.getitem (states.data cohort) "ltc_state" ;;
  disability <- dict.getitem (states.data cohort) "disability" ;;
  hospitalised <- dict.getitem (states.data cohort) "hospitalised" ;;
  care_home <- dict.getitem (states.data cohort) "care_home" ;;

  let hospital_los_remaining := zeros (states.size cohort) in
  let policy_counters : dict.t Z :=
    dict.of_items
      (map (fun policy_id =>
              (policy_id,
               if policies.truthy policy_months_active
               then dict.get_or (policies.items_of policy_months_active) policy_id 0%Z
               else 0%Z))
         (dict.keys (policies.items_of decisions))) in
  let active_shocks := match shocks with Some l => l | None => [] end in
  let shock_mods := shocks.active_shock_modifiers active_shocks in
  let base_los :=
    match dict.get (utils.length_of_stay transitions_cfg) "hospital" with
    | Some los => utils.mean los
    | None => 7.0
    end in

  st <- run_months months decisions cfg shock_mods base_los
          {| gen := gen;
             cohort := cohort;
             features := features;
             alive := astype_bool alive;
             ltc_state := astype_int ltc_state;
             disability := astype_bool disability;
             hospitalised := astype_bool hospitalised;
             care_home := astype_bool care_home;
             hospital_los_remaining := hospital_los_remaining;
             policy_counters := policy_counters;
             timestep_results := [];
             monthly_records := [] |} ;;

  let cohort :=
    {| states.data := states.data (working_copy st);
       states.months_elapsed := (states.months_elapsed (working_copy st) + months)%Z |} in
  summary <- _summarise_round (monthly_records st) ;;
  leaderboard <- _build_leaderboard summary scoring_cfg ;;
  Ok (cohort, timestep_results st, summary, leaderboard).

(* [simulate_round]: [cohort] is a reference into the caller's heap.  The
   copy is a new object; from [cohort = cohort.copy()] on the name denotes
   it, so it is where every assignment to [cohort.data[...]] and to
   [cohort.months_elapsed] lands. *)
Definition simulate_round (h : heap) (cohort : loc) (months : Z)
    (decisions : option policies.Decisions) (shocks : option (list shocks.Shock))
    (config_bundle : option utils.ConfigBundle) (seed : Z)
    (policy_months_active : option (dict.t Z)) : heap * result Outputs :=
  match (match config_bundle with
         | Some cfg => Ok cfg
         | None => load_config_bundle
         end) with
  | Raise e => (h, Raise e)
  | Ok cfg =>
      match h !! cohort with
      | None => (h, Raise AttributeError)
      | Some caller_cohort =>
          let working := length h in
          let h := h ++ [states.copy caller_cohort] in
          match simulate_copy (states.copy caller_cohort) months decisions shocks
                  cfg seed policy_months_active with
          | Raise e => (h, Raise e)
          | Ok (advanced, timesteps, summary, leaderboard) =>
              (<[working := advanced]> h,
               Ok (working, timesteps, summary, leaderboard))
          end
      end
  end.

End WithRuntime.

End engine.

(** * Vocabulary of the statements *)

Import np.

(** The sum over the vectors of individual [i]'s entries. *)
Definition column_sum (i : nat) (vectors : list ndarray) : Q :=
  fold_right (fun v acc => nth i v 0 + acc) 0 vectors.

Definition probability_vector (n : nat) (v : ndarray) : Prop :=
  length v = n /\ Forall (fun p => 0 <= p <= 1) v.

(** The float64 array that holds the numbers [v]. *)
Definition float_array (v : ndarray) : array := FloatArray (map Finite v).

(** What is left of an entry [a] of an individual whose entries sum to [t]:
    the entry less its share [a / t] of the excess [max (t - 1) 0], with
    the code's guard [1e-12] in the denominator. *)
Definition kept (a t : Q) : Q :=
  a - maximum (t - 1.0) 0.0 * (a / (t + 0.000000000001)).

Definition keep_factor (t : Q) : Q :=
  1 - maximum (t - 1.0) 0.0 / (t + 0.000000000001).

(** The adjusted vector written without the error monad. *)
Definition shrink (total arr : ndarray) : ndarray :=
  map (fun x => clip x 0.0 1.0)
    (zip_with Qminus arr
       (zip_with Qmult (map (fun t => maximum (t - 1.0) 0.0) total)
          (zip_with Qdiv arr (map (fun t => t + 0.000000000001) total)))).

(** The share of a 0/1 column that is set, the occupancy it gives against
    the mean beds per 1000 (floored at 0.1), and the pressure of an
    occupancy. *)
Definition fraction_occupied (flags : ndarray) : Q :=
  inject_Z (Z.of_nat (count (astype_bool flags)))
  / inject_Z (Z.of_nat (length flags)).

Definition occupancy (flags beds_per_1000 : ndarray) : Q :=
  fraction_occupied flags * 1000 / maximum (mean beds_per_1000) 0.1.

Definition pressure (occupancy : Q) : Q := maximum 0.0 (occupancy - 1.0).

(** Whether the policy catalogue has a policy of this id, and a decision
    mapping cut down to the ids it has. *)
Definition in_catalogue (policies_cfg : utils.PoliciesConfig) (policy_id : string) : bool :=
  existsb (fun p => String.eqb (utils.id p) policy_id) (utils.policies policies_cfg).

Definition known_only (policies_cfg : utils.PoliciesConfig)
    (decisions : option policies.Decisions) : option policies.Decisions :=
  option_map (List.filter (fun pd => in_catalogue policies_cfg (fst pd))) decisions.

(** The cells that [score_round] reads for a weighted dimension are
    numbers wherever the table has the column. *)
Definition numeric_dimensions (scoring_cfg : utils.ScoringConfig)
    (df : scoring.DataFrame) : Prop :=
  forall dimension s,
    In dimension (dict.keys (utils.weights scoring_cfg)) ->
    dict.get (scoring.columns df) (String.append dimension "_value") = Some s ->
    exists v, s = scoring.Float v.

(** The rank column of an [n]-row table: 1, 2, ..., n. *)
Definition ranks (n : nat) : ndarray :=
  map (fun k => inject_Z (Z.of_nat k)) (seq 1 n).

Definition is_float (s : option scoring.Series) : Prop :=
  exists v, s = Some (scoring.Float v).

(** What the dimension loop of [score_round] keeps true of the frame it
    works on: same rows, well-formed, numeric, and a value column that the
    input lacked holds zeros. *)
Record scored_upto (scoring_cfg : utils.ScoringConfig) (n : nat)
    (original df : scoring.DataFrame) : Prop := {
  su_index : scoring.index df = scoring.index original;
  su_len : scoring.len df = n;
  su_wf : scoring.wf df;
  su_numeric : numeric_dimensions scoring_cfg df;
  su_missing : forall dimension,
      dict.get (scoring.columns original) (String.append dimension "_value") = None ->
      match dict.get (scoring.columns df) (String.append dimension "_value") with
      | None => True
      | Some s => exists v, s = scoring.Float v /\ Forall (fun x => x = 0) v
      end;
}.

(** The frame after both loops. *)
Record fully_scored (scoring_cfg : utils.ScoringConfig) (n : nat)
    (original df : scoring.DataFrame) : Prop := {
  fs_upto : scored_upto scoring_cfg n original df;
  fs_total : is_float (dict.get (scoring.columns df) "total_score");
  fs_dims : forall d, In d (dict.keys (utils.weights scoring_cfg)) ->
      is_float (dict.get (scoring.columns df) (String.append d "_value")) /\
      is_float (dict.get (scoring.columns df) (String.append d "_score"));
}.

(** Long-term-condition tiers: the ordinal range, one step of a tier that
    starts in range, and the same on a cohort column, whose cells are
    numbers. *)
Definition tier_in_range (t : Z) : Prop := (0 <= t <= 3)%Z.

Definition tier_step (before after : Z) : Prop :=
  tier_in_range before -> (before <= after)%Z /\ tier_in_range after.

Definition is_tier (q : Q) : Prop := exists t, tier_in_range t /\ q == inject_Z t.

Definition tier_column_step (before after : Q) : Prop :=
  is_tier before -> before <= after /\ is_tier after.

(** Whoever is alive afterwards was alive before, on the engine's boolean
    array and on a cohort's 0/1 column. *)
Definition stays_dead (before after : bool) : Prop := after = true -> before = true.

Definition flag_stays_dead (before after : Q) : Prop :=
  nonzero after = true -> nonzero before = true.

(** The seven transitions that [simulate_round] reads by name. *)
Definition named_transitions : list string :=
  [ "ltc_onset"; "ltc_progression"; "disability_onset"; "disability_recovery";
    "hospitalisation"; "care_home"; "mortality" ].

(** The bundle a call works with: [config_bundle or load_config_bundle()]. *)
Definition bundle_in_use (load_config_bundle : result utils.ConfigBundle)
    (config_bundle : option utils.ConfigBundle) : result utils.ConfigBundle :=
  match config_bundle with
  | Some cfg => Ok cfg
  | None => load_config_bundle
  end.

(** Two outcomes of [simulate_round] that a caller cannot tell apart: the
    same exception, or equal timestep results, summary and scored table
    with equal advanced cohorts behind the two references returned. *)
Definition same_outcome (first second : engine.heap * result engine.Outputs) : Prop :=
  match snd first, snd second with
  | Ok (advanced1, timesteps1, summary1, leaderboard1),
    Ok (advanced2, timesteps2, summary2, leaderboard2) =>
      (exists cohort, fst first !! advanced1 = Some cohort /\
                      fst second !! advanced2 = Some cohort) /\
      timesteps1 = timesteps2 /\ summary1 = summary2 /\ leaderboard1 = leaderboard2
  | Raise e1, Raise e2 => e1 = e2
  | _, _ => False
  end.

(** What a call computes from the caller's cohort object, apart from where
    it puts the copy. *)
Definition round_of (rt : Numpy) (load_config_bundle : result utils.ConfigBundle)
    (caller_cohort : option states.Cohort) (months : Z)
    (decisions : option policies.Decisions) (shocks : option (list shocks.Shock))
    (config_bundle : option utils.ConfigBundle) (seed : Z)
    (policy_months_active : option (dict.t Z))
    : result (states.Cohort * list states.SimulationTimestepResult
              * dict.t Q * scoring.DataFrame) :=
  cfg <- bundle_in_use load_config_bundle config_bundle ;;
  match caller_cohort with
  | None => Raise AttributeError
  | Some cohort =>
      engine.simulate_copy rt (states.copy cohort) months decisions shocks cfg seed
        policy_months_active
  end.

(** Two outcomes that agree: the same exception, or values related by [P]. *)
Definition result_rel {A B : Type} (P : A -> B -> Prop)
    (m1 : result A) (m2 : result B) : Prop :=
  match m1, m2 with
  | Ok a, Ok b => P a b
  | Raise e1, Raise e2 => e1 = e2
  | _, _ => False
  end.

(** Generator states of two runs out of which every draw, uniform or
    gamma, comes out the same and leaves the states related again. *)
Definition same_draws (rt1 rt2 : Numpy)
    (R : Generator rt1 -> Generator rt2 -> Prop) : Prop :=
  (forall g1 g2, R g1 g2 ->
     fst (next_double rt1 g1) = fst (next_double rt2 g2) /\
     R (snd (next_double rt1 g1)) (snd (next_double rt2 g2))) /\
  (forall shape scale g1 g2, R g1 g2 ->
     fst (next_gamma rt1 shape scale g1) = fst (next_gamma rt2 shape scale g2) /\
     R (snd (next_gamma rt1 shape scale g1)) (snd (next_gamma rt2 shape scale g2))).

(** The generators that the two runs make from the seed yield the same
    stream of draws. *)
Definition same_stream (rt1 rt2 : Numpy) (seed : Z) : Prop :=
  exists R, R (default_rng rt1 seed) (default_rng rt2 seed) /\ same_draws rt1 rt2 R.

(** A value with the generator state it leaves, in two runs. *)
Definition with_gen {A : Type} {rt1 rt2 : Numpy}
    (R : Generator rt1 -> Generator rt2 -> Prop)
    (x : A * Generator rt1) (y : A * Generator rt2) : Prop :=
  fst x = fst y /\ R (snd x) (snd y).

(** The locals of two runs that differ in the generator state at most. *)
Definition same_locals {rt1 rt2 : Numpy}
    (R : Generator rt1 -> Generator rt2 -> Prop)
    (st1 : engine.Locals rt1) (st2 : engine.Locals rt2) : Prop :=
  R (engine.gen rt1 st1) (engine.gen rt2 st2) /\
  engine.cohort rt1 st1 = engine.cohort rt2 st2 /\
  engine.features rt1 st1 = engine.features rt2 st2 /\
  engine.alive rt1 st1 = engine.alive rt2 st2 /\
  engine.ltc_state rt1 st1 = engine.ltc_state rt2 st2 /\
  engine.disability rt1 st1 = engine.disability rt2 st2 /\
  engine.hospitalised rt1 st1 = engine.hospitalised rt2 st2 /\
  engine.care_home rt1 st1 = engine.care_home rt2 st2 /\
  engine.hospital_los_remaining rt1 st1 = engine.hospital_los_remaining rt2 st2 /\
  engine.policy_counters rt1 st1 = engine.policy_counters rt2 st2 /\
  engine.timestep_results rt1 st1 = engine.timestep_results rt2 st2 /\
  engine.monthly_records rt1 st1 = engine.monthly_records rt2 st2.

(** Probabilities. *)
Definition unit_interval (p : Q) : Prop := 0 <= p <= 1.

(** Two classical bounds on the exponential, which the real function
    meets: [1 + x <= exp x] for [x >= 0], [exp y <= 1 / (1 - y)] for
    [y <= 0]. *)
Definition exp_bounds (rt : Numpy) : Prop :=
  (forall x, 0 <= x -> 1 + x <= np_exp rt x) /\
  (forall y, y <= 0 -> np_exp rt y <= 1 / (1 - y)).

(** The probability of one individual as [log_hazard_to_probability] has
    it, from the linear predictor [lp]. *)
Definition probability_of (rt : Numpy) (lp dt_months : Q) : Q :=
  clip (1.0 - np_exp rt (- maximum (np_exp rt lp) 0 * (dt_months / 12.0))) 0.0 1.0.

(** * Vocabulary of the further properties *)

(** What the coefficients add to the intercept for individual [i]: for
    every coefficient whose key is a feature, the coefficient times the
    individual's value of that feature. *)
Definition linear_terms (i : nat) (coefficients : dict.t Q)
    (features : dict.t ndarray) : Q :=
  fold_right (fun kc acc =>
                match dict.get features (fst kc) with
                | None => acc
                | Some values => snd kc * nth i values 0 + acc
                end) 0 coefficients.

(** Every feature array has [n] entries. *)
Definition columns_of_length {A : Type} (n : nat) (features : dict.t (list A)) : Prop :=
  Forall (fun kv => length (snd kv) = n) features.

(** An exponential that is monotone, and one that is 1 at 0. *)
Definition exp_monotone (rt : Numpy) : Prop :=
  forall x y, x <= y -> np_exp rt x <= np_exp rt y.

Definition exp_zero (rt : Numpy) : Prop :=
  forall x, x == 0 -> np_exp rt x == 1.

(** A policy that is still within its lag, or whose intensity is not
    positive. *)
Definition dormant (a : policies.ActivePolicy) : Prop :=
  (policies.months_active a <= Z.max (utils.lag_months (policies.policy a)) 0)%Z
  \/ policies.intensity a <= 0.

(** The modifiers of key [k] over a list of shocks, added up. *)
Definition modifier_total (k : string) (active : list shocks.Shock) : Q :=
  fold_right
    (fun shock acc =>
       fold_right (fun kv acc => if String.eqb (fst kv) k then snd kv + acc else acc)
         acc (shocks.modifiers shock))
    0 active.

(** The four cohort columns that [capacity_feedback] reads. *)
Definition capacity_columns : list string :=
  [ "hospitalised"; "care_home"; "hospital_beds_per_1k"; "care_home_beds_per_1k" ].

(** A square root that is 0 at 0. *)
Definition sqrt_zero (rt : Numpy) : Prop :=
  forall x, x == 0 -> np_sqrt rt x == 0.

(** The values that [score_round] normalises for a dimension: the table's
    [<dimension>_value] column, or zeros when the table has none. *)
Definition dimension_values (df : scoring.DataFrame) (dimension : string) : ndarray :=
  match dict.get (scoring.columns df) (String.append dimension "_value") with
  | Some (scoring.Float v) => v
  | _ => zeros (scoring.len df)
  end.

(** The normalised scores of a dimension, with its direction. *)
Definition dimension_scores (rt : Numpy) (scoring_cfg : utils.ScoringConfig)
    (df : scoring.DataFrame) (dimension : string) : ndarray :=
  match scoring._normalise rt (scoring.Float (dimension_values df dimension))
          (utils.normalisation scoring_cfg)
          (dict.get_or scoring.DIMENSION_DIRECTIONS dimension 1%Z) with
  | Ok scores => scores
  | Raise _ => []
  end.

(** The weighted sum of row [i]'s dimension scores. *)
Definition weighted_total (rt : Numpy) (scoring_cfg : utils.ScoringConfig)
    (df : scoring.DataFrame) (i : nat) : Q :=
  fold_right
    (fun dw acc => nth i (dimension_scores rt scoring_cfg df (fst dw)) 0 * snd dw + acc)
    0 (utils.weights scoring_cfg).

(** The value and score columns as the dimension loop of [score_round]
    leaves them after the dimensions [scored]. *)
Definition columns_track (rt : Numpy) (scoring_cfg : utils.ScoringConfig)
    (original df : scoring.DataFrame) (scored : list string) : Prop :=
  scoring.len df = scoring.len original /\
  (forall d, In d (dict.keys (utils.weights scoring_cfg)) ->
             match dict.get (scoring.columns df) (String.append d "_value") with
             | Some s => s = scoring.Float (dimension_values original d)
             | None =>
                 dict.get (scoring.columns original) (String.append d "_value") = None
             end) /\
  (forall d, In d scored ->
             dict.get (scoring.columns df) (String.append d "_score")
             = Some (scoring.Float (dimension_scores rt scoring_cfg original d))).

(** A list in descending order. *)
Fixpoint descending (l : ndarray) : Prop :=
  match l with
  | [] => True
  | x :: rest => Forall (fun y => y <= x) rest /\ descending rest
  end.

(** Every score column of a one-row frame holds a single 0. *)
Definition zero_scores (df : scoring.DataFrame) : Prop :=
  forall d s,
    dict.get (scoring.columns df) (String.append d "_score") = Some s ->
    exists q, s = scoring.Float [q] /\ q == 0.

(** The four summary entries that the leaderboard is built from. *)
Definition leaderboard_keys : list string :=
  [ "health_value"; "cost_value"; "capacity_value"; "equity_value" ].

(** The record and the timestep result that one month appends, from the
    month's counts and amounts. *)
Definition month_metrics (month new_incidence new_hospital : nat) (bed_days : Q)
    (new_care new_deaths : nat) (total_cost qalys disability_prev equity_gap : Q)
    : dict.t Q :=
  [ ("month", inject_Z (Z.of_nat month + 1));
    ("incidence", inject_Z (Z.of_nat new_incidence));
    ("hospital_admissions", inject_Z (Z.of_nat new_hospital));
    ("bed_days", bed_days);
    ("care_home_admissions", inject_Z (Z.of_nat new_care));
    ("deaths", inject_Z (Z.of_nat new_deaths));
    ("costs_gbp", total_cost);
    ("qalys", qalys);
    ("disability_prevalence", disability_prev);
    ("equity_gap_disability", equity_gap) ].

Definition month_timestep (month new_incidence new_hospital : nat) (bed_days : Q)
    (new_care new_deaths : nat) (total_cost qalys disability_prev equity_gap : Q)
    : states.SimulationTimestepResult :=
  {| states.month_index := Z.of_nat month + 1;
     states.incidence := inject_Z (Z.of_nat new_incidence);
     states.hospital_admissions := inject_Z (Z.of_nat new_hospital);
     states.bed_days := bed_days;
     states.care_home_admissions := inject_Z (Z.of_nat new_care);
     states.deaths := inject_Z (Z.of_nat new_deaths);
     states.costs_gbp := total_cost;
     states.qalys := qalys;
     states.disability_prevalence := disability_prev;
     states.equity_gaps := [("disability", equity_gap)] |}.

(** The cohort columns that one month rewrites, in the order of the
    assignments. *)
Definition month_cohort (cohort : states.Cohort) (age : ndarray) (ltc_state : list Z)
    (disability hospitalised care_home alive : list bool) : states.Cohort :=
  engine.set_data
    (engine.set_data
       (engine.set_data
          (engine.set_data
             (engine.set_data (engine.set_data cohort "age" age)
                "ltc_state" (int_astype ltc_state))
             "disability" (bool_astype disability))
          "hospitalised" (bool_astype hospitalised))
       "care_home" (bool_astype care_home))
    "alive" (bool_astype alive).

(** The monthly record that goes with a timestep result. *)
Definition timestep_record (t : states.SimulationTimestepResult) : dict.t Q :=
  [ ("month", inject_Z (states.month_index t));
    ("incidence", states.incidence t);
    ("hospital_admissions", states.hospital_admissions t);
    ("bed_days", states.bed_days t);
    ("care_home_admissions", states.care_home_admissions t);
    ("deaths", states.deaths t);
    ("costs_gbp", states.costs_gbp t);
    ("qalys", states.qalys t);
    ("disability_prevalence", states.disability_prevalence t);
    ("equity_gap_disability", dict.get_or (states.equity_gaps t) "disability" 0) ].

(** The summary of a round written from its timestep results: totals over
    all of them, end values from the last one. *)
Definition summary_of (timesteps : list states.SimulationTimestepResult)
    (final : states.SimulationTimestepResult) : dict.t Q :=
  let equity_gap := dict.get_or (states.equity_gaps final) "disability" 0 in
  [ ("incidence_total", sum (map states.incidence timesteps));
    ("hospital_admissions_total", sum (map states.hospital_admissions timesteps));
    ("bed_days_total", sum (map states.bed_days timesteps));
    ("care_home_admissions_total", sum (map states.care_home_admissions timesteps));
    ("deaths_total", sum (map states.deaths timesteps));
    ("costs_total", sum (map states.costs_gbp timesteps));
    ("qalys_total", sum (map states.qalys timesteps));
    ("disability_prev_end", states.disability_prevalence final);
    ("equity_gap_disability", equity_gap);
    ("health_value", sum (map states.qalys timesteps));
    ("cost_value", sum (map states.costs_gbp timesteps));
    ("capacity_value", - sum (map states.bed_days timesteps));
    ("equity_value", - Qabs equity_gap) ].

(** The month indices 1, 2, ..., n. *)
Definition month_indices (n : nat) : list Z :=
  map (fun k => (Z.of_nat k + 1)%Z) (seq 0 n).

(** The utility of one individual in [_calculate_qalys]: the weight of the
    tier, times the disability factor for the disabled. *)
Definition utility (weights : dict.t Q) (tier : Z) (disabled : bool) : Q :=
  (if (tier =? 0)%Z then dict.get_or weights "healthy" 0.9
   else if (tier =? 1)%Z then dict.get_or weights "ltc_mild" 0.8
   else if (tier =? 2)%Z then dict.get_or weights "ltc_moderate" 0.65
   else if (3 <=? tier)%Z then dict.get_or weights "ltc_severe" 0.45
   else 0.5)
  * (if disabled
     then dict.get_or weights "disability" 0.5
          / maximum (dict.get_or weights "healthy" 0.9) 0.000001
     else 1.0).

(** The utilities of the living, added up. *)
Fixpoint living_utility (weights : dict.t Q) (ltc_state : list Z)
    (disability alive : list bool) : Q :=
  match ltc_state, disability, alive with
  | tier :: ltc_state', disabled :: disability', a :: alive' =>
      (if a then utility weights tier disabled else 0)
      + living_utility weights ltc_state' disability' alive'
  | _, _, _ => 0
  end.

(** Whether the month counter of a decision advances at the end of a
    month: the decision is there and gives an intensity above 0. *)
Definition advances (decisions : option policies.Decisions) (policy_id : string) : bool :=
  policies.truthy decisions
  && dict.mem (policies.items_of decisions) policy_id
  && ltb 0 (dict.get_or (dict.get_or (policies.items_of decisions) policy_id [])
              "intensity" 0).

(** A modifier key that cannot change the features of a transition: a
    capacity modifier, a key that is no coefficient, or a key that is a
    feature already. *)
Definition inert (coefficients : dict.t Q) (features : dict.t ndarray)
    (key : string) : Prop :=
  String.prefix "capacity_" key = true \/
  dict.mem coefficients key = false \/
  dict.mem features key = true.

(** The individuals of a tier array that have no long-term condition. *)
Definition tier_zero (ltc_state : list Z) : list bool :=
  map (fun s => (s =? 0)%Z) ltc_state.

(** A float64 that is a number, one that is not negative, and one that
    the guard [1e-12] does not cancel; an array whose values are
    non-negative numbers; and what the running total of
    [ensure_competing_risk] keeps: a float total holds non-negative
    numbers. *)
Definition number (x : float64) : Prop := exists q, x = Finite q.

Definition nonneg_number (x : float64) : Prop :=
  match x with
  | Finite q => 0 <= q
  | _ => False
  end.

Definition guarded (x : float64) : Prop :=
  exists q, x = Finite q /\ ~ q + 0.000000000001 == 0.

Definition nonnegative (a : array) : Prop := Forall nonneg_number (as_float a).

(** An array whose values are probabilities: numbers within [0, 1]. *)
Definition holds_probabilities (a : array) : Prop :=
  Forall (fun x => match x with
                   | Finite q => 0 <= q <= 1
                   | _ => False
                   end) (as_float a).

Definition total_nonneg (total : array) : Prop :=
  match total with
  | FloatArray t => Forall nonneg_number t
  | _ => True
  end.

(** * Scoring as the specification words it

    The values of a dimension are sign-adjusted for direction (cost is
    negated, every other dimension is kept as it is), then normalised: by
    z-score (subtract the mean, divide by the population standard
    deviation; 0 for all rows if the standard deviation is about 0) or by
    min-max (subtract the minimum, divide by the range; 0 for a degenerate
    range).  The total of a row is the weighted sum of its normalised
    scores.  "About 0" and "degenerate" are read as [math.isclose] has
    them. *)
Definition spec_sign_adjusted (dimension : string) (values : ndarray) : ndarray :=
  if String.eqb dimension "cost" then map Qopp values else values.

Definition spec_population_std (rt : Numpy) (values : ndarray) : Q :=
  np_sqrt rt (mean (map (fun v => (v - mean values) * (v - mean values)) values)).

Definition spec_normalised (rt : Numpy) (method : string) (values : ndarray) : ndarray :=
  if String.eqb method "zscore" then
    if scoring.isclose (spec_population_std rt values) 0.0 then zeros (length values)
    else map (fun v => (v - mean values) / spec_population_std rt values) values
  else
    if scoring.isclose (scoring.series_max values) (scoring.series_min values)
    then zeros (length values)
    else map (fun v => (v - scoring.series_min values)
                       / (scoring.series_max values - scoring.series_min values))
           values.

(** The normalised scores of a dimension of a table, from its value column
    (zeros where the table has none), and the weighted sum of row [i]. *)
Definition spec_scores (rt : Numpy) (scoring_cfg : utils.ScoringConfig)
    (df : scoring.DataFrame) (dimension : string) : ndarray :=
  spec_normalised rt (utils.normalisation scoring_cfg)
    (spec_sign_adjusted dimension (dimension_values df dimension)).

Definition spec_weighted_sum (rt : Numpy) (scoring_cfg : utils.ScoringConfig)
    (df : scoring.DataFrame) (i : nat) : Q :=
  fold_right
    (fun dw acc => snd dw * nth i (spec_scores rt scoring_cfg df (fst dw)) 0 + acc)
    0 (utils.weights scoring_cfg).

(** A table that [score_round] returns for the input [df], with the row
    positions in the order [order]: every row is taken whole, with the
    value and the normalised score of each weighted dimension, the totals
    [total] and the ranks 1..n. *)
Definition scored_and_ranked (rt : Numpy) (scoring_cfg : utils.ScoringConfig)
    (df : scoring.DataFrame) (order : list nat) (total : ndarray)
    (out : scoring.DataFrame) : Prop :=
  Permutation order (seq 0 (scoring.len df)) /\
  scoring.index out = scoring.take_rows order (scoring.index df) /\
  (forall d, In d (dict.keys (utils.weights scoring_cfg)) ->
     dict.get (scoring.columns out) (String.append d "_value")
     = Some (scoring.Float (scoring.take_rows order (dimension_values df d)))) /\
  (forall d, In d (dict.keys (utils.weights scoring_cfg)) -> d <> "total" ->
     dict.get (scoring.columns out) (String.append d "_score")
     = Some (scoring.Float
               (scoring.take_rows order (spec_scores rt scoring_cfg df d)))) /\
  length total = scoring.len df /\
  dict.get (scoring.columns out) "total_score"
  = Some (scoring.Float (scoring.take_rows order total)) /\
  descending (scoring.take_rows order total) /\
  dict.get (scoring.columns out) "rank" = Some (scoring.Float (ranks (scoring.len df))).

(** ** Concrete inputs used to exercise the statements *)

Module example.

(* a crude rational exponential: it is positive, increasing, and lies
   between the bounds [1 + x <= exp x] and [exp (-x) <= 1 / (1 + x)] *)
Definition exp (x : Q) : Q :=
  Qred (if Qle_bool 0 x then 1 + x else 1 / (1 - x)).

(* the integer square root of the value scaled by 10^12 *)
Definition sqrt (x : Q) : Q :=
  Qred (inject_Z (Z.sqrt (Qnum x * Zpos (Qden x) * 1000000000000))
        / (inject_Z (Zpos (Qden x)) * 1000000)).

(* a linear congruential generator *)
Definition next (s : Z) : Q * Z :=
  let s' := ((1103515245 * s + 12345) mod 2147483648)%Z in
  (Qred (inject_Z s' / 2147483648), s').

Definition numpy : Numpy :=
  {| np_exp := exp;
     np_sqrt := sqrt;
     Generator := Z;
     default_rng := fun seed => seed;
     next_double := next;
     next_gamma := fun shape scale s =>
                     let '(u, s') := next s in
                     (Qred (shape * scale * (0.5 + u)), s') |}.

(* the same generator behind a state that also counts the draws taken *)
Definition numpy_counting : Numpy :=
  {| np_exp := exp;
     np_sqrt := sqrt;
     Generator := Z * nat;
     default_rng := fun seed => (seed, 0%nat);
     next_double := fun g => let '(u, s') := next (fst g) in (u, (s', S (snd g)));
     next_gamma := fun shape scale g =>
                     let '(u, s') := next (fst g) in
                     (Qred (shape * scale * (0.5 + u)), (s', S (snd g))) |}.

Definition transition (intercept : Q) (coefficients : dict.t Q)
    : utils.TransitionDefinition :=
  {| utils.intercept := intercept; utils.coefficients := coefficients |}.

Definition seven_transitions : dict.t utils.TransitionDefinition :=
  [ ("ltc_onset", transition (-1) [("age", 0.01)]);
    ("ltc_progression", transition (-1) []);
    ("disability_onset", transition (-2) [("ltc_level", 0.3)]);
    ("disability_recovery", transition 100 []);
    ("hospitalisation", transition 0 []);
    ("care_home", transition (-1) []);
    ("mortality", transition (-3) [("age", 0.02)]) ].

Definition bundle_with (transitions : dict.t utils.TransitionDefinition)
    : utils.ConfigBundle :=
  {| utils.baseline :=
       {| utils.cohort_size := 3;
          utils.age_distribution := [];
          utils.sex_distribution := [];
          utils.regions := [];
          utils.imd_distribution := [];
          utils.urban_rural_split := [];
          utils.service_indices := [];
          utils.environment_indices := [];
          utils.care_capacity := [] |};
     utils.transitions_cfg :=
       {| utils.time_step_months := 1;
          utils.transitions := transitions;
          utils.length_of_stay := [] |};
     utils.policies_cfg :=
       {| utils.policies :=
            [ {| utils.id := "falls_prevention";
                 utils.name := "Falls prevention";
                 utils.description := "";
                 utils.cost_per_capita := 50;
                 utils.effects := [("disability_onset", -0.2)];
                 utils.lag_months := 0;
                 utils.diminishing_return := 0.2 |} ];
          utils.round_budget_gbp := 1000000 |};
     utils.costs :=
       {| utils.unit_costs := [("hospital_bed_day", 400); ("care_home_day", 100)];
          utils.qaly_weights := [] |};
     utils.scoring :=
       {| utils.weights :=
            [("health", 0.4); ("cost", 0.2); ("capacity", 0.2); ("equity", 0.2)];
          utils.equity_outcomes := ["disability"];
          utils.normalisation := "zscore" |} |}.

Definition bundle : utils.ConfigBundle := bundle_with seven_transitions.

(* a bundle that lacks the mortality transition *)
Definition bundle_without_mortality : utils.ConfigBundle :=
  bundle_with (List.filter (fun kv => negb (String.eqb (fst kv) "mortality"))
                 seven_transitions).

Definition cohort : states.Cohort :=
  {| states.data :=
       [ ("age", [70; 80; 90]);
         ("imd_quintile", [1; 3; 5]);
         ("community_capacity", [0; 0; 0]);
         ("ltc_state", [0; 1; 2]);
         ("disability", [0; 1; 1]);
         ("heat_exposure", [0; 0; 0]);
         ("cold_exposure", [0; 0; 0]);
         ("hospitalised", [0; 0; 1]);
         ("care_home", [0; 0; 0]);
         ("alive", [1; 1; 1]);
         ("hospital_beds_per_1k", [3; 3; 3]);
         ("care_home_beds_per_1k", [5; 5; 5]) ];
     states.months_elapsed := 0 |}.

Definition industrial_action : list shocks.Shock :=
  match shocks.get_shock "industrial_action" with
  | Some shock => [shock]
  | None => []
  end.

Definition decisions : policies.Decisions :=
  [("falls_prevention", [("intensity", 0.8); ("coverage", 0.6)])].

(* the two teams of the package's scoring test *)
Definition table : scoring.DataFrame :=
  {| scoring.index := [0; 1]%nat;
     scoring.columns :=
       [ ("team", scoring.Object ["A"; "B"]);
         ("health_value", scoring.Float [10; 8]);
         ("cost_value", scoring.Float [100; 80]);
         ("capacity_value", scoring.Float [-50; -40]);
         ("equity_value", scoring.Float [-0.1; -0.05]) ] |}.

(* the same table without its equity column *)
Definition table_without_equity : scoring.DataFrame :=
  {| scoring.index := [0; 1]%nat;
     scoring.columns :=
       [ ("team", scoring.Object ["A"; "B"]);
         ("health_value", scoring.Float [10; 8]);
         ("cost_value", scoring.Float [100; 80]);
         ("capacity_value", scoring.Float [-50; -40]) ] |}.

(* weights with a dimension called total, and a table with its values *)
Definition scoring_with_total : utils.ScoringConfig :=
  {| utils.weights := [("health", 0.4); ("total", 0.6)];
     utils.equity_outcomes := [];
     utils.normalisation := "minmax" |}.

Definition table_with_total : scoring.DataFrame :=
  {| scoring.index := [0; 1]%nat;
     scoring.columns :=
       [ ("team", scoring.Object ["A"; "B"]);
         ("health_value", scoring.Float [1; 0]);
         ("total_value", scoring.Float [0; 1]) ] |}.

(* a table whose health column holds words *)
Definition table_of_words : scoring.DataFrame :=
  {| scoring.index := [0; 1]%nat;
     scoring.columns :=
       [ ("team", scoring.Object ["A"; "B"]);
         ("health_value", scoring.Object ["high"; "low"]) ] |}.

(* one round of two months on a heap that holds the example cohort *)
Definition run : engine.heap * result engine.Outputs :=
  engine.simulate_round numpy (Ok bundle) [cohort] 0%nat 2 (Some decisions)
    (Some industrial_action) (Some bundle) 456 None.

Definition heap_after : engine.heap := fst run.

Definition outputs : engine.Outputs :=
  match snd run with
  | Ok out => out
  | Raise _ => (0%nat, [], [], {| scoring.index := []; scoring.columns := [] |})
  end.

Definition advanced : engine.loc := fst (fst (fst outputs)).

End example.

Module example2.

(* the locals of [simulate_round] on the example cohort as the first month
   finds them, with the month counter of the one decision at 0 *)
Definition start : engine.Locals example.numpy :=
  {| engine.gen := default_rng example.numpy 456;
     engine.cohort := example.cohort;
     engine.features :=
       match engine._build_features example.cohort with
       | Ok features => features
       | Raise _ => []
       end;
     engine.alive := [true; true; true];
     engine.ltc_state := [0; 1; 2]%Z;
     engine.disability := [false; true; true];
     engine.hospitalised := [false; false; true];
     engine.care_home := [false; false; false];
     engine.hospital_los_remaining := zeros 3;
     engine.policy_counters := [("falls_prevention", 0%Z)];
     engine.timestep_results := [];
     engine.monthly_records := [] |}.

(* the locals after the first month of the example round *)
Definition after_month : engine.Locals example.numpy :=
  match engine.simulate_month example.numpy 2 (Some example.decisions) example.bundle
          (shocks.active_shock_modifiers example.industrial_action) 7 0 start with
  | Ok st => st
  | Raise _ => start
  end.

End example2.

Module example3.

(* a bundle under which new long-term conditions and hospital admissions
   are likely, and a cohort of four to run it on *)
Definition busy_transitions : dict.t utils.TransitionDefinition :=
  [ ("ltc_onset", example.transition 100 []);
    ("ltc_progression", example.transition (-1) []);
    ("disability_onset", example.transition (-2) [("ltc_level", 0.3)]);
    ("disability_recovery", example.transition (-1) []);
    ("hospitalisation", example.transition 100 []);
    ("care_home", example.transition (-1) []);
    ("mortality", example.transition (-3) [("age", 0.02)]) ].

Definition bundle : utils.ConfigBundle := example.bundle_with busy_transitions.

Definition cohort : states.Cohort :=
  {| states.data :=
       [ ("age", [70; 80; 90; 60]);
         ("imd_quintile", [1; 3; 5; 2]);
         ("community_capacity", [0; 0; 0; 0]);
         ("ltc_state", [0; 1; 0; 0]);
         ("disability", [0; 1; 1; 0]);
         ("heat_exposure", [0; 0; 0; 0]);
         ("cold_exposure", [0; 0; 0; 0]);
         ("hospitalised", [0; 0; 1; 0]);
         ("care_home", [0; 0; 0; 0]);
         ("alive", [1; 1; 1; 1]);
         ("hospital_beds_per_1k", [3; 3; 3; 3]);
         ("care_home_beds_per_1k", [5; 5; 5; 5]) ];
     states.months_elapsed := 0 |}.

(* one round of two months: three onsets and three admissions in the
   first month, one admission in the second *)
Definition run : engine.heap * result engine.Outputs :=
  engine.simulate_round example.numpy (Ok bundle) [cohort] 0%nat 2
    (Some example.decisions) None (Some bundle) 456 None.

Definition heap_after : engine.heap := fst run.

Definition outputs : engine.Outputs :=
  match snd run with
  | Ok out => out
  | Raise _ => (0%nat, [], [], {| scoring.index := []; scoring.columns := [] |})
  end.

Definition advanced : engine.loc := fst (fst (fst outputs)).

Definition timesteps : list states.SimulationTimestepResult := snd (fst (fst outputs)).

End example3.

(** * Proofs *)

(** ** numpy kernels *)

Lemma ltb_true (a b : Q) : ltb a b = true <-> a < b.
Proof.
  unfold ltb. rewrite negb_true_iff. split; intros H.
  - apply Qnot_le_lt. intros Hle. apply Qle_bool_iff in Hle. congruence.
  - destruct (Qle_bool b a) eqn:E; [|reflexivity].
    apply Qle_bool_iff in E. lra.
Qed.

Lemma ltb_false (a b : Q) : ltb a b = false <-> b <= a.
Proof.
  unfold ltb. rewrite negb_false_iff. apply Qle_bool_iff.
Qed.

Lemma leb_true (a b : Q) : leb a b = true <-> a <= b.
Proof. apply Qle_bool_iff. Qed.

Lemma leb_false (a b : Q) : leb a b = false <-> b < a.
Proof.
  unfold leb. split; intros H.
  - apply Qnot_le_lt. intros Hle. apply Qle_bool_iff in Hle. congruence.
  - destruct (Qle_bool a b) eqn:E; [|reflexivity].
    apply Qle_bool_iff in E. lra.
Qed.

Lemma maximum_cases (a b : Q) :
  (a < b /\ maximum a b = b) \/ (b <= a /\ maximum a b = a).
Proof.
  unfold maximum. destruct (ltb a b) eqn:E.
  - left. split; [now apply ltb_true|reflexivity].
  - right. split; [now apply ltb_false|reflexivity].
Qed.

Lemma minimum_cases (a b : Q) :
  (b < a /\ minimum a b = b) \/ (a <= b /\ minimum a b = a).
Proof.
  unfold minimum. destruct (ltb b a) eqn:E.
  - left. split; [now apply ltb_true|reflexivity].
  - right. split; [now apply ltb_false|reflexivity].
Qed.

Lemma clip_bounds (x lo hi : Q) : lo <= hi -> lo <= clip x lo hi <= hi.
Proof.
  intros H. unfold clip.
  destruct (maximum_cases x lo) as [[? ->]|[? ->]];
    destruct (minimum_cases lo hi) as [[? E]|[? E]];
    destruct (minimum_cases x hi) as [[? E']|[? E']]; rewrite ?E, ?E'; lra.
Qed.

Lemma clip_id (x lo hi : Q) : lo <= x <= hi -> clip x lo hi = x.
Proof.
  intros [H1 H2]. unfold clip.
  destruct (maximum_cases x lo) as [[? ->]|[? ->]].
  - lra.
  - destruct (minimum_cases x hi) as [[? E]|[? E]]; [lra|exact E].
Qed.

Lemma nth_zip_with {A B C : Type} (f : A -> B -> C) (a : list A) (b : list B)
    (i : nat) (da : A) (db : B) (dc : C) :
  (i < length a)%nat -> (i < length b)%nat ->
  nth i (zip_with f a b) dc = f (nth i a da) (nth i b db).
Proof.
  revert b i. induction a as [|x a IH]; intros [|y b] [|i] Ha Hb; simpl in *; try lia.
  - reflexivity.
  - apply IH; lia.
Qed.

Lemma nth_map' {A B : Type} (f : A -> B) (l : list A) (i : nat) (d : A) (d' : B) :
  (i < length l)%nat -> nth i (map f l) d' = f (nth i l d).
Proof.
  revert i. induction l as [|x l IH]; intros [|i] H; simpl in *; try lia.
  - reflexivity.
  - apply IH. lia.
Qed.

Lemma zip_with_Finite (f : float64 -> float64 -> float64) (g : Q -> Q -> Q)
    (a b : ndarray) :
  Forall2 (fun x y => f (Finite x) (Finite y) = Finite (g x y)) a b ->
  zip_with f (map Finite a) (map Finite b) = map Finite (zip_with g a b).
Proof.
  induction 1 as [|x y a b H _ IH]; simpl; [reflexivity|].
  rewrite H, IH. reflexivity.
Qed.

Lemma accumulate_ok (n : nat) (ps : list ndarray) (t : ndarray) :
  Forall (fun v => length v = n) ps -> length t = n ->
  foldM iadd (map float_array ps) (float_array t)
  = Ok (float_array (fold_left (zip_with Qplus) ps t)).
Proof.
  intros Hps. revert t. unfold foldM.
  induction Hps as [|v ps Hv Hps IH]; intros t Ht; simpl.
  - reflexivity.
  - unfold inplace. rewrite !length_map, Hv, Ht, Nat.eqb_refl. cbn [bind].
    rewrite (zip_with_Finite fadd Qplus).
    + apply (IH (zip_with Qplus t v)). rewrite length_zip_with. lia.
    + apply Forall2_true; [reflexivity|lia].
Qed.

Lemma accumulate_length (n : nat) (ps : list ndarray) (t : ndarray) :
  Forall (fun v => length v = n) ps -> length t = n ->
  length (fold_left (zip_with Qplus) ps t) = n.
Proof.
  intros Hps. revert t. induction Hps as [|v ps Hv Hps IH]; intros t Ht; simpl.
  - exact Ht.
  - apply IH. rewrite length_zip_with. lia.
Qed.

Lemma accumulate_nth (n : nat) (ps : list ndarray) (t : ndarray) (i : nat) :
  Forall (fun v => length v = n) ps -> length t = n -> (i < n)%nat ->
  nth i (fold_left (zip_with Qplus) ps t) 0 == nth i t 0 + column_sum i ps.
Proof.
  intros Hps. revert t. induction Hps as [|v ps Hv Hps IH]; intros t Ht Hi; simpl.
  - lra.
  - rewrite IH by (rewrite ?length_zip_with; lia).
    rewrite (nth_zip_with Qplus t v i 0 0 0) by lia. lra.
Qed.

Lemma fold_maximum_ge (l : ndarray) (x : Q) :
  x <= fold_left maximum l x /\ Forall (fun e => e <= fold_left maximum l x) l.
Proof.
  revert x. induction l as [|y l IH]; intros x; simpl.
  - split; [lra|constructor].
  - destruct (IH (maximum x y)) as [H1 H2].
    destruct (maximum_cases x y) as [[? E]|[? E]]; rewrite E in *.
    + split; [lra|]. constructor; [lra|exact H2].
    + split; [lra|]. constructor; [lra|exact H2].
Qed.

Lemma fold_maximum_in (l : ndarray) (x : Q) : In (fold_left maximum l x) (x :: l).
Proof.
  revert x. induction l as [|y l IH]; intros x; simpl.
  - now left.
  - destruct (IH (maximum x y)) as [H|H].
    + destruct (maximum_cases x y) as [[? E]|[? E]]; rewrite E in *; simpl; auto.
    + right. right. exact H.
Qed.

Lemma mapM_ok {A B : Type} (f : A -> result B) (g : A -> B) (l : list A) :
  Forall (fun x => f x = Ok (g x)) l -> mapM f l = Ok (map g l).
Proof.
  induction 1 as [|x l Hx Hl IH]; simpl.
  - reflexivity.
  - rewrite Hx, IH. reflexivity.
Qed.

Lemma broadcast2_same {A B C : Type} (f : A -> B -> C) (a : list A) (b : list B) :
  length a = length b -> broadcast2 f a b = Ok (zip_with f a b).
Proof. intros H. unfold broadcast2. rewrite H, Nat.eqb_refl. reflexivity. Qed.

Lemma Forall2_right {A B : Type} (P : A -> B -> Prop) (G : B -> Prop)
    (a : list A) (b : list B) :
  length a = length b -> Forall G b -> (forall x y, G y -> P x y) -> Forall2 P a b.
Proof.
  intros Hlen Hb HP. revert a Hlen.
  induction Hb as [|y b Hy Hb IH]; intros [|x a] Hlen; simpl in Hlen; try lia.
  - constructor.
  - constructor; [now apply HP|]. apply IH. lia.
Qed.

Lemma fclip_Finite (x : Q) :
  fclip (Finite x) (Finite 0.0) (Finite 1.0) = Finite (clip x 0.0 1.0).
Proof.
  unfold fclip, clip, fmaximum, maximum, flt.
  destruct (ltb x 0.0); unfold fminimum, minimum, flt;
    match goal with |- context [ltb ?a ?b] => destruct (ltb a b) end; reflexivity.
Qed.

Lemma fexcess_Finite (t : Q) :
  fmaximum (fsub (Finite t) (Finite 1.0)) (Finite 0.0) = Finite (maximum (t - 1.0) 0.0).
Proof.
  unfold fsub, fneg, fadd, fmaximum, maximum, flt, Qminus.
  match goal with |- context [ltb ?a ?b] => destruct (ltb a b) end; reflexivity.
Qed.

Lemma fdiv_Finite (x y : Q) : 0 < y -> fdiv (Finite x) (Finite y) = Finite (x / y).
Proof.
  intros Hy. unfold fdiv. destruct (Qeq_bool y 0) eqn:E; [|reflexivity].
  apply Qeq_bool_iff in E. lra.
Qed.

Lemma fold_fmaximum_Finite (l : ndarray) (x : Q) :
  fold_left fmaximum (map Finite l) (Finite x) = Finite (fold_left maximum l x).
Proof.
  revert x. induction l as [|y l IH]; intros x; simpl; [reflexivity|].
  rewrite <- IH. f_equal. unfold fmaximum, maximum, flt. destruct (ltb x y); reflexivity.
Qed.

Lemma fle_Finite (x y : Q) : fle (Finite x) (Finite y) = leb x y.
Proof. unfold fle, flt, ltb, leb. apply negb_involutive. Qed.

Lemma mapM_map {A B C : Type} (f : B -> result C) (h : A -> B) (l : list A) :
  mapM f (map h l) = mapM (fun x => f (h x)) l.
Proof. induction l as [|x l IH]; simpl; [reflexivity|]. now rewrite IH. Qed.

Lemma shrink_step (n : nat) (total arr : ndarray) :
  length total = n -> length arr = n -> Forall (fun t => 0 <= t) total ->
  (share <- broadcast2 fdiv (map Finite arr)
              (map (fun t => fadd t (Finite 0.000000000001)) (map Finite total)) ;;
   cut <- broadcast2 fmul
            (map (fun t => fmaximum (fsub t (Finite 1.0)) (Finite 0.0))
               (map Finite total))
            share ;;
   kept <- broadcast2 fsub (map Finite arr) cut ;;
   Ok (FloatArray (map (fun x => fclip x (Finite 0.0) (Finite 1.0)) kept)))
  = Ok (float_array (shrink total arr)).
Proof.
  intros Ht Ha Hpos.
  assert (E1 : map (fun t => fadd t (Finite 0.000000000001)) (map Finite total)
               = map Finite (map (fun t => t + 0.000000000001) total))
    by (rewrite !map_map; reflexivity).
  assert (E2 : map (fun t => fmaximum (fsub t (Finite 1.0)) (Finite 0.0))
                 (map Finite total)
               = map Finite (map (fun t => maximum (t - 1.0) 0.0) total)).
  { rewrite !map_map. apply map_ext. intros t. apply fexcess_Finite. }
  rewrite E1, E2.
  rewrite broadcast2_same by (rewrite !length_map; lia). cbn [bind].
  rewrite (zip_with_Finite fdiv Qdiv).
  2:{ apply (Forall2_right _ (fun y => 0 < y)).
      - rewrite length_map. lia.
      - apply List.Forall_map. eapply List.Forall_impl; [|exact Hpos].
        intros t H. simpl in H. lra.
      - intros x y Hy. now apply fdiv_Finite. }
  rewrite broadcast2_same by (rewrite !length_map, length_zip_with, length_map; lia).
  cbn [bind].
  rewrite (zip_with_Finite fmul Qmult)
    by (apply Forall2_true; [reflexivity|];
        rewrite length_map, length_zip_with, length_map; lia).
  rewrite broadcast2_same by (rewrite !length_map, !length_zip_with, !length_map; lia).
  cbn [bind].
  rewrite (zip_with_Finite fsub Qminus)
    by (apply Forall2_true; [reflexivity|];
        rewrite !length_zip_with, !length_map; lia).
  unfold float_array, shrink. rewrite !map_map. do 2 f_equal.
  apply map_ext. intros x. apply fclip_Finite.
Qed.

Lemma shrink_nth (n : nat) (total arr : ndarray) (i : nat) :
  length total = n -> length arr = n -> (i < n)%nat ->
  nth i (shrink total arr) 0 =
  clip (nth i arr 0 - maximum (nth i total 0 - 1.0) 0.0
                      * (nth i arr 0 / (nth i total 0 + 0.000000000001))) 0.0 1.0.
Proof.
  intros Ht Ha Hi. unfold shrink.
  rewrite (nth_map' _ _ _ 0) by (rewrite !length_zip_with, !length_map; lia).
  f_equal.
  rewrite (nth_zip_with Qminus _ _ i 0 0 0)
    by (rewrite ?length_zip_with, ?length_map; lia).
  f_equal.
  rewrite (nth_zip_with Qmult _ _ i 0 0 0)
    by (rewrite ?length_zip_with, ?length_map; lia).
  rewrite (nth_map' _ _ _ 0) by lia.
  f_equal.
  rewrite (nth_zip_with Qdiv _ _ i 0 0 0)
    by (rewrite ?length_zip_with, ?length_map; lia).
  rewrite (nth_map' _ _ _ 0) by lia.
  reflexivity.
Qed.

Lemma maximum_comp (a a' b b' : Q) :
  a == a' -> b == b' -> maximum a b == maximum a' b'.
Proof.
  intros Ha Hb.
  destruct (maximum_cases a b) as [[? ->]|[? ->]];
    destruct (maximum_cases a' b') as [[? ->]|[? ->]]; lra.
Qed.

Lemma kept_comp (a t t' : Q) : t == t' -> kept a t == kept a t'.
Proof.
  intros Ht. unfold kept.
  rewrite (maximum_comp (t - 1.0) (t' - 1.0) 0.0 0.0) by lra.
  rewrite Ht. reflexivity.
Qed.

Lemma kept_factor (a t : Q) : 0 <= t -> kept a t == keep_factor t * a.
Proof. intros Ht. unfold kept, keep_factor. field. lra. Qed.

Lemma keep_factor_bounds (t : Q) :
  0 <= t ->
  0 <= keep_factor t <= 1 /\ keep_factor t * t <= 1 + 0.000000000001.
Proof.
  intros Ht. unfold keep_factor, Qdiv.
  set (d := / (t + 0.000000000001)).
  assert (Hd : d * (t + 0.000000000001) == 1) by (unfold d; field; lra).
  assert (Hd0 : 0 < d) by (unfold d; apply Qinv_lt_0_compat; lra).
  destruct (maximum_cases (t - 1.0) 0.0) as [[Hlt ->]|[Hge ->]].
  - split; lra.
  - assert (H1 : (t - 1.0) * d <= (t + 0.000000000001) * d)
      by (apply Qmult_le_compat_r; lra).
    assert (H2 : 0 <= (t - 1.0) * d) by (apply Qmult_le_0_compat; lra).
    split; [lra|].
    assert (Hdt : d * t == 1 - d * 0.000000000001) by lra.
    assert (Hx : (1 - (t - 1.0) * d) * t
                 == 1 + (t - 1.0) * (d * 0.000000000001)).
    { transitivity (t - (t - 1.0) * (d * t)); [ring|]. rewrite Hdt. ring. }
    rewrite Hx.
    assert (H3 : (t - 1.0) * (d * 0.000000000001)
                 <= (t + 0.000000000001) * (d * 0.000000000001)).
    { apply Qmult_le_compat_r; [lra|]. apply Qmult_le_0_compat; lra. }
    assert (H4 : (t + 0.000000000001) * (d * 0.000000000001) == 0.000000000001).
    { transitivity (d * (t + 0.000000000001) * 0.000000000001); [ring|].
      rewrite Hd. ring. }
    lra.
Qed.

Lemma column_sum_nonneg (n i : nat) (ps : list ndarray) :
  Forall (probability_vector n) ps -> 0 <= column_sum i ps.
Proof.
  induction 1 as [|v ps [Hlen Hv] Hps IH]; simpl; [lra|].
  assert (0 <= nth i v 0); [|lra].
  destruct (Nat.lt_ge_cases i (length v)) as [Hi|Hi].
  - rewrite List.Forall_forall in Hv. apply (Hv (nth i v 0)). apply nth_In. exact Hi.
  - rewrite nth_overflow by exact Hi. lra.
Qed.

Lemma column_sum_member (n i : nat) (ps : list ndarray) (arr : ndarray) :
  Forall (probability_vector n) ps -> In arr ps ->
  0 <= nth i arr 0 <= column_sum i ps.
Proof.
  induction 1 as [|v ps [Hlen Hv] Hps IH]; simpl; [tauto|].
  assert (Hnn : forall w, Forall (fun p => 0 <= p <= 1) w -> 0 <= nth i w 0).
  { intros w Hw. destruct (Nat.lt_ge_cases i (length w)) as [Hi|Hi].
    - rewrite List.Forall_forall in Hw. apply (Hw (nth i w 0)). now apply nth_In.
    - rewrite nth_overflow by exact Hi. lra. }
  pose proof (column_sum_nonneg n i ps Hps) as Hs.
  intros [->|Hin].
  - specialize (Hnn arr Hv). lra.
  - specialize (IH Hin). specialize (Hnn v Hv). lra.
Qed.

Lemma column_sum_scaled (i : nat) (c : Q) (ps adjusted : list ndarray) :
  Forall2 (fun arr adj => nth i adj 0 == c * nth i arr 0) ps adjusted ->
  column_sum i adjusted == c * column_sum i ps.
Proof.
  induction 1 as [|arr adj ps adjusted H _ IH]; simpl; [ring|].
  rewrite H, IH. ring.
Qed.

Lemma Forall2_map_diag {A B : Type} (P : A -> B -> Prop) (f : A -> B) (l : list A) :
  (forall x, In x l -> P x (f x)) -> Forall2 P l (map f l).
Proof.
  induction l as [|x l IH]; intros H; simpl; constructor.
  - apply H. now left.
  - apply IH. intros y Hy. apply H. now right.
Qed.

Lemma zero_map_nth {A : Type} (a : list A) (i : nat) :
  nth i (map (fun _ => 0) a) 0 == 0.
Proof.
  revert i. induction a as [|x a IH]; intros [|i]; simpl; try reflexivity. apply IH.
Qed.

(** C5 (as amended): on a non-empty list of non-empty float64 vectors of
    probabilities of one length, [ensure_competing_risk] returns its
    argument when no individual's sum exceeds 1 by more than 1e-8, and
    otherwise returns, vector by vector, each entry less its share of the
    excess, so that every individual's sum is at most 1 + 1e-8. *)
Theorem ensure_competing_risk_spec (n : nat) (ps : list ndarray) :
  ps <> [] -> (0 < n)%nat -> Forall (probability_vector n) ps ->
  ((forall i, (i < n)%nat -> column_sum i ps <= 1 + 0.00000001) ->
   hazards.ensure_competing_risk (map float_array ps) = Ok (map float_array ps))
  /\
  (~ (forall i, (i < n)%nat -> column_sum i ps <= 1 + 0.00000001) ->
   exists adjusted,
     hazards.ensure_competing_risk (map float_array ps)
     = Ok (map float_array adjusted) /\
     Forall2 (fun arr adj =>
                length adj = n /\
                forall i, (i < n)%nat ->
                  nth i adj 0 == kept (nth i arr 0) (column_sum i ps))
             ps adjusted /\
     (forall i, (i < n)%nat -> column_sum i adjusted <= 1 + 0.00000001)).
Proof.
  intros Hne Hn Hps.
  assert (Hlen : Forall (fun v => length v = n) ps).
  { eapply List.Forall_impl; [|exact Hps]. intros v [H _]. exact H. }
  destruct ps as [|first rest]; [congruence|]. clear Hne.
  set (ps := first :: rest) in *.
  assert (Hfirst : length (map (fun _ => 0) first : ndarray) = n).
  { rewrite length_map. now inversion Hlen. }
  set (total := fold_left (zip_with Qplus) ps (map (fun _ => 0) first)).
  assert (Htot_len : length total = n) by (now apply accumulate_length).
  assert (Htot : forall i, (i < n)%nat -> nth i total 0 == column_sum i ps).
  { intros i Hi. unfold total.
    rewrite (accumulate_nth n) by assumption.
    rewrite zero_map_nth. lra. }
  assert (Htot_pos : Forall (fun t => 0 <= t) total).
  { apply (List.Forall_nth (fun t => 0 <= t) total). intros i d Hi.
    rewrite (nth_indep total d 0) by exact Hi.
    rewrite Htot by lia. apply (column_sum_nonneg n). exact Hps. }
  set (excess := map (fun t => maximum (t - 1.0) 0.0) total).
  assert (Hex_len : length excess = n) by (unfold excess; now rewrite length_map).
  assert (Hrun : hazards.ensure_competing_risk (map float_array ps) =
                 (worst <- np.max (map Finite excess) ;;
                  if fle worst (Finite 0.00000001) then Ok (map float_array ps)
                  else Ok (map float_array (map (shrink total) ps)))).
  { unfold hazards.ensure_competing_risk, ps. cbn [bind map].
    replace (zeros_like (float_array first))
      with (float_array (map (fun _ => 0) first))
      by (unfold float_array, zeros_like; now rewrite !map_map).
    pose proof (accumulate_ok n ps (map (fun _ => 0) first) Hlen Hfirst) as Hacc.
    unfold ps in Hacc. cbn [map] in Hacc. rewrite Hacc. fold ps. fold total.
    cbn [bind as_float float_array].
    replace (map (fun t => fmaximum (fsub t (Finite 1.0)) (Finite 0.0))
               (map Finite total))
      with (map Finite excess)
      by (unfold excess; rewrite !map_map; apply map_ext; intros t;
          symmetry; apply fexcess_Finite).
    destruct (np.max (map Finite excess)) as [worst|e]; [|reflexivity]. cbn [bind].
    destruct (fle worst (Finite 0.00000001)); [reflexivity|].
    change (float_array first :: map float_array rest) with (map float_array ps).
    rewrite mapM_map.
    rewrite (mapM_ok _ (fun arr => float_array (shrink total arr))).
    - now rewrite map_map.
    - rewrite List.Forall_forall. intros arr Hin.
      rewrite List.Forall_forall in Hlen. cbn [as_float float_array].
      replace (map (fun t => fmaximum (fsub t (Finite 1.0)) (Finite 0.0))
                 (map Finite total))
        with (map Finite excess)
        by (unfold excess; rewrite !map_map; apply map_ext; intros t;
            symmetry; apply fexcess_Finite).
      unfold excess.
      replace (map Finite (map (fun t => maximum (t - 1.0) 0.0) total))
        with (map (fun t => fmaximum (fsub t (Finite 1.0)) (Finite 0.0))
                (map Finite total))
        by (rewrite !map_map; apply map_ext; intros t; apply fexcess_Finite).
      apply (shrink_step n); [exact Htot_len|now apply Hlen|exact Htot_pos]. }
  destruct excess as [|e0 erest] eqn:Eex; [simpl in Hex_len; lia|].
  rewrite <- Eex in *.
  set (worst := fold_left maximum erest e0).
  assert (Hmax : np.max (map Finite excess) = Ok (Finite worst)).
  { rewrite Eex. cbn [map np.max]. now rewrite fold_fmaximum_Finite. }
  assert (Hworst_ge : forall i, (i < n)%nat -> nth i excess 0 <= worst).
  { intros i Hi. destruct (fold_maximum_ge erest e0) as [H0 Hr].
    fold worst in H0, Hr. rewrite Eex. destruct i as [|i]; simpl; [exact H0|].
    rewrite List.Forall_forall in Hr. apply Hr. apply nth_In.
    rewrite Eex in Hex_len. simpl in Hex_len. lia. }
  assert (Hworst_in : exists j, (j < n)%nat /\ worst = nth j excess 0).
  { pose proof (fold_maximum_in erest e0) as Hin. fold worst in Hin.
    rewrite <- Eex in Hin. apply (In_nth _ _ 0) in Hin.
    destruct Hin as [j [Hj Hj']]. exists j. split; [lia|now symmetry]. }
  assert (Hex_nth : forall i, (i < n)%nat ->
                      nth i excess 0 = maximum (nth i total 0 - 1.0) 0.0).
  { intros i Hi. unfold excess. now rewrite (nth_map' _ _ _ 0) by lia. }
  rewrite Hrun, Hmax. cbn [bind]. rewrite fle_Finite.
  split.
  - intros Hall. destruct Hworst_in as [j [Hj Hw]].
    assert (Hle : worst <= 0.00000001).
    { rewrite Hw, Hex_nth by exact Hj.
      specialize (Hall j Hj). specialize (Htot j Hj).
      destruct (maximum_cases (nth j total 0 - 1.0) 0.0) as [[? ->]|[? ->]]; lra. }
    apply leb_true in Hle. rewrite Hle. reflexivity.
  - intros Hnot.
    assert (Hgt : leb worst 0.00000001 = false).
    { destruct (leb worst 0.00000001) eqn:E; [|reflexivity].
      exfalso. apply Hnot. intros i Hi. apply leb_true in E.
      specialize (Hworst_ge i Hi). rewrite Hex_nth in Hworst_ge by exact Hi.
      specialize (Htot i Hi).
      destruct (maximum_cases (nth i total 0 - 1.0) 0.0) as [[? E']|[? E']];
        rewrite E' in Hworst_ge; lra. }
    rewrite Hgt.
    exists (map (shrink total) ps).
    assert (Hpoint : forall arr i, In arr ps -> (i < n)%nat ->
              nth i (shrink total arr) 0 == kept (nth i arr 0) (column_sum i ps)).
    { intros arr i Hin Hi.
      assert (Harr : length arr = n).
      { rewrite List.Forall_forall in Hlen. now apply Hlen. }
      rewrite (shrink_nth n) by assumption.
      fold (kept (nth i arr 0) (nth i total 0)).
      pose proof (column_sum_member n i ps arr Hps Hin) as [Ha Hat].
      pose proof (column_sum_nonneg n i ps Hps) as Hs.
      pose proof (Htot i Hi) as Ht.
      assert (Ht0 : 0 <= nth i total 0) by lra.
      pose proof (kept_factor (nth i arr 0) _ Ht0) as Hk.
      destruct (keep_factor_bounds _ Ht0) as [[Hc0 Hc1] _].
      assert (Hk0 : 0 <= keep_factor (nth i total 0) * nth i arr 0)
        by (apply Qmult_le_0_compat; lra).
      assert (Hk1 : keep_factor (nth i total 0) * nth i arr 0 <= 1 * 1).
      { apply Qmult_le_compat_nonneg; split; try lra.
        assert (Hp : Forall (probability_vector n) ps) by exact Hps.
        rewrite List.Forall_forall in Hp. destruct (Hp arr Hin) as [_ Hv].
        rewrite List.Forall_forall in Hv. apply (Hv (nth i arr 0)).
        apply nth_In. lia. }
      rewrite clip_id by lra.
      apply kept_comp. exact Ht. }
    split; [|split].
    + reflexivity.
    + apply Forall2_map_diag. intros arr Hin. split.
      * unfold shrink. rewrite length_map, !length_zip_with, !length_map.
        rewrite List.Forall_forall in Hlen.
        assert (length arr = n) by now apply Hlen.
        lia.
      * intros i Hi. now apply Hpoint.
    + intros i Hi.
      pose proof (column_sum_nonneg n i ps Hps) as Hs.
      pose proof (Htot i Hi) as Ht.
      assert (Ht0 : 0 <= nth i total 0) by lra.
      rewrite (column_sum_scaled i (keep_factor (nth i total 0)) ps).
      * destruct (keep_factor_bounds _ Ht0) as [_ Hb]. rewrite <- Ht. lra.
      * apply Forall2_map_diag. intros arr Hin.
        rewrite (Hpoint arr i Hin Hi).
        rewrite <- (kept_comp _ _ _ Ht).
        apply kept_factor. exact Ht0.
Qed.

(** C5 (the claim as stated fails): the empty list and a list of
    zero-length vectors satisfy the claim's premise, no individual's sum
    exceeds the tolerance, yet the call raises instead of returning its
    argument; and on two probability vectors of one length of which the
    first holds integers, the call raises where the claim has it return
    the adjusted vectors. *)
Lemma ensure_competing_risk_raises :
  (Forall (probability_vector 0) [] /\
   (forall i, (i < 0)%nat -> column_sum i [] <= 1 + 0.00000001) /\
   hazards.ensure_competing_risk (map float_array []) = Raise IndexError)
  /\
  (Forall (probability_vector 0) [[]; []] /\
   (forall i, (i < 0)%nat -> column_sum i [[]; []] <= 1 + 0.00000001) /\
   hazards.ensure_competing_risk (map float_array [[]; []]) = Raise ValueError)
  /\
  (Forall (probability_vector 2) [[1; 0]; [0.6; 0.2]] /\
   as_float (IntArray [1; 0]%Z) = map Finite [1; 0] /\
   hazards.ensure_competing_risk [IntArray [1; 0]%Z; float_array [0.6; 0.2]]
   = Raise TypeError).
Proof.
  split; [|split]; (split; [|split]).
  - constructor.
  - intros i Hi. lia.
  - reflexivity.
  - repeat constructor.
  - intros i Hi. lia.
  - reflexivity.
  - repeat constructor; simpl; lra.
  - reflexivity.
  - reflexivity.
Qed.

Lemma ensure_competing_risk_spec_witness :
  exists adjusted,
    hazards.ensure_competing_risk (map float_array [[0.5; 0.7]; [0.6; 0.2]])
    = Ok (map float_array adjusted) /\
    (forall i, (i < 2)%nat -> column_sum i adjusted <= 1 + 0.00000001).
Proof.
  destruct (ensure_competing_risk_spec 2 [[0.5; 0.7]; [0.6; 0.2]]) as [_ H].
  - discriminate.
  - lia.
  - repeat constructor; simpl; lra.
  - destruct H as [adjusted [Hrun [_ Hsum]]].
    + intros Hall. assert (H0 := Hall 0%nat ltac:(lia)). simpl in H0. lra.
    + exists adjusted. split; assumption.
Defined.

(** ** capacity.py *)

Lemma sum_from (l : ndarray) (x : Q) :
  fold_left Qplus l x == x + fold_left Qplus l 0.
Proof.
  revert x. induction l as [|y l IH]; intros x; simpl.
  - lra.
  - rewrite IH. rewrite (IH (0 + y)). lra.
Qed.

Lemma sum_cons (x : Q) (l : ndarray) : sum (x :: l) == x + sum l.
Proof. unfold sum. simpl. rewrite sum_from. lra. Qed.

Lemma sum_bool_astype (mask : list bool) :
  sum (bool_astype mask) == inject_Z (Z.of_nat (count mask)).
Proof.
  induction mask as [|b mask IH].
  - reflexivity.
  - change (bool_astype (b :: mask)) with (of_bool b :: bool_astype mask).
    rewrite sum_cons, IH. cbn [count].
    rewrite Nat2Z.inj_add, inject_Z_plus. destruct b; unfold of_bool;
      change (inject_Z (Z.of_nat 1)) with 1; change (inject_Z (Z.of_nat 0)) with 0; lra.
Qed.

Lemma mean_bool_astype (flags : ndarray) :
  mean (bool_astype (astype_bool flags)) == fraction_occupied flags.
Proof.
  unfold mean, fraction_occupied. rewrite sum_bool_astype.
  unfold bool_astype, astype_bool. rewrite !length_map. reflexivity.
Qed.

(** C3 (as amended): [capacity_feedback] takes each pressure as
    max(0, occupancy - 1) and returns the base length of stay times
    (1 + 0.3 x hospital pressure) x (1 + the capacity_hospital modifier),
    the mortality multiplier 1 + 0.2 x hospital pressure, which no modifier
    scales, and the disability persistence (1 + 0.15 x care pressure)
    x (1 + the capacity_community modifier). *)
Theorem capacity_feedback_spec (cohort : states.Cohort) (base_length_of_stay : Q)
    (modifiers : dict.t Q) (hospitalised care_home hospital_beds care_beds : ndarray) :
  dict.get (states.data cohort) "hospitalised" = Some hospitalised ->
  dict.get (states.data cohort) "care_home" = Some care_home ->
  dict.get (states.data cohort) "hospital_beds_per_1k" = Some hospital_beds ->
  dict.get (states.data cohort) "care_home_beds_per_1k" = Some care_beds ->
  let hospital_pressure := pressure (occupancy hospitalised hospital_beds) in
  let care_pressure := pressure (occupancy care_home care_beds) in
  exists length_of_stay mortality_multiplier disability_persistence,
    capacity.capacity_feedback cohort base_length_of_stay (Some modifiers)
    = Ok [ ("length_of_stay", length_of_stay);
           ("mortality_multiplier", mortality_multiplier);
           ("disability_persistence", disability_persistence) ] /\
    length_of_stay ==
      base_length_of_stay * (1 + 0.3 * hospital_pressure)
      * (1 + dict.get_or modifiers "capacity_hospital" 0.0) /\
    mortality_multiplier == 1 + 0.2 * hospital_pressure /\
    disability_persistence ==
      (1 + 0.15 * care_pressure)
      * (1 + dict.get_or modifiers "capacity_community" 0.0).
Proof.
  intros Hh Hc Hhb Hcb hospital_pressure care_pressure.
  unfold capacity.capacity_feedback, dict.getitem.
  rewrite Hh, Hc, Hhb, Hcb. cbn [bind policies.items_of].
  eexists _, _, _. split; [reflexivity|].
  assert (Ehp : maximum 0.0
                  (mean (bool_astype (astype_bool hospitalised)) * 1000
                   / maximum (mean hospital_beds) 0.1 - 1.0)
                == hospital_pressure).
  { unfold hospital_pressure, pressure, occupancy.
    apply maximum_comp; [reflexivity|]. rewrite mean_bool_astype. reflexivity. }
  assert (Ecp : maximum 0.0
                  (mean (bool_astype (astype_bool care_home)) * 1000
                   / maximum (mean care_beds) 0.1 - 1.0)
                == care_pressure).
  { unfold care_pressure, pressure, occupancy.
    apply maximum_comp; [reflexivity|]. rewrite mean_bool_astype. reflexivity. }
  rewrite Ehp, Ecp. repeat split; ring.
Qed.

Lemma capacity_feedback_spec_witness :
  exists length_of_stay mortality_multiplier disability_persistence,
    capacity.capacity_feedback example.cohort 7
      (Some [("capacity_hospital", -0.2); ("capacity_community", -0.15)])
    = Ok [ ("length_of_stay", length_of_stay);
           ("mortality_multiplier", mortality_multiplier);
           ("disability_persistence", disability_persistence) ] /\
    mortality_multiplier == 1 + 0.2 * pressure (occupancy [0; 0; 1] [3; 3; 3]).
Proof.
  destruct (capacity_feedback_spec example.cohort 7
              [("capacity_hospital", -0.2); ("capacity_community", -0.15)]
              [0; 0; 1] [0; 0; 0] [3; 3; 3] [5; 5; 5])
    as [los [mort [dis [Hrun [_ [Hmort _]]]]]]; try reflexivity.
  exists los, mort, dis. split; assumption.
Defined.

(** C3 (the claim as stated fails): with the industrial-action modifiers
    supplied, -0.2 on hospital and -0.15 on community capacity, the
    mortality multiplier returned for the example cohort is the unscaled
    1 + 0.2 x pressure = 1036/45, not that value times (1 + modifier) for
    either modifier. *)
Lemma capacity_feedback_mortality_not_scaled :
  exists out mortality_multiplier,
    capacity.capacity_feedback example.cohort 7
      (Some [("capacity_hospital", -0.2); ("capacity_community", -0.15)])
    = Ok out /\
    dict.get out "mortality_multiplier" = Some mortality_multiplier /\
    mortality_multiplier == 1036 # 45 /\
    ~ mortality_multiplier == (1036 # 45) * (1 + -0.2) /\
    ~ mortality_multiplier == (1036 # 45) * (1 + -0.15).
Proof.
  eexists _, _. split; [vm_compute; reflexivity|].
  split; [reflexivity|].
  split; [vm_compute; reflexivity|].
  split; intros H; vm_compute in H; discriminate.
Qed.

(** ** Dictionaries *)

Lemma get_set {V : Type} (d : dict.t V) (k k' : string) (v : V) :
  dict.get (dict.set d k v) k' = if String.eqb k k' then Some v else dict.get d k'.
Proof.
  induction d as [|[k0 v0] d IH]; simpl.
  - reflexivity.
  - destruct (String.eqb k0 k) eqn:E0; simpl.
    + apply String.eqb_eq in E0. subst k0.
      destruct (String.eqb k k'); reflexivity.
    + destruct (String.eqb k0 k') eqn:E1.
      * apply String.eqb_eq in E1. subst k0.
        rewrite String.eqb_sym, E0. reflexivity.
      * exact IH.
Qed.

Lemma get_set_eq {V : Type} (d : dict.t V) (k : string) (v : V) :
  dict.get (dict.set d k v) k = Some v.
Proof. rewrite get_set, String.eqb_refl. reflexivity. Qed.

Lemma get_set_ne {V : Type} (d : dict.t V) (k k' : string) (v : V) :
  k <> k' -> dict.get (dict.set d k v) k' = dict.get d k'.
Proof.
  intros H. rewrite get_set. apply String.eqb_neq in H. rewrite H. reflexivity.
Qed.

Lemma get_update_none {V : Type} (items d : dict.t V) (k : string) :
  dict.get (dict.update d items) k = None <->
  dict.get d k = None /\ existsb (fun kv => String.eqb (fst kv) k) items = false.
Proof.
  unfold dict.update. revert d. induction items as [|[k0 v0] items IH]; intros d; simpl.
  - tauto.
  - rewrite IH, get_set. simpl.
    destruct (String.eqb k0 k); simpl; intuition congruence.
Qed.

Lemma existsb_map_fst {V : Type} (f : V -> string) (l : list V) (k : string) :
  existsb (fun kv => String.eqb (fst kv) k) (map (fun p => (f p, p)) l)
  = existsb (fun p => String.eqb (f p) k) l.
Proof.
  induction l as [|p l IH]; simpl; [reflexivity|]. now rewrite IH.
Qed.

Lemma catalogue_lookup (policies_cfg : utils.PoliciesConfig) (policy_id : string) :
  in_catalogue policies_cfg policy_id = false ->
  dict.get (dict.of_items (map (fun p => (utils.id p, p)) (utils.policies policies_cfg)))
    policy_id = None.
Proof.
  intros H. unfold dict.of_items. apply get_update_none. split; [reflexivity|].
  rewrite existsb_map_fst. exact H.
Qed.

(** C4 (as amended): a decision whose policy id is absent from the
    catalogue raises nothing.  [build_active_policies] and
    [calculate_policy_cost] return normally on every decision mapping, no
    absent id appears among the active policies, and both return exactly
    what they return on the mapping cut down to the catalogue's ids. *)
Theorem unknown_policy_ids_are_skipped (policies_cfg : utils.PoliciesConfig)
    (decisions : option policies.Decisions) (months_elapsed : option (dict.t Z))
    (cohort_size : Z) :
  (exists active,
     policies.build_active_policies policies_cfg decisions months_elapsed = Ok active /\
     forall policy_id,
       in_catalogue policies_cfg policy_id = false ->
       dict.get active policy_id = None) /\
  (exists cost,
     policies.calculate_policy_cost policies_cfg decisions cohort_size = Ok cost) /\
  policies.build_active_policies policies_cfg decisions months_elapsed
  = policies.build_active_policies policies_cfg
      (known_only policies_cfg decisions) months_elapsed /\
  policies.calculate_policy_cost policies_cfg decisions cohort_size
  = policies.calculate_policy_cost policies_cfg
      (known_only policies_cfg decisions) cohort_size.
Proof.
  split; [|split; [|split]].
  - unfold policies.build_active_policies.
    destruct (negb (policies.truthy decisions)).
    + exists []. split; [reflexivity|]. intros; reflexivity.
    + eexists. split; [reflexivity|]. intros policy_id Habsent.
      generalize (policies.items_of decisions). intros items.
      assert (Hgen : forall (acc : dict.t policies.ActivePolicy),
                dict.get acc policy_id = None ->
                dict.get
                  (fold_left
                     (fun active pd =>
                        let '(policy_id, detail) := pd in
                        match
                          dict.get
                            (dict.of_items
                               (map (fun p => (utils.id p, p))
                                  (utils.policies policies_cfg))) policy_id
                        with
                        | Some policy =>
                            dict.set active policy_id
                              {| policies.policy := policy;
                                 policies.intensity :=
                                   dict.get_or detail "intensity" 1.0;
                                 policies.months_active :=
                                   if policies.truthy months_elapsed
                                   then dict.get_or
                                          (policies.items_of months_elapsed)
                                          policy_id 0%Z
                                   else 0%Z |}
                        | None => active
                        end) items acc) policy_id = None).
      { induction items as [|[id0 detail] items IH]; intros acc Hacc; simpl.
        - exact Hacc.
        - apply IH.
          destruct (dict.get _ id0) as [policy|] eqn:E; [|exact Hacc].
          rewrite get_set_ne; [exact Hacc|].
          intros ->. rewrite (catalogue_lookup _ _ Habsent) in E. discriminate. }
      apply Hgen. reflexivity.
  - unfold policies.calculate_policy_cost.
    destruct (negb (policies.truthy decisions)); eexists; reflexivity.
  - unfold policies.build_active_policies.
    destruct decisions as [items|]; [|reflexivity].
    unfold known_only, option_map, policies.items_of. cbv zeta.
    match goal with
    | |- context [fold_left ?f items ?a] =>
        assert (H : forall acc,
                  fold_left f items acc
                  = fold_left f
                      (List.filter (fun pd => in_catalogue policies_cfg (fst pd)) items)
                      acc)
    end.
    { induction items as [|[id0 d] items IH]; intros acc; simpl; [reflexivity|].
      destruct (in_catalogue policies_cfg id0) eqn:E; simpl; [apply IH|].
      rewrite (catalogue_lookup _ _ E). apply IH. }
    rewrite H. destruct items as [|d0 ds]; [reflexivity|].
    destruct (List.filter _ (d0 :: ds)); reflexivity.
  - unfold policies.calculate_policy_cost.
    destruct decisions as [items|]; [|reflexivity].
    unfold known_only, option_map, policies.items_of. cbv zeta.
    match goal with
    | |- context [fold_left ?f items ?a] =>
        assert (H : forall acc,
                  fold_left f items acc
                  = fold_left f
                      (List.filter (fun pd => in_catalogue policies_cfg (fst pd)) items)
                      acc)
    end.
    { induction items as [|[id0 d] items IH]; intros acc; simpl; [reflexivity|].
      destruct (in_catalogue policies_cfg id0) eqn:E; simpl; [apply IH|].
      rewrite (catalogue_lookup _ _ E). apply IH. }
    rewrite H. destruct items as [|d0 ds]; [reflexivity|].
    destruct (List.filter _ (d0 :: ds)); reflexivity.
Qed.

(** C4 (the claim as stated fails): a decision naming a policy id that the
    catalogue lacks makes neither function raise, the active set is empty
    and the price is zero, and a whole round run on it returns normally. *)
Lemma absent_policy_id_is_not_an_error :
  let decisions : option policies.Decisions :=
    Some [("ghost_policy", [("intensity", 1.0); ("coverage", 1.0)])] in
  in_catalogue (utils.policies_cfg example.bundle) "ghost_policy" = false /\
  policies.build_active_policies (utils.policies_cfg example.bundle) decisions None
  = Ok [] /\
  policies.calculate_policy_cost (utils.policies_cfg example.bundle) decisions 1000
  = Ok 0.0 /\
  ~ raises (snd (engine.simulate_round example.numpy (Ok example.bundle)
                   [example.cohort] 0%nat 1 decisions None
                   (Some example.bundle) 1234 None)).
Proof.
  repeat split; try reflexivity.
  vm_compute. tauto.
Qed.

(** ** scoring.py *)

Lemma foldM_raise {A B : Type} (f : A -> B -> result A) (l : list B) (e : exn) :
  fold_left (fun acc b => x <- acc ;; f x b) l (Raise e) = Raise e.
Proof. induction l as [|b l IH]; simpl; [reflexivity|exact IH]. Qed.

Lemma foldM_cons {A B : Type} (f : A -> B -> result A) (b : B) (l : list B) (a : A) :
  foldM f (b :: l) a = (x <- f a b ;; foldM f l x).
Proof.
  unfold foldM. simpl. destruct (f a b) as [a'|e]; simpl.
  - reflexivity.
  - apply foldM_raise.
Qed.

Lemma foldM_invariant {A B : Type} (P : A -> Prop) (f : A -> B -> result A)
    (l : list B) (a : A) :
  P a ->
  (forall a b, In b l -> P a -> exists a', f a b = Ok a' /\ P a') ->
  exists a', foldM f l a = Ok a' /\ P a'.
Proof.
  revert a. induction l as [|b l IH]; intros a Ha Hstep.
  - exists a. split; [reflexivity|exact Ha].
  - destruct (Hstep a b (or_introl eq_refl) Ha) as [a1 [E1 H1]].
    destruct (IH a1 H1) as [a' [E' H']].
    + intros a0 b0 Hin. apply Hstep. now right.
    + exists a'. split; [|exact H']. rewrite foldM_cons, E1. exact E'.
Qed.

Lemma append_length (a b : string) :
  String.length (String.append a b) = (String.length a + String.length b)%nat.
Proof. induction a as [|c a IH]; simpl; [reflexivity|now rewrite IH]. Qed.

Lemma append_suffix_inj (a b s1 s2 : string) :
  String.length s1 = String.length s2 ->
  String.append a s1 = String.append b s2 -> a = b /\ s1 = s2.
Proof.
  intros Hlen. revert b. induction a as [|c a IH]; intros [|c' b] H; simpl in H.
  - auto.
  - exfalso. apply (f_equal String.length) in H. simpl in H.
    rewrite append_length in H. lia.
  - exfalso. apply (f_equal String.length) in H. simpl in H.
    rewrite append_length in H. lia.
  - injection H as -> H. destruct (IH b H) as [-> ->]. auto.
Qed.

Lemma value_ne_score (d d' : string) :
  String.append d "_value" <> String.append d' "_score".
Proof.
  intros H. apply append_suffix_inj in H; [|reflexivity].
  destruct H as [_ H]. discriminate.
Qed.

Lemma value_ne_total (d : string) : String.append d "_value" <> "total_score".
Proof. apply (value_ne_score d "total"). Qed.

Lemma value_ne_rank (d : string) : String.append d "_value" <> "rank".
Proof.
  intros H. apply (f_equal String.length) in H. rewrite append_length in H.
  simpl in H. lia.
Qed.

Lemma score_ne_rank (d : string) : String.append d "_score" <> "rank".
Proof.
  intros H. apply (f_equal String.length) in H. rewrite append_length in H.
  simpl in H. lia.
Qed.

Lemma Forall_set {V : Type} (P : string * V -> Prop) (d : dict.t V) (k : string) (v : V) :
  Forall P d -> (forall k', P (k', v)) -> Forall P (dict.set d k v).
Proof.
  intros Hd Hv. induction Hd as [|[k0 v0] d H0 Hd IH]; simpl.
  - constructor; [apply Hv|constructor].
  - destruct (String.eqb k0 k); constructor; auto.
Qed.

Lemma get_map_values {V W : Type} (g : V -> W) (d : dict.t V) (k : string) :
  dict.get (map (fun kv => (fst kv, g (snd kv))) d) k = option_map g (dict.get d k).
Proof.
  induction d as [|[k0 v0] d IH]; simpl; [reflexivity|].
  destruct (String.eqb k0 k); [reflexivity|exact IH].
Qed.

Section Scoring.
Context (rt : Numpy) (scoring_cfg : utils.ScoringConfig).

Import scoring.

Lemma wf_setcol (df : DataFrame) (k : string) (v : ndarray) :
  wf df -> length v = len df -> wf (setcol df k (Float v)).
Proof.
  intros Hwf Hv. unfold wf, setcol. simpl.
  apply Forall_set; [exact Hwf|]. intros k'. exact Hv.
Qed.

Lemma wf_get (df : DataFrame) (k : string) (v : ndarray) :
  wf df -> dict.get (columns df) k = Some (Float v) -> length v = len df.
Proof.
  unfold wf. generalize (len df). intros n.
  induction 1 as [|[k0 s0] d H0 Hd IH]; simpl; [discriminate|].
  destruct (String.eqb k0 k).
  - intros [= ->]. exact H0.
  - exact IH.
Qed.

Lemma numeric_setcol (df : DataFrame) (k : string) (v : ndarray) :
  numeric_dimensions scoring_cfg df ->
  numeric_dimensions scoring_cfg (setcol df k (Float v)).
Proof.
  intros H dimension s Hin. unfold setcol. simpl. rewrite get_set.
  destruct (String.eqb k _).
  - intros [= <-]. now exists v.
  - now apply H.
Qed.

Lemma normalise_float (v : ndarray) (method : string) (direction : Z) :
  exists w, _normalise rt (Float v) method direction = Ok w /\ length w = length v.
Proof.
  unfold _normalise.
  destruct (String.eqb method "zscore").
  - destruct (isclose _ _); eexists; (split; [reflexivity|]).
    + unfold zeros. now rewrite repeat_length, length_map.
    + now rewrite !length_map.
  - destruct (isclose _ _); eexists; (split; [reflexivity|]).
    + unfold zeros. now rewrite repeat_length, length_map.
    + now rewrite !length_map.
Qed.

Lemma zeros_length (n : nat) : length (zeros n) = n.
Proof. apply repeat_length. Qed.

Lemma zeros_all_zero (n : nat) : Forall (fun x => x = 0) (zeros n).
Proof. unfold zeros. induction n; simpl; constructor; auto. Qed.

Lemma score_dimension_spec (n : nat) (original df : DataFrame) (dimension : string) :
  In dimension (dict.keys (utils.weights scoring_cfg)) ->
  scored_upto scoring_cfg n original df ->
  exists df',
    score_dimension rt scoring_cfg df dimension = Ok df' /\
    scored_upto scoring_cfg n original df' /\
    is_float (dict.get (columns df') (String.append dimension "_value")) /\
    is_float (dict.get (columns df') (String.append dimension "_score")) /\
    (forall k s, dict.get (columns df) k = Some (Float s) ->
                 is_float (dict.get (columns df') k)).
Proof.
  intros Hin [Hidx Hlen Hwf Hnum Hmiss]. unfold score_dimension.
  set (column := String.append dimension "_value").
  set (df1 := if dict.mem (columns df) column then df
              else setcol df column (Float (zeros (len df)))).
  assert (H1 : scored_upto scoring_cfg n original df1 /\
               (exists v, dict.get (columns df1) column = Some (Float v)) /\
               (forall k s, dict.get (columns df) k = Some (Float s) ->
                            is_float (dict.get (columns df1) k))).
  { unfold df1, dict.mem. destruct (dict.get (columns df) column) as [s|] eqn:E.
    - split; [now constructor|]. split.
      + destruct (Hnum dimension s Hin E) as [v ->]. now exists v.
      + intros k v Hk. now exists v.
    - split; [constructor|split].
      + exact Hidx.
      + exact Hlen.
      + apply wf_setcol; [exact Hwf|apply zeros_length].
      + now apply numeric_setcol.
      + intros d Hd. unfold setcol. simpl. rewrite get_set.
        destruct (String.eqb column _) eqn:Ek.
        * eexists. split; [reflexivity|apply zeros_all_zero].
        * now apply Hmiss.
      + unfold setcol. simpl. rewrite get_set_eq. eexists; reflexivity.
      + intros k v Hk. unfold setcol. simpl. rewrite get_set.
        destruct (String.eqb column k); eexists; first [reflexivity|eassumption]. }
  destruct H1 as [[Hidx1 Hlen1 Hwf1 Hnum1 Hmiss1] [[v Hv] Hkeep1]].
  unfold dict.getitem. rewrite Hv. cbn [bind].
  destruct (normalise_float v (utils.normalisation scoring_cfg)
              (dict.get_or DIMENSION_DIRECTIONS dimension 1%Z)) as [w [Hw Hwlen]].
  rewrite Hw. cbn [bind]. eexists. split; [reflexivity|].
  split; [constructor|split; [|split]].
  - exact Hidx1.
  - exact Hlen1.
  - apply wf_setcol; [exact Hwf1|]. rewrite Hwlen. now apply (wf_get df1 column).
  - now apply numeric_setcol.
  - intros d Hd. unfold setcol. simpl.
    rewrite get_set_ne by (intros H; symmetry in H; now apply value_ne_score in H).
    now apply Hmiss1.
  - unfold setcol. simpl.
    rewrite get_set_ne by (intros H; symmetry in H; now apply value_ne_score in H).
    now exists v.
  - unfold setcol. simpl. rewrite get_set_eq. eexists; reflexivity.
  - intros k s Hk. unfold setcol. simpl. rewrite get_set.
    destruct (String.eqb _ k); [eexists; reflexivity|]. now apply (Hkeep1 k s).
Qed.

Lemma score_dimensions_spec (n : nat) (original : DataFrame) (l : list string) :
  (forall d, In d l -> In d (dict.keys (utils.weights scoring_cfg))) ->
  forall df, scored_upto scoring_cfg n original df ->
  exists df',
    foldM (score_dimension rt scoring_cfg) l df = Ok df' /\
    scored_upto scoring_cfg n original df' /\
    (forall d, In d l ->
       is_float (dict.get (columns df') (String.append d "_value")) /\
       is_float (dict.get (columns df') (String.append d "_score"))) /\
    (forall k s, dict.get (columns df) k = Some (Float s) ->
                 is_float (dict.get (columns df') k)).
Proof.
  induction l as [|d l IH]; intros Hsub df Hdf.
  - exists df. split; [reflexivity|]. split; [exact Hdf|]. split.
    + intros d [].
    + intros k s Hk. now exists s.
  - destruct (score_dimension_spec n original df d (Hsub d (or_introl eq_refl)) Hdf)
      as [df1 [E1 [H1 [Hv [Hs Hkeep]]]]].
    destruct (IH (fun d' H => Hsub d' (or_intror H)) df1 H1)
      as [df' [E' [H' [Hall Hkeep']]]].
    exists df'. rewrite foldM_cons, E1. cbn [bind].
    split; [exact E'|]. split; [exact H'|]. split.
    + intros d' [<-|Hin].
      * destruct Hv as [v Hv], Hs as [w Hs].
        split; [apply (Hkeep' _ v Hv)|apply (Hkeep' _ w Hs)].
      * now apply Hall.
    + intros k s Hk. destruct (Hkeep k s Hk) as [s' Hs']. apply (Hkeep' k s' Hs').
Qed.

Lemma fully_scored_setcol_total (n : nat) (original df : DataFrame) (v : ndarray) :
  length v = n ->
  scored_upto scoring_cfg n original df ->
  (forall d, In d (dict.keys (utils.weights scoring_cfg)) ->
     is_float (dict.get (columns df) (String.append d "_value")) /\
     is_float (dict.get (columns df) (String.append d "_score"))) ->
  fully_scored scoring_cfg n original (setcol df "total_score" (Float v)).
Proof.
  intros Hv [Hidx Hlen Hwf Hnum Hmiss] Hdims.
  constructor; [constructor|..].
  - exact Hidx.
  - exact Hlen.
  - apply wf_setcol; [exact Hwf|]. rewrite Hv. now symmetry.
  - now apply numeric_setcol.
  - intros d Hd. unfold setcol. simpl.
    rewrite get_set_ne by (intros H; symmetry in H; now apply value_ne_total in H).
    now apply Hmiss.
  - unfold setcol. simpl. rewrite get_set_eq. eexists; reflexivity.
  - intros d Hd. destruct (Hdims d Hd) as [[a Ha] [b Hb]].
    unfold setcol. simpl. rewrite !get_set.
    split; destruct (String.eqb _ _); eexists; first [reflexivity|eassumption].
Qed.

Lemma add_weighted_spec (n : nat) (original df : DataFrame) (d : string) (w : Q) :
  In d (dict.keys (utils.weights scoring_cfg)) ->
  fully_scored scoring_cfg n original df ->
  exists df',
    add_weighted df "total_score" (String.append d "_score") w = Ok df' /\
    fully_scored scoring_cfg n original df'.
Proof.
  intros Hd [Hup [t Ht] Hdims].
  destruct (Hdims d Hd) as [_ [sc Hsc]].
  unfold add_weighted, dict.getitem. rewrite Ht, Hsc. cbn [bind].
  eexists. split; [reflexivity|].
  assert (Hu := Hup). destruct Hu as [Hidx Hlen Hwf Hnum Hmiss].
  apply fully_scored_setcol_total; [|exact Hup|exact Hdims].
  rewrite length_zip_with, length_map.
  rewrite (wf_get df _ t Hwf Ht), (wf_get df _ sc Hwf Hsc). lia.
Qed.

Lemma scored_frame_spec (df : DataFrame) :
  wf df -> numeric_dimensions scoring_cfg df ->
  exists scored,
    scored_frame rt df scoring_cfg = Ok scored /\
    fully_scored scoring_cfg (len df) df scored.
Proof.
  intros Hwf Hnum. unfold scored_frame.
  destruct (score_dimensions_spec (len df) df
              (dict.keys (utils.weights scoring_cfg)) (fun d H => H) df)
    as [df1 [E1 [H1 [Hdims _]]]].
  { constructor; try reflexivity; try assumption.
    intros d Hd. now rewrite Hd. }
  rewrite E1. cbn [bind].
  apply (foldM_invariant (fully_scored scoring_cfg (len df) df)).
  - apply fully_scored_setcol_total; [|exact H1|exact Hdims].
    rewrite zeros_length. now destruct H1.
  - intros a [d w] Hin Ha. apply add_weighted_spec; [|exact Ha].
    unfold dict.keys. apply (in_map fst) in Hin. exact Hin.
Qed.


Lemma insert_desc_perm (x : nat * Q) (l : list (nat * Q)) :
  Permutation (insert_desc x l) (x :: l).
Proof.
  induction l as [|y l IH]; simpl; [reflexivity|].
  destruct (ltb (snd y) (snd x)); [reflexivity|].
  rewrite IH. apply perm_swap.
Qed.

Lemma argsort_desc_perm (key : ndarray) :
  Permutation (argsort_desc key) (seq 0 (length key)).
Proof.
  unfold argsort_desc.
  assert (H : forall (items acc : list (nat * Q)),
            Permutation (fold_left (fun acc x => insert_desc x acc) items acc)
              (items ++ acc)).
  { induction items as [|x items IH]; intros acc; simpl; [reflexivity|].
    rewrite IH, insert_desc_perm. symmetry. apply Permutation_middle. }
  rewrite H, app_nil_r.
  replace (seq 0 (length key)) with (map fst (combine (seq 0 (length key)) key)) at 2.
  - reflexivity.
  - generalize 0%nat. induction key as [|k key IH]; intros start; simpl;
      [reflexivity|]. now rewrite IH.
Qed.

Lemma argsort_desc_length (key : ndarray) : length (argsort_desc key) = length key.
Proof. rewrite (Permutation_length (argsort_desc_perm key)). apply length_seq. Qed.

Lemma argsort_desc_bound (key : ndarray) :
  Forall (fun i => (i < length key)%nat) (argsort_desc key).
Proof.
  apply List.Forall_forall. intros i Hi.
  apply (Permutation_in _ (argsort_desc_perm key)) in Hi.
  apply in_seq in Hi. lia.
Qed.

Lemma take_rows_cons {A : Type} (i : nat) (order : list nat) (l : list A) :
  take_rows (i :: order) l
  = match l !! i with
    | Some x => x :: take_rows order l
    | None => take_rows order l
    end.
Proof. reflexivity. Qed.

Lemma take_rows_length {A : Type} (order : list nat) (l : list A) :
  Forall (fun i => (i < length l)%nat) order ->
  length (take_rows order l) = length order.
Proof.
  induction 1 as [|i order Hi Hrest IH]; [reflexivity|].
  rewrite take_rows_cons.
  destruct (l !! i) as [x|] eqn:E.
  - simpl. now rewrite IH.
  - apply lookup_ge_None in E. lia.
Qed.

Lemma take_rows_Forall {A : Type} (P : A -> Prop) (order : list nat) (l : list A) :
  Forall P l -> Forall P (take_rows order l).
Proof.
  intros Hl. induction order as [|i order IH]; [constructor|].
  rewrite take_rows_cons. destruct (l !! i) as [x|] eqn:E; [|exact IH].
  constructor; [|exact IH].
  rewrite List.Forall_forall in Hl. apply Hl.
  apply list_elem_of_In. now apply list_elem_of_lookup_2 in E.
Qed.

Lemma get_take_frame (order : list nat) (df : DataFrame) (k : string) :
  dict.get (columns (take_frame order df)) k
  = option_map (fun s => match s with
                         | Float v => Float (take_rows order v)
                         | Object v => Object (take_rows order v)
                         end) (dict.get (columns df) k).
Proof.
  unfold take_frame. simpl.
  apply (get_map_values (fun s => match s with
                                  | Float v => Float (take_rows order v)
                                  | Object v => Object (take_rows order v)
                                  end)).
Qed.

End Scoring.

Lemma example_table_numeric (df : scoring.DataFrame) :
  df = example.table \/ df = example.table_without_equity ->
  numeric_dimensions (utils.scoring example.bundle) df.
Proof.
  intros Hdf d s Hin Hget. simpl in Hin.
  destruct Hdf as [-> | ->];
    repeat (destruct Hin as [<-|Hin];
            [vm_compute in Hget;
             first [discriminate Hget
                   | injection Hget as <-; eexists; reflexivity]|]);
    destruct Hin.
Defined.

(** ** engine.py *)

Ltac bind_inv H :=
  match type of H with
  | bind ?m _ = Ok _ =>
      let x := fresh "x" in
      let E := fresh "E" in
      destruct m as [x|?] eqn:E; [cbn [bind] in H|discriminate H]
  | (let '(_, _) := ?p in _) = Ok _ => destruct p
  end.

Lemma mask_set_ok {A : Type} (arr : list A) (mask : list bool) (v : A) (arr' : list A) :
  mask_set arr mask v = Ok arr' ->
  length mask = length arr /\
  arr' = zip_with (fun x (m : bool) => if m then v else x) arr mask.
Proof.
  unfold mask_set. destruct (length mask =? length arr)%nat eqn:E; [|discriminate].
  intros [= <-]. apply Nat.eqb_eq in E. auto.
Qed.

(* a mask computed as [cond(arr) & hit] selects only where [cond] holds *)
Lemma guarded_mask {A : Type} (cond : A -> bool) (arr : list A) (hit mask : list bool) :
  broadcast2 andb (map cond arr) hit = Ok mask ->
  length mask = length arr ->
  Forall2 (fun x (m : bool) => m = true -> cond x = true) arr mask.
Proof.
  unfold broadcast2. rewrite length_map.
  destruct (length arr =? length hit)%nat eqn:E.
  - intros [= <-] _. apply Nat.eqb_eq in E. revert hit E.
    induction arr as [|x arr IH]; intros [|h hit] E; simpl in *; try discriminate;
      constructor.
    + intros H. now apply andb_true_iff in H.
    + apply IH. lia.
  - apply Nat.eqb_neq in E. intros H Hlen.
    destruct arr as [|x [|y arr]]; simpl in H.
    + destruct hit as [|h [|h' hit]]; try discriminate; simpl in *;
        injection H as <-; constructor.
    + injection H as <-. rewrite length_map in Hlen. simpl in *. lia.
    + destruct hit as [|h [|h' hit]]; try discriminate.
      injection H as <-. clear E Hlen.
      constructor; [intros H; now apply andb_true_iff in H|].
      constructor; [intros H; now apply andb_true_iff in H|].
      induction arr as [|z arr IH]; simpl; constructor; auto.
      intros H; now apply andb_true_iff in H.
Qed.

Lemma guarded_update {A : Type} (R : A -> A -> Prop) (cond : A -> bool)
    (arr : list A) (hit mask : list bool) (v : A) (arr' : list A) :
  (forall x, R x x) -> (forall x, cond x = true -> R x v) ->
  broadcast2 andb (map cond arr) hit = Ok mask ->
  mask_set arr mask v = Ok arr' ->
  Forall2 R arr arr'.
Proof.
  intros Hrefl Hset Hmask Hupd.
  apply mask_set_ok in Hupd. destruct Hupd as [Hlen ->].
  pose proof (guarded_mask cond arr hit mask Hmask Hlen) as Hg.
  clear Hmask Hlen. induction Hg as [|x m arr mask Hm Hg IH]; simpl; constructor.
  - destruct m; auto.
  - exact IH.
Qed.

Lemma Forall2_compose {A : Type} (R : A -> A -> Prop) (l1 l2 l3 : list A) :
  (forall x y z, R x y -> R y z -> R x z) ->
  Forall2 R l1 l2 -> Forall2 R l2 l3 -> Forall2 R l1 l3.
Proof.
  intros Htrans H12. revert l3.
  induction H12 as [|x y l1 l2 Hxy H12 IH]; intros l3 H23; inversion H23; subst;
    constructor; eauto.
Qed.

Section Engine.
Context (rt : Numpy).

Lemma tier_step_trans (x y z : Z) : tier_step x y -> tier_step y z -> tier_step x z.
Proof. unfold tier_step, tier_in_range. intros H1 H2 Hx. lia. Qed.

Lemma ltc_transitions_tier_step (gen : Generator rt) (size : nat)
    (onset_probs progression_probs severe_probs : ndarray)
    (ltc_state ltc_state' : list Z) (new_incidence : nat) (gen' : Generator rt) :
  engine.ltc_transitions rt gen size onset_probs progression_probs severe_probs
    ltc_state = Ok (ltc_state', new_incidence, gen') ->
  Forall2 tier_step ltc_state ltc_state'.
Proof.
  unfold engine.ltc_transitions. intros H.
  repeat bind_inv H.
  injection H as <- _ _.
  eapply Forall2_compose; [exact tier_step_trans| |].
  - eapply Forall2_compose; [exact tier_step_trans| |].
    + eapply (guarded_update tier_step (fun s => (s =? 0)%Z)); try eassumption.
      * intros t Ht. split; [lia|exact Ht].
      * intros t Ht%Z.eqb_eq. subst t. unfold tier_step, tier_in_range. lia.
    + eapply (guarded_update tier_step (fun s => (s =? 1)%Z)); try eassumption.
      * intros t Ht. split; [lia|exact Ht].
      * intros t Ht%Z.eqb_eq. subst t. unfold tier_step, tier_in_range. lia.
  - eapply (guarded_update tier_step (fun s => (2 <=? s)%Z)); try eassumption.
    + intros t Ht. split; [lia|exact Ht].
    + intros t Ht%Z.leb_le. unfold tier_step, tier_in_range. lia.
Qed.

Lemma mortality_transitions_stays_dead (gen : Generator rt) (size : nat)
    (mortality_probs : ndarray) (alive hospitalised care_home disability : list bool)
    (alive' hospitalised' care_home' disability' : list bool) (new_deaths : nat)
    (gen' : Generator rt) :
  engine.mortality_transitions rt gen size mortality_probs
    alive hospitalised care_home disability
  = Ok (alive', hospitalised', care_home', disability', new_deaths, gen') ->
  Forall2 stays_dead alive alive'.
Proof.
  unfold engine.mortality_transitions. intros H.
  repeat bind_inv H.
  injection H as <- _ _ _ _ _.
  rewrite <- (map_id alive) in E0 at 1.
  eapply (guarded_update stays_dead (fun a => a)); try eassumption.
  - intros a Ha. exact Ha.
  - intros a Ha _. exact Ha.
Qed.


Section Round.
Context (months : Z) (decisions : option policies.Decisions)
        (cfg : utils.ConfigBundle) (shock_mods : dict.t Q) (base_los : Q).

Lemma simulate_month_inv (month : nat) (st st' : engine.Locals rt) :
  engine.simulate_month rt months decisions cfg shock_mods base_los month st = Ok st' ->
  (exists gen size onset_probs progression_probs severe_probs new_incidence gen',
     engine.ltc_transitions rt gen size onset_probs progression_probs severe_probs
       (engine.ltc_state rt st)
     = Ok (engine.ltc_state rt st', new_incidence, gen')) /\
  (exists gen size mortality_probs hospitalised care_home disability
          hospitalised' care_home' disability' new_deaths gen',
     engine.mortality_transitions rt gen size mortality_probs
       (engine.alive rt st) hospitalised care_home disability
     = Ok (engine.alive rt st', hospitalised', care_home', disability',
           new_deaths, gen')) /\
  dict.get (states.data (engine.cohort rt st')) "ltc_state"
  = Some (int_astype (engine.ltc_state rt st')) /\
  dict.get (states.data (engine.cohort rt st')) "alive"
  = Some (bool_astype (engine.alive rt st')) /\
  length (engine.timestep_results rt st') = S (length (engine.timestep_results rt st)) /\
  length (engine.monthly_records rt st') = S (length (engine.monthly_records rt st)).
Proof.
  unfold engine.simulate_month. intros H.
  repeat bind_inv H.
  injection H as <-. cbn [engine.ltc_state engine.alive engine.cohort
                          engine.timestep_results engine.monthly_records].
  split; [do 7 eexists; eassumption|].
  split; [do 11 eexists; eassumption|].
  unfold engine.set_data. cbn [states.data].
  rewrite !length_app. simpl.
  repeat split; try lia.
  - rewrite !get_set_ne by discriminate. apply get_set_eq.
  - apply get_set_eq.
Qed.


Lemma months_segment (l : list nat) (st st' : engine.Locals rt) :
  foldM (fun st month =>
           engine.simulate_month rt months decisions cfg shock_mods base_los month st)
        l st = Ok st' ->
  Forall2 tier_step (engine.ltc_state rt st) (engine.ltc_state rt st') /\
  Forall2 stays_dead (engine.alive rt st) (engine.alive rt st') /\
  length (engine.monthly_records rt st')
  = (length (engine.monthly_records rt st) + length l)%nat /\
  length (engine.timestep_results rt st')
  = (length (engine.timestep_results rt st) + length l)%nat /\
  (l <> [] ->
   dict.get (states.data (engine.cohort rt st')) "ltc_state"
   = Some (int_astype (engine.ltc_state rt st')) /\
   dict.get (states.data (engine.cohort rt st')) "alive"
   = Some (bool_astype (engine.alive rt st'))).
Proof.
  revert st. induction l as [|month l IH]; intros st H.
  - injection H as <-. split; [|split; [|split; [|split]]].
    + apply Forall_Forall2_diag, List.Forall_forall. intros t _ Ht. split; [lia|exact Ht].
    + apply Forall_Forall2_diag, List.Forall_forall. intros a _ Ha. exact Ha.
    + simpl. lia.
    + simpl. lia.
    + congruence.
  - rewrite foldM_cons in H. bind_inv H.
    destruct (simulate_month_inv month st x E)
      as [(g & n & p1 & p2 & p3 & inc & g' & Hltc)
          [(g2 & n2 & mp & ho & ca & di & ho' & ca' & di' & nd & g2' & Hmort)
           [Hsync1 [Hsync2 [Hts Hrec]]]]].
    destruct (IH x H) as [Ht [Ha [Hr [Hs Hsync]]]].
    split; [|split; [|split; [|split]]].
    + eapply Forall2_compose; [exact tier_step_trans| |exact Ht].
      eapply ltc_transitions_tier_step. exact Hltc.
    + eapply Forall2_compose; [|eapply mortality_transitions_stays_dead; exact Hmort|exact Ha].
      unfold stays_dead. auto.
    + rewrite Hr, Hrec. simpl. lia.
    + rewrite Hs, Hts. simpl. lia.
    + intros _. destruct l as [|m l].
      * injection H as <-. split; assumption.
      * apply Hsync. discriminate.
Qed.

End Round.

Lemma getitem_ok {V : Type} (d : dict.t V) (k : string) (v : V) :
  dict.getitem d k = Ok v -> dict.get d k = Some v.
Proof. unfold dict.getitem. destruct (dict.get d k); [intros [= ->]; reflexivity|discriminate]. Qed.

Lemma get_copy (c : states.Cohort) (k : string) :
  dict.get (states.data (states.copy c)) k = dict.get (states.data c) k.
Proof.
  unfold states.copy. simpl.
  induction (states.data c) as [|[k0 v0] d IH]; simpl; [reflexivity|].
  destruct (String.eqb k0 k); [reflexivity|exact IH].
Qed.

Lemma simulate_copy_inv (c : states.Cohort) (months : Z)
    (decisions : option policies.Decisions) (shocks : option (list shocks.Shock))
    (cfg : utils.ConfigBundle) (seed : Z) (policy_months_active : option (dict.t Z))
    (cout : states.Cohort) (ts : list states.SimulationTimestepResult)
    (summary : dict.t Q) (leaderboard : scoring.DataFrame) :
  engine.simulate_copy rt c months decisions shocks cfg seed policy_months_active
  = Ok (cout, ts, summary, leaderboard) ->
  exists alive_col ltc_col st0 st shock_mods base_los,
    dict.get (states.data c) "alive" = Some alive_col /\
    dict.get (states.data c) "ltc_state" = Some ltc_col /\
    engine.alive rt st0 = astype_bool alive_col /\
    engine.ltc_state rt st0 = astype_int ltc_col /\
    engine.timestep_results rt st0 = [] /\
    engine.run_months rt months decisions cfg shock_mods base_los st0 = Ok st /\
    states.data cout = states.data (engine.cohort rt st) /\
    states.months_elapsed cout
    = (states.months_elapsed (engine.cohort rt st) + months)%Z /\
    ts = engine.timestep_results rt st /\
    Z.to_nat months <> 0%nat.
Proof.
  unfold engine.simulate_copy. intros H.
  repeat bind_inv H.
  injection H as <- <- <- <-.
  match type of E5 with
  | engine.run_months _ _ _ _ ?sm ?bl ?s0 = _ =>
      exists x0, x1, s0, x5, sm, bl
  end.
  apply getitem_ok in E0, E1.
  repeat (split; [first [eassumption|reflexivity]|]).
  intros Hzero.
  unfold engine.run_months in E5. rewrite Hzero in E5. injection E5 as <-.
  discriminate E6.
Qed.

Lemma simulate_round_inv (load_config_bundle : result utils.ConfigBundle)
    (h : engine.heap) (cohort : engine.loc) (months : Z)
    (decisions : option policies.Decisions) (shocks : option (list shocks.Shock))
    (config_bundle : option utils.ConfigBundle) (seed : Z)
    (policy_months_active : option (dict.t Z))
    (h' : engine.heap) (working : engine.loc)
    (ts : list states.SimulationTimestepResult) (summary : dict.t Q)
    (leaderboard : scoring.DataFrame) :
  engine.simulate_round rt load_config_bundle h cohort months decisions shocks
    config_bundle seed policy_months_active
  = (h', Ok (working, ts, summary, leaderboard)) ->
  exists cfg cin cout,
    h !! cohort = Some cin /\
    working = length h /\
    h' = <[length h := cout]> (h ++ [states.copy cin]) /\
    h' !! working = Some cout /\
    engine.simulate_copy rt (states.copy cin) months decisions shocks cfg seed
      policy_months_active = Ok (cout, ts, summary, leaderboard).
Proof.
  unfold engine.simulate_round. intros H.
  destruct (match config_bundle with Some c => Ok c | None => load_config_bundle end)
    as [cfg|e]; [|discriminate H].
  destruct (h !! cohort) as [cin|] eqn:Ecin; [|discriminate H].
  destruct (engine.simulate_copy _ _ _ _ _ _ _ _) as [[[[cout ts'] sm'] lb']|e] eqn:Ecopy;
    [|discriminate H].
  injection H as <- <- <- <- <-.
  exists cfg, cin, cout. repeat split; try reflexivity.
  - apply list_lookup_insert_eq. rewrite length_app. simpl. lia.
  - exact Ecopy.
Qed.


Lemma count_stays_dead (before after : list bool) :
  Forall2 stays_dead before after -> (count after <= count before)%nat.
Proof.
  induction 1 as [|b a before after Hba _ IH]; simpl; [lia|].
  destruct a; [rewrite (Hba eq_refl)|destruct b]; lia.
Qed.

Lemma nonzero_of_bool (b : bool) : nonzero (of_bool b) = b.
Proof. destruct b; reflexivity. Qed.

Lemma astype_bool_bool_astype (l : list bool) : astype_bool (bool_astype l) = l.
Proof.
  unfold astype_bool, bool_astype. induction l as [|b l IH]; simpl; [reflexivity|].
  now rewrite nonzero_of_bool, IH.
Qed.

Lemma trunc_inject (q : Q) (t : Z) : q == inject_Z t -> trunc q = t.
Proof.
  unfold Qeq, trunc. destruct q as [n d]. simpl. intros H.
  rewrite Z.mul_1_r in H. subst n. apply Z.quot_mul. discriminate.
Qed.

Lemma Forall2_map_left {A B C : Type} (R : C -> B -> Prop) (f : A -> C)
    (l : list A) (l' : list B) :
  Forall2 R (map f l) l' -> Forall2 (fun x y => R (f x) y) l l'.
Proof.
  revert l'. induction l as [|x l IH]; intros [|y l'] H; inversion H; subst;
    constructor; auto.
Qed.

Lemma Forall2_map_right {A B C : Type} (R : A -> C -> Prop) (g : B -> C)
    (l : list A) (l' : list B) :
  Forall2 (fun x y => R x (g y)) l l' -> Forall2 R l (map g l').
Proof. induction 1; simpl; constructor; auto. Qed.

(** C6: over any run of consecutive months nobody who is dead becomes
    alive again, so the number alive cannot grow; and when [simulate_round]
    returns, the [alive] column of the cohort it returns marks alive only
    individuals that the input cohort marks alive, hence no more of them. *)
Theorem alive_never_increases :
  (forall months decisions cfg shock_mods base_los (l : list nat)
          (st st' : engine.Locals rt),
     foldM (fun st month =>
              engine.simulate_month rt months decisions cfg shock_mods base_los
                month st) l st = Ok st' ->
     Forall2 stays_dead (engine.alive rt st) (engine.alive rt st') /\
     (count (engine.alive rt st') <= count (engine.alive rt st))%nat)
  /\
  (forall load_config_bundle h cohort months decisions shocks config_bundle seed
          policy_months_active h' working timesteps summary leaderboard,
     engine.simulate_round rt load_config_bundle h cohort months decisions shocks
       config_bundle seed policy_months_active
     = (h', Ok (working, timesteps, summary, leaderboard)) ->
     exists before after alive_before alive_after,
       h !! cohort = Some before /\
       h' !! working = Some after /\
       dict.get (states.data before) "alive" = Some alive_before /\
       dict.get (states.data after) "alive" = Some alive_after /\
       Forall2 flag_stays_dead alive_before alive_after /\
       (count (astype_bool alive_after) <= count (astype_bool alive_before))%nat).
Proof.
  split.
  - intros months decisions cfg shock_mods base_los l st st' H.
    destruct (months_segment months decisions cfg shock_mods base_los l st st' H)
      as [_ [Ha _]].
    split; [exact Ha|now apply count_stays_dead].
  - intros load h cohort months decisions shocks config seed pma h' working
      ts summary lb H.
    destruct (simulate_round_inv _ _ _ _ _ _ _ _ _ _ _ _ _ _ H)
      as (cfg & cin & cout & Hin & -> & _ & Hout & Hcopy).
    destruct (simulate_copy_inv _ _ _ _ _ _ _ _ _ _ _ Hcopy)
      as (acol & lcol & st0 & st & sm & bl & Hacol & _ & Ha0 & _ & _ & Hrun
          & Hdata & _ & _ & Hmonths).
    destruct (months_segment _ _ _ _ _ _ _ _ Hrun) as [_ [Ha [_ [_ Hsync]]]].
    destruct Hsync as [_ Hsync].
    { intros Hnil. apply (f_equal (@length nat)) in Hnil.
      rewrite length_seq in Hnil. simpl in Hnil. contradiction. }
    rewrite get_copy in Hacol.
    exists cin, cout, acol, (bool_astype (engine.alive rt st)).
    rewrite Hdata.
    repeat (split; [assumption|]).
    rewrite Ha0 in Ha. split.
    + unfold astype_bool, bool_astype in *.
      apply Forall2_map_left in Ha. apply Forall2_map_right.
      eapply List.Forall2_impl; [|exact Ha]. intros q a Hqa. unfold flag_stays_dead.
      now rewrite nonzero_of_bool.
    + rewrite astype_bool_bool_astype. now apply count_stays_dead.
Qed.

(** C7: over any run of consecutive months every tier that starts in
    {0, 1, 2, 3} ends at least as high and still in that range; and when
    [simulate_round] returns, each cell of the returned [ltc_state] column
    is at least the input cohort's cell wherever that one is a tier. *)
Theorem ltc_tier_never_decreases :
  (forall months decisions cfg shock_mods base_los (l : list nat)
          (st st' : engine.Locals rt),
     foldM (fun st month =>
              engine.simulate_month rt months decisions cfg shock_mods base_los
                month st) l st = Ok st' ->
     Forall2 tier_step (engine.ltc_state rt st) (engine.ltc_state rt st'))
  /\
  (forall load_config_bundle h cohort months decisions shocks config_bundle seed
          policy_months_active h' working timesteps summary leaderboard,
     engine.simulate_round rt load_config_bundle h cohort months decisions shocks
       config_bundle seed policy_months_active
     = (h', Ok (working, timesteps, summary, leaderboard)) ->
     exists before after tiers_before tiers_after,
       h !! cohort = Some before /\
       h' !! working = Some after /\
       dict.get (states.data before) "ltc_state" = Some tiers_before /\
       dict.get (states.data after) "ltc_state" = Some tiers_after /\
       Forall2 tier_column_step tiers_before tiers_after).
Proof.
  split.
  - intros months decisions cfg shock_mods base_los l st st' H.
    now destruct (months_segment months decisions cfg shock_mods base_los l st st' H).
  - intros load h cohort months decisions shocks config seed pma h' working
      ts summary lb H.
    destruct (simulate_round_inv _ _ _ _ _ _ _ _ _ _ _ _ _ _ H)
      as (cfg & cin & cout & Hin & -> & _ & Hout & Hcopy).
    destruct (simulate_copy_inv _ _ _ _ _ _ _ _ _ _ _ Hcopy)
      as (acol & lcol & st0 & st & sm & bl & _ & Hlcol & _ & Hl0 & _ & Hrun
          & Hdata & _ & _ & Hmonths).
    destruct (months_segment _ _ _ _ _ _ _ _ Hrun) as [Ht [_ [_ [_ Hsync]]]].
    destruct Hsync as [Hsync _].
    { intros Hnil. apply (f_equal (@length nat)) in Hnil.
      rewrite length_seq in Hnil. simpl in Hnil. contradiction. }
    rewrite get_copy in Hlcol.
    exists cin, cout, lcol, (int_astype (engine.ltc_state rt st)).
    rewrite Hdata.
    repeat (split; [assumption|]).
    rewrite Hl0 in Ht. unfold astype_int, int_astype in *.
    apply Forall2_map_left in Ht. apply Forall2_map_right.
    eapply List.Forall2_impl; [|exact Ht]. intros q t' Hstep [t [Hrange Hq]].
    cbv beta in Hstep. rewrite (trunc_inject q t Hq) in Hstep.
    destruct (Hstep Hrange) as [Hle Hrange'].
    split.
    + rewrite Hq. rewrite <- Zle_Qle. exact Hle.
    + exists t'. split; [exact Hrange'|reflexivity].
Qed.

End Engine.

Lemma example_run_returns :
  engine.simulate_round example.numpy (Ok example.bundle) [example.cohort] 0%nat 2
    (Some example.decisions) (Some example.industrial_action)
    (Some example.bundle) 456 None
  = (example.heap_after,
     Ok (example.advanced, snd (fst (fst example.outputs)),
         snd (fst example.outputs), snd example.outputs)).
Proof. vm_compute. reflexivity. Defined.

Lemma alive_never_increases_witness :
  exists before after alive_before alive_after,
    [example.cohort] !! 0%nat = Some before /\
    example.heap_after !! example.advanced = Some after /\
    dict.get (states.data before) "alive" = Some alive_before /\
    dict.get (states.data after) "alive" = Some alive_after /\
    Forall2 flag_stays_dead alive_before alive_after /\
    (count (astype_bool alive_after) <= count (astype_bool alive_before))%nat.
Proof.
  destruct (alive_never_increases example.numpy) as [_ H].
  exact (H _ _ _ _ _ _ _ _ _ _ _ _ _ _ example_run_returns).
Defined.

Lemma ltc_tier_never_decreases_witness :
  exists before after tiers_before tiers_after,
    [example.cohort] !! 0%nat = Some before /\
    example.heap_after !! example.advanced = Some after /\
    dict.get (states.data before) "ltc_state" = Some tiers_before /\
    dict.get (states.data after) "ltc_state" = Some tiers_after /\
    Forall2 tier_column_step tiers_before tiers_after.
Proof.
  destruct (ltc_tier_never_decreases example.numpy) as [_ H].
  exact (H _ _ _ _ _ _ _ _ _ _ _ _ _ _ example_run_returns).
Defined.

Section Rounds.
Context (rt : Numpy).

Lemma transition_probs_needs (cfg : utils.ConfigBundle) (shock_mods : dict.t Q)
    (name : string) (features : dict.t ndarray) (policy_modifiers : dict.t Q)
    (alive_mask probs : ndarray) :
  engine.transition_probs rt cfg shock_mods name features policy_modifiers alive_mask
  = Ok probs ->
  dict.get (utils.transitions (utils.transitions_cfg cfg)) name <> None.
Proof.
  unfold engine.transition_probs, dict.getitem. intros H Hnone.
  rewrite Hnone in H. discriminate H.
Qed.

Lemma simulate_month_needs_transitions (months : Z)
    (decisions : option policies.Decisions) (cfg : utils.ConfigBundle)
    (shock_mods : dict.t Q) (base_los : Q) (month : nat) (st st' : engine.Locals rt)
    (name : string) :
  engine.simulate_month rt months decisions cfg shock_mods base_los month st = Ok st' ->
  In name named_transitions ->
  dict.get (utils.transitions (utils.transitions_cfg cfg)) name <> None.
Proof.
  unfold engine.simulate_month. intros H Hname.
  repeat bind_inv H.
  simpl in Hname.
  repeat (destruct Hname as [<-|Hname];
          [eapply transition_probs_needs; eassumption|]).
  destruct Hname.
Qed.

Lemma simulate_copy_needs_transitions (c : states.Cohort) (months : Z)
    (decisions : option policies.Decisions) (shocks : option (list shocks.Shock))
    (cfg : utils.ConfigBundle) (seed : Z) (policy_months_active : option (dict.t Z))
    (name : string) :
  In name named_transitions ->
  dict.get (utils.transitions (utils.transitions_cfg cfg)) name = None ->
  raises (engine.simulate_copy rt c months decisions shocks cfg seed
            policy_months_active).
Proof.
  intros Hname Hnone.
  destruct (engine.simulate_copy _ _ _ _ _ _ _ _) as [[[[cout ts] sm] lb]|e] eqn:E;
    [|exact I].
  exfalso.
  destruct (simulate_copy_inv _ _ _ _ _ _ _ _ _ _ _ _ E)
    as (acol & lcol & st0 & st & smods & bl & _ & _ & _ & _ & _ & Hrun & _ & _ & _
        & Hmonths).
  unfold engine.run_months in Hrun.
  destruct (Z.to_nat months) as [|n]; [congruence|].
  simpl seq in Hrun. rewrite foldM_cons in Hrun. bind_inv Hrun.
  exact (simulate_month_needs_transitions _ _ _ _ _ _ _ _ _ E0 Hname Hnone).
Qed.

Lemma simulate_round_frame (load_config_bundle : result utils.ConfigBundle)
    (h : engine.heap) (cohort : engine.loc) (months : Z)
    (decisions : option policies.Decisions) (shocks : option (list shocks.Shock))
    (config_bundle : option utils.ConfigBundle) (seed : Z)
    (policy_months_active : option (dict.t Z)) (l : engine.loc) :
  (l < length h)%nat ->
  fst (engine.simulate_round rt load_config_bundle h cohort months decisions shocks
         config_bundle seed policy_months_active) !! l = h !! l.
Proof.
  intros Hl. unfold engine.simulate_round.
  destruct (match config_bundle with Some c => Ok c | None => load_config_bundle end)
    as [cfg|e]; [|reflexivity].
  destruct (h !! cohort) as [cin|] eqn:Ecin; [|reflexivity].
  destruct (engine.simulate_copy _ _ _ _ _ _ _ _) as [[[[cout ts] sm] lb]|e];
    cbn [fst].
  - etransitivity; [apply list_lookup_insert_ne; lia|now apply lookup_app_l].
  - now apply lookup_app_l.
Qed.

Lemma simulate_round_keeps_cohort (load_config_bundle : result utils.ConfigBundle)
    (h : engine.heap) (cohort : engine.loc) (months : Z)
    (decisions : option policies.Decisions) (shocks : option (list shocks.Shock))
    (config_bundle : option utils.ConfigBundle) (seed : Z)
    (policy_months_active : option (dict.t Z)) :
  fst (engine.simulate_round rt load_config_bundle h cohort months decisions shocks
         config_bundle seed policy_months_active) !! cohort = h !! cohort.
Proof.
  destruct (h !! cohort) as [cin|] eqn:Ecin.
  - rewrite <- Ecin. apply simulate_round_frame.
    eapply lookup_lt_Some. exact Ecin.
  - unfold engine.simulate_round.
    destruct (match config_bundle with Some c => Ok c | None => load_config_bundle end)
      as [cfg|e]; [|exact Ecin].
    destruct (h !! cohort) as [cin|] eqn:Ecin'; [discriminate Ecin|exact Ecin'].
Qed.

(** C8: when one of the seven named transitions is missing from the
    bundle in use, [simulate_round] raises, and the heap it leaves holds
    the caller's cohort, and every other object that was there, exactly as
    before the call. *)
Theorem missing_transition_raises (load_config_bundle : result utils.ConfigBundle)
    (h : engine.heap) (cohort : engine.loc) (months : Z)
    (decisions : option policies.Decisions) (shocks : option (list shocks.Shock))
    (config_bundle : option utils.ConfigBundle) (seed : Z)
    (policy_months_active : option (dict.t Z))
    (cfg : utils.ConfigBundle) (name : string) :
  bundle_in_use load_config_bundle config_bundle = Ok cfg ->
  In name named_transitions ->
  dict.get (utils.transitions (utils.transitions_cfg cfg)) name = None ->
  let outcome :=
    engine.simulate_round rt load_config_bundle h cohort months decisions shocks
      config_bundle seed policy_months_active in
  raises (snd outcome) /\
  fst outcome !! cohort = h !! cohort /\
  forall l, (l < length h)%nat -> fst outcome !! l = h !! l.
Proof.
  intros Hcfg Hname Hnone outcome.
  assert (Hframe : forall l, (l < length h)%nat -> fst outcome !! l = h !! l).
  { intros l Hl. now apply simulate_round_frame. }
  split; [|split; [|exact Hframe]].
  - unfold outcome, engine.simulate_round. unfold bundle_in_use in Hcfg.
    rewrite Hcfg.
    destruct (h !! cohort) as [cin|]; [|exact I].
    pose proof (simulate_copy_needs_transitions (states.copy cin) months decisions
                  shocks cfg seed policy_months_active name Hname Hnone) as Hr.
    destruct (engine.simulate_copy _ _ _ _ _ _ _ _) as [[[[cout ts] sm] lb]|e];
      [destruct Hr|exact I].
  - apply simulate_round_keeps_cohort.
Qed.

Lemma simulate_round_outcome (load_config_bundle : result utils.ConfigBundle)
    (h : engine.heap) (cohort : engine.loc) (months : Z)
    (decisions : option policies.Decisions) (shocks : option (list shocks.Shock))
    (config_bundle : option utils.ConfigBundle) (seed : Z)
    (policy_months_active : option (dict.t Z)) :
  let outcome :=
    engine.simulate_round rt load_config_bundle h cohort months decisions shocks
      config_bundle seed policy_months_active in
  match round_of rt load_config_bundle (h !! cohort) months decisions shocks
          config_bundle seed policy_months_active with
  | Ok (advanced, timesteps, summary, leaderboard) =>
      snd outcome = Ok (length h, timesteps, summary, leaderboard) /\
      fst outcome !! length h = Some advanced
  | Raise e => snd outcome = Raise e
  end.
Proof.
  unfold round_of, bundle_in_use, engine.simulate_round.
  destruct (match config_bundle with Some c => Ok c | None => load_config_bundle end)
    as [cfg|e]; cbn [bind]; [|reflexivity].
  destruct (h !! cohort) as [cin|]; [|reflexivity].
  destruct (engine.simulate_copy _ _ _ _ _ _ _ _) as [[[[cout ts] sm] lb]|e];
    cbn [fst snd]; [|reflexivity].
  split; [reflexivity|].
  apply list_lookup_insert_eq. rewrite length_app. simpl. lia.
Qed.

End Rounds.

(** ** Two runs of one round *)

Lemma bind_rel {A1 A2 B1 B2 : Type} (P : A1 -> A2 -> Prop) (G : B1 -> B2 -> Prop)
    (m1 : result A1) (m2 : result A2) (k1 : A1 -> result B1) (k2 : A2 -> result B2) :
  result_rel P m1 m2 ->
  (forall a1 a2, P a1 a2 -> result_rel G (k1 a1) (k2 a2)) ->
  result_rel G (bind m1 k1) (bind m2 k2).
Proof.
  destruct m1 as [a1|e1], m2 as [a2|e2]; simpl; intros H Hk; try contradiction.
  - now apply Hk.
  - exact H.
Qed.

Lemma bind_rel_eq {A B1 B2 : Type} (G : B1 -> B2 -> Prop)
    (m : result A) (k1 : A -> result B1) (k2 : A -> result B2) :
  (forall a, result_rel G (k1 a) (k2 a)) ->
  result_rel G (bind m k1) (bind m k2).
Proof. destruct m as [a|e]; simpl; intros Hk; [apply Hk|reflexivity]. Qed.

Section Reproducible.
Context (rt1 rt2 : Numpy) (R : Generator rt1 -> Generator rt2 -> Prop).
Hypothesis Hexp : np_exp rt1 = np_exp rt2.
Hypothesis Hsqrt : np_sqrt rt1 = np_sqrt rt2.
Hypothesis Hdraws : same_draws rt1 rt2 R.

Lemma random_rel (size : nat) (g1 : Generator rt1) (g2 : Generator rt2) :
  R g1 g2 -> with_gen R (engine.random rt1 g1 size) (engine.random rt2 g2 size).
Proof.
  revert g1 g2. induction size as [|k IH]; intros g1 g2 Hg; simpl.
  - split; [reflexivity|exact Hg].
  - destruct Hdraws as [Hd _]. destruct (Hd g1 g2 Hg) as [Ex Hg'].
    destruct (next_double rt1 g1) as [x1 g1'], (next_double rt2 g2) as [x2 g2'].
    simpl in Ex, Hg'. subst x2.
    destruct (IH g1' g2' Hg') as [Exs Hg''].
    destruct (engine.random rt1 g1' k) as [xs1 g1''],
             (engine.random rt2 g2' k) as [xs2 g2''].
    simpl in Exs, Hg''. subst xs2. split; [reflexivity|exact Hg''].
Qed.

Lemma gamma_draws_rel (shape scale : Q) (size : nat)
    (g1 : Generator rt1) (g2 : Generator rt2) :
  R g1 g2 ->
  with_gen R (engine.gamma_draws rt1 g1 shape scale size)
    (engine.gamma_draws rt2 g2 shape scale size).
Proof.
  revert g1 g2. induction size as [|k IH]; intros g1 g2 Hg; simpl.
  - split; [reflexivity|exact Hg].
  - destruct Hdraws as [_ Hd]. destruct (Hd shape scale g1 g2 Hg) as [Ex Hg'].
    destruct (next_gamma rt1 shape scale g1) as [x1 g1'],
             (next_gamma rt2 shape scale g2) as [x2 g2'].
    simpl in Ex, Hg'. subst x2.
    destruct (IH g1' g2' Hg') as [Exs Hg''].
    destruct (engine.gamma_draws rt1 g1' shape scale k) as [xs1 g1''],
             (engine.gamma_draws rt2 g2' shape scale k) as [xs2 g2''].
    simpl in Exs, Hg''. subst xs2. split; [reflexivity|exact Hg''].
Qed.

Lemma gamma_rel (shape scale : Q) (size : nat)
    (g1 : Generator rt1) (g2 : Generator rt2) :
  R g1 g2 ->
  result_rel (with_gen R) (engine.gamma rt1 g1 shape scale size)
    (engine.gamma rt2 g2 shape scale size).
Proof.
  intros Hg. unfold engine.gamma. destruct (ltb shape 0 || ltb scale 0).
  - reflexivity.
  - now apply gamma_draws_rel.
Qed.

(* one uniform array drawn on both sides *)
Ltac draw :=
  match goal with
  | Hg : R ?g1 ?g2
    |- result_rel _ (let '(_, _) := engine.random rt1 ?g1 ?n in _)
                    (let '(_, _) := engine.random rt2 ?g2 ?n in _) =>
      let E := fresh "E" in
      let Hg' := fresh "Hg" in
      destruct (random_rel n g1 g2 Hg) as [E Hg'];
      destruct (engine.random rt1 g1 n) as [? ?], (engine.random rt2 g2 n) as [? ?];
      cbn [fst snd] in E, Hg'; subst; clear Hg
  end.

(* one statement that is the same on both sides *)
Ltac same := apply bind_rel_eq; intros ?.

Lemma ltc_transitions_rel (g1 : Generator rt1) (g2 : Generator rt2) (size : nat)
    (onset_probs progression_probs severe_probs : ndarray) (ltc_state : list Z) :
  R g1 g2 ->
  result_rel (with_gen R)
    (engine.ltc_transitions rt1 g1 size onset_probs progression_probs severe_probs
       ltc_state)
    (engine.ltc_transitions rt2 g2 size onset_probs progression_probs severe_probs
       ltc_state).
Proof.
  intros Hg. unfold engine.ltc_transitions.
  draw. do 3 same. draw. do 3 same. draw. do 3 same.
  split; [reflexivity|assumption].
Qed.

Lemma disability_transitions_rel (g1 : Generator rt1) (g2 : Generator rt2)
    (size : nat) (disability_probs recovery_probs : ndarray) (disability : list bool) :
  R g1 g2 ->
  result_rel (with_gen R)
    (engine.disability_transitions rt1 g1 size disability_probs recovery_probs
       disability)
    (engine.disability_transitions rt2 g2 size disability_probs recovery_probs
       disability).
Proof.
  intros Hg. unfold engine.disability_transitions.
  draw. do 3 same. draw. do 3 same.
  split; [reflexivity|assumption].
Qed.

Lemma hospital_transitions_rel (cfg : utils.ConfigBundle)
    (g1 : Generator rt1) (g2 : Generator rt2) (size : nat)
    (hospital_probs : ndarray) (capacity_modifiers : dict.t Q)
    (hospitalised : list bool) (hospital_los_remaining : ndarray) :
  R g1 g2 ->
  result_rel (with_gen R)
    (engine.hospital_transitions rt1 cfg g1 size hospital_probs capacity_modifiers
       hospitalised hospital_los_remaining)
    (engine.hospital_transitions rt2 cfg g2 size hospital_probs capacity_modifiers
       hospitalised hospital_los_remaining).
Proof.
  intros Hg. unfold engine.hospital_transitions.
  draw. do 4 same.
  eapply bind_rel; [apply gamma_rel; eassumption|].
  intros [sampled g1'] [sampled' g2'] [E Hg']. cbn [fst snd] in E, Hg'. subst sampled'.
  do 5 same.
  split; [reflexivity|assumption].
Qed.

Lemma care_home_transitions_rel (g1 : Generator rt1) (g2 : Generator rt2)
    (size : nat) (care_probs : ndarray) (care_home disability : list bool)
    (ltc_state : list Z) :
  R g1 g2 ->
  result_rel (with_gen R)
    (engine.care_home_transitions rt1 g1 size care_probs care_home disability
       ltc_state)
    (engine.care_home_transitions rt2 g2 size care_probs care_home disability
       ltc_state).
Proof.
  intros Hg. unfold engine.care_home_transitions.
  do 2 same. draw. do 3 same.
  split; [reflexivity|assumption].
Qed.

Lemma mortality_transitions_rel (g1 : Generator rt1) (g2 : Generator rt2)
    (size : nat) (mortality_probs : ndarray)
    (alive hospitalised care_home disability : list bool) :
  R g1 g2 ->
  result_rel (with_gen R)
    (engine.mortality_transitions rt1 g1 size mortality_probs alive hospitalised
       care_home disability)
    (engine.mortality_transitions rt2 g2 size mortality_probs alive hospitalised
       care_home disability).
Proof.
  intros Hg. unfold engine.mortality_transitions.
  draw. do 6 same.
  split; [reflexivity|assumption].
Qed.

Lemma aggregate_policy_effects_same (active : list policies.ActivePolicy) :
  policies.aggregate_policy_effects rt1 active
  = policies.aggregate_policy_effects rt2 active.
Proof.
  unfold policies.aggregate_policy_effects, policies.effect_strength, policies.ramp.
  rewrite Hexp. reflexivity.
Qed.

Lemma transition_probs_same (cfg : utils.ConfigBundle) (shock_mods : dict.t Q)
    (name : string) (features : dict.t ndarray) (policy_modifiers : dict.t Q)
    (alive_mask : ndarray) :
  engine.transition_probs rt1 cfg shock_mods name features policy_modifiers alive_mask
  = engine.transition_probs rt2 cfg shock_mods name features policy_modifiers
      alive_mask.
Proof.
  unfold engine.transition_probs, engine._probability_for_transition,
    hazards.log_hazard_to_probability, hazards.hazard_to_probability.
  rewrite Hexp. reflexivity.
Qed.

Lemma build_leaderboard_same (summary : dict.t Q) (scoring_cfg : utils.ScoringConfig) :
  engine._build_leaderboard rt1 summary scoring_cfg
  = engine._build_leaderboard rt2 summary scoring_cfg.
Proof.
  unfold engine._build_leaderboard, scoring.score_round, scoring.scored_frame,
    scoring.score_dimension, scoring._normalise, scoring.std0.
  rewrite Hsqrt. reflexivity.
Qed.

(* a block of the month that draws: its results are the same on both sides *)
Ltac block L :=
  eapply bind_rel; [apply L; eassumption|];
  let E := fresh "E" in
  let Hg' := fresh "Hg" in
  intros [? ?] [? ?] [E Hg']; cbn [fst snd] in E, Hg'; subst;
  repeat match goal with p : (_ * _)%type |- _ => destruct p end;
  cbv beta iota.

Lemma simulate_month_rel (months : Z) (decisions : option policies.Decisions)
    (cfg : utils.ConfigBundle) (shock_mods : dict.t Q) (base_los : Q) (month : nat)
    (st1 : engine.Locals rt1) (st2 : engine.Locals rt2) :
  same_locals R st1 st2 ->
  result_rel (same_locals R)
    (engine.simulate_month rt1 months decisions cfg shock_mods base_los month st1)
    (engine.simulate_month rt2 months decisions cfg shock_mods base_los month st2).
Proof.
  destruct st1, st2. unfold same_locals. cbn [engine.gen engine.cohort
    engine.features engine.alive engine.ltc_state engine.disability
    engine.hospitalised engine.care_home engine.hospital_los_remaining
    engine.policy_counters engine.timestep_results engine.monthly_records].
  intros (Hg & ? & ? & ? & ? & ? & ? & ? & ? & ? & ? & ?). subst.
  unfold engine.simulate_month. cbn [engine.gen engine.cohort
    engine.features engine.alive engine.ltc_state engine.disability
    engine.hospitalised engine.care_home engine.hospital_los_remaining
    engine.policy_counters engine.timestep_results engine.monthly_records].
  cbv zeta.
  same. rewrite !aggregate_policy_effects_same. same.
  rewrite !transition_probs_same. do 2 same.
  block ltc_transitions_rel. do 2 same.
  block disability_transitions_rel. same.
  block hospital_transitions_rel. same.
  block care_home_transitions_rel. same.
  block mortality_transitions_rel. do 7 same.
  cbn [result_rel]. unfold same_locals. cbn [engine.gen engine.cohort
    engine.features engine.alive engine.ltc_state engine.disability
    engine.hospitalised engine.care_home engine.hospital_los_remaining
    engine.policy_counters engine.timestep_results engine.monthly_records].
  repeat split; try reflexivity. assumption.
Qed.

Lemma foldM_rel {A1 A2 B : Type} (P : A1 -> A2 -> Prop)
    (f1 : A1 -> B -> result A1) (f2 : A2 -> B -> result A2) (l : list B)
    (a1 : A1) (a2 : A2) :
  (forall x1 x2 b, P x1 x2 -> result_rel P (f1 x1 b) (f2 x2 b)) ->
  P a1 a2 -> result_rel P (foldM f1 l a1) (foldM f2 l a2).
Proof.
  intros Hf. revert a1 a2. induction l as [|b l IH]; intros a1 a2 Ha.
  - exact Ha.
  - rewrite !foldM_cons. apply (bind_rel P); [now apply Hf|exact IH].
Qed.

Lemma simulate_copy_rel (cohort : states.Cohort) (months : Z)
    (decisions : option policies.Decisions) (shocks : option (list shocks.Shock))
    (cfg : utils.ConfigBundle) (seed : Z) (policy_months_active : option (dict.t Z)) :
  R (default_rng rt1 seed) (default_rng rt2 seed) ->
  engine.simulate_copy rt1 cohort months decisions shocks cfg seed policy_months_active
  = engine.simulate_copy rt2 cohort months decisions shocks cfg seed
      policy_months_active.
Proof.
  intros Hg.
  assert (H : result_rel eq
                (engine.simulate_copy rt1 cohort months decisions shocks cfg seed
                   policy_months_active)
                (engine.simulate_copy rt2 cohort months decisions shocks cfg seed
                   policy_months_active)).
  { unfold engine.simulate_copy. cbv zeta. do 6 same.
    eapply bind_rel.
    - unfold engine.run_months. apply (foldM_rel (same_locals R)).
      + intros st1 st2 month Hst. now apply simulate_month_rel.
      + unfold same_locals. cbn. repeat split; try reflexivity. exact Hg.
    - intros st1 st2 (_ & Hc & _ & _ & _ & _ & _ & _ & _ & _ & Hts & Hrec).
      unfold engine.working_copy. rewrite Hc, Hts, Hrec.
      same. rewrite build_leaderboard_same. same. reflexivity. }
  destruct (engine.simulate_copy rt1 _ _ _ _ _ _ _),
           (engine.simulate_copy rt2 _ _ _ _ _ _ _); simpl in H;
    try contradiction; now subst.
Qed.

End Reproducible.

(** C1: two calls of [simulate_round] with the same arguments have the same
    outcome, the same exception or the same advanced cohort, timestep
    results, round summary and scored table.  A call leaves the caller's
    cohort in place behind its reference, and a second call has the outcome
    of the first on any heap that holds that cohort there, the heap that
    the first call left among them, whatever else differs between the two
    calls: what the configuration directory holds, as long as the bundle in
    use is the same, and the state and the making of the generator, as long
    as the seed yields the same stream of draws.  The seed, the arguments
    and the functions [exp] and [sqrt] are all that the outcome depends
    on. *)
Theorem simulate_round_deterministic (rt1 rt2 : Numpy)
    (load1 load2 : result utils.ConfigBundle) (h : engine.heap)
    (cohort : engine.loc) (months : Z)
    (decisions : option policies.Decisions) (shocks : option (list shocks.Shock))
    (config_bundle : option utils.ConfigBundle) (seed : Z)
    (policy_months_active : option (dict.t Z)) :
  np_exp rt1 = np_exp rt2 -> np_sqrt rt1 = np_sqrt rt2 ->
  same_stream rt1 rt2 seed ->
  bundle_in_use load1 config_bundle = bundle_in_use load2 config_bundle ->
  let first :=
    engine.simulate_round rt1 load1 h cohort months decisions shocks
      config_bundle seed policy_months_active in
  fst first !! cohort = h !! cohort /\
  forall h2,
    h2 !! cohort = h !! cohort ->
    same_outcome first
      (engine.simulate_round rt2 load2 h2 cohort months decisions shocks
         config_bundle seed policy_months_active).
Proof.
  intros Hexp Hsqrt [R [Hseed Hdraws]] Hcfg first.
  split; [apply simulate_round_keeps_cohort|].
  intros h2 Hcohort. subst first.
  pose proof (simulate_round_outcome rt1 load1 h cohort months decisions
                shocks config_bundle seed policy_months_active) as H1.
  pose proof (simulate_round_outcome rt2 load2 h2 cohort months decisions
                shocks config_bundle seed policy_months_active) as H2.
  cbv zeta in H1, H2. unfold same_outcome.
  assert (Hsame : round_of rt1 load1 (h !! cohort) months decisions shocks
                    config_bundle seed policy_months_active
                  = round_of rt2 load2 (h2 !! cohort) months decisions shocks
                      config_bundle seed policy_months_active).
  { unfold round_of. rewrite Hcfg, Hcohort.
    destruct (bundle_in_use load2 config_bundle) as [cfg|e]; [|reflexivity].
    cbn [bind]. destruct (h !! cohort) as [c|]; [|reflexivity].
    now apply (simulate_copy_rel rt1 rt2 R). }
  rewrite <- Hsame in H2.
  destruct (round_of rt1 load1 (h !! cohort) months decisions shocks
              config_bundle seed policy_months_active)
    as [[[[advanced ts] sm] lb]|e].
  - destruct H1 as [-> Hfirst], H2 as [-> Hsecond].
    split; [|auto]. exists advanced. split; assumption.
  - rewrite H1, H2. reflexivity.
Qed.

(** ** Probabilities compared with a draw *)

Lemma probability_of_lower_bound (rt : Numpy) (lp dt_months : Q) :
  exp_bounds rt -> 0 <= lp -> 0 < dt_months ->
  1 - 1 / (1 + (1 + lp) * (dt_months / 12)) <= probability_of rt lp dt_months.
Proof.
  intros [Hlow Hneg] Hlp Hdt. unfold probability_of.
  set (h := np_exp rt lp).
  assert (Hh : 1 + lp <= h) by (apply Hlow; exact Hlp).
  assert (Hmax : maximum h 0 = h).
  { destruct (maximum_cases h 0) as [[? _]|[_ E]]; [lra|exact E]. }
  rewrite Hmax.
  set (y := - h * (dt_months / 12.0)).
  assert (Hy : y == - (h * (dt_months / 12))) by (unfold y; field).
  assert (Hhd : (1 + lp) * (dt_months / 12) <= h * (dt_months / 12)).
  { apply Qmult_le_compat_r; [exact Hh|]. apply Qle_shift_div_l; lra. }
  assert (Hd0 : 0 <= (1 + lp) * (dt_months / 12)).
  { apply Qmult_le_0_compat; [lra|]. apply Qle_shift_div_l; lra. }
  assert (Hy0 : y <= 0) by lra.
  pose proof (Hneg y Hy0) as He.
  assert (Hinv : 1 / (1 - y) <= 1 / (1 + (1 + lp) * (dt_months / 12))).
  { apply Qle_shift_div_l; [lra|].
    assert (Hq : 1 / (1 - y) * (1 - y) == 1) by (field; lra).
    assert (Hpos : 0 <= 1 / (1 - y)).
    { apply Qle_shift_div_l; lra. }
    assert (1 / (1 - y) * (1 + (1 + lp) * (dt_months / 12))
            <= 1 / (1 - y) * (1 - y)); [|lra].
    rewrite !(Qmult_comm (1 / (1 - y))).
    apply Qmult_le_compat_r; [lra|exact Hpos]. }
  assert (Hb1 : 1 / (1 + (1 + lp) * (dt_months / 12)) <= 1).
  { apply Qle_shift_div_r; lra. }
  assert (Hb0 : 0 <= 1 / (1 + (1 + lp) * (dt_months / 12))).
  { apply Qle_shift_div_l; lra. }
  unfold clip.
  destruct (maximum_cases (1.0 - np_exp rt y) 0.0) as [[? ->]|[? ->]];
    [lra|].
  destruct (minimum_cases (1.0 - np_exp rt y) 1.0) as [[? ->]|[? ->]]; lra.
Qed.

Lemma transition_probs_recovery (rt : Numpy) :
  engine.transition_probs rt example.bundle
    (shocks.active_shock_modifiers example.industrial_action)
    "disability_recovery"
    [ ("age", [70; 80; 90]); ("imd_quintile", [1; 3; 5]);
      ("community_capacity", [0; 0; 0]); ("ltc_level", [0; 1; 2]);
      ("disability", [0; 1; 1]); ("heat_exposure", [0; 0; 0]);
      ("cold_exposure", [0; 0; 0]); ("hospitalised", [0; 0; 1]) ]
    [] (bool_astype [true; true; true])
  = Ok (let p := probability_of rt (100 + (0.0 + 0.0)) (inject_Z 1) in
        [p * 1; p * 1; p * 1]).
Proof. reflexivity. Qed.

Lemma scaled_above_one (p m : Q) :
  0.000001 <= m -> m < p -> 1 < p / maximum m 0.000001.
Proof.
  intros Hm Hp.
  destruct (maximum_cases m 0.000001) as [[? ->]|[? ->]].
  - lra.
  - apply Qlt_shift_div_l; lra.
Qed.

Section UnitInterval.
Context (rt : Numpy).

Lemma broadcast2_Forall {A B C : Type} (f : A -> B -> C) (P : A -> Prop)
    (Q : B -> Prop) (R : C -> Prop) (a : list A) (b : list B) (c : list C) :
  (forall x y, P x -> Q y -> R (f x y)) ->
  broadcast2 f a b = Ok c -> Forall P a -> Forall Q b -> Forall R c.
Proof.
  intros Hf. unfold broadcast2.
  assert (Hzip : forall a b, Forall P a -> Forall Q b -> Forall R (zip_with f a b)).
  { intros a0 b0 Ha. revert b0. induction Ha as [|x a0 Hx Ha IH]; intros b0 Hb.
    - constructor.
    - destruct Hb as [|y b0 Hy Hb]; simpl; [constructor|].
      constructor; [now apply Hf|now apply IH]. }
  assert (Hmap_l : forall x b, P x -> Forall Q b -> Forall R (map (f x) b)).
  { intros x b0 Hx Hb. induction Hb as [|y b0 Hy Hb IH]; simpl; constructor.
    - now apply Hf.
    - exact IH. }
  assert (Hmap_r : forall y a, Q y -> Forall P a -> Forall R (map (fun x => f x y) a)).
  { intros y a0 Hy Ha. induction Ha as [|x a0 Hx Ha IH]; simpl; constructor.
    - now apply Hf.
    - exact IH. }
  destruct (length a =? length b)%nat.
  - intros [= <-] Ha Hb. now apply Hzip.
  - intros H Ha Hb.
    destruct a as [|x [|x' a]].
    + destruct b as [|y [|y' b]]; try discriminate. injection H as <-. constructor.
    + injection H as <-. inversion Ha; subst. now apply (Hmap_l x b).
    + destruct b as [|y [|y' b]]; try discriminate. injection H as <-.
      inversion Hb; subst. now apply (Hmap_r y (x :: x' :: a)).
Qed.

Lemma log_hazard_to_probability_unit (lp : ndarray) (dt_months : Q) :
  Forall unit_interval (hazards.log_hazard_to_probability rt lp dt_months).
Proof.
  unfold hazards.log_hazard_to_probability, hazards.hazard_to_probability.
  apply List.Forall_forall. intros p Hp.
  apply in_map_iff in Hp. destruct Hp as [x [<- _]].
  match goal with
  | |- unit_interval (clip ?v _ _) =>
      pose proof (clip_bounds v 0.0 1.0 ltac:(lra)) as Hc
  end.
  unfold unit_interval. lra.
Qed.

Lemma bool_astype_unit (mask : list bool) : Forall unit_interval (bool_astype mask).
Proof.
  unfold bool_astype. apply List.Forall_forall. intros p Hp.
  apply in_map_iff in Hp. destruct Hp as [[|] [<- _]]; unfold unit_interval; simpl; lra.
Qed.

(* every probability vector the month loop builds with [transition_probs]
   lies in [0, 1] ... *)
Lemma transition_probs_unit (cfg : utils.ConfigBundle) (shock_mods : dict.t Q)
    (name : string) (features : dict.t ndarray) (policy_modifiers : dict.t Q)
    (alive : list bool) (probs : ndarray) :
  engine.transition_probs rt cfg shock_mods name features policy_modifiers
    (bool_astype alive) = Ok probs ->
  Forall unit_interval probs.
Proof.
  unfold engine.transition_probs, engine._probability_for_transition. intros H.
  repeat bind_inv H. repeat bind_inv E0.
  injection E0 as <-.
  eapply (broadcast2_Forall Qmult unit_interval unit_interval); [|exact H| |].
  - unfold unit_interval. intros p q Hp Hq. split.
    + apply Qmult_le_0_compat; lra.
    + assert (p * q <= 1 * 1); [|lra]. apply Qmult_le_compat_nonneg; lra.
  - apply log_hazard_to_probability_unit.
  - apply bool_astype_unit.
Qed.

(* ... and so do the severe and the mortality vectors, which are clipped *)
Lemma clipped_unit (f : Q -> Q) (probs : ndarray) :
  Forall unit_interval (map (fun p => clip (f p) 0.0 1.0) probs).
Proof.
  apply List.Forall_forall. intros p Hp.
  apply in_map_iff in Hp. destruct Hp as [x [<- _]].
  pose proof (clip_bounds (f x) 0.0 1.0 ltac:(lra)) as Hc.
  unfold unit_interval. lra.
Qed.

End UnitInterval.

(** C2 (the code departs from it): with the industrial-action shock
    active on the example cohort, whose care homes are empty, the
    disability-persistence multiplier is 0.85 and the recovery
    probabilities, in [0, 1] until then, are each above 1 once divided by
    it, which is how the month loop compares them with its draw.  This
    holds for every exponential within the two classical bounds. *)
Theorem recovery_probability_exceeds_one (rt : Numpy) :
  exp_bounds rt ->
  let shock_mods := shocks.active_shock_modifiers example.industrial_action in
  exists features capacity_modifiers recovery_probs,
    engine._build_features example.cohort = Ok features /\
    capacity.capacity_feedback example.cohort 7.0 (Some (dict.update [] shock_mods))
    = Ok capacity_modifiers /\
    engine.transition_probs rt example.bundle shock_mods "disability_recovery"
      features [] (bool_astype [true; true; true]) = Ok recovery_probs /\
    Forall unit_interval recovery_probs /\
    Forall (fun p => 1 < p)
      (engine.scaled_recovery_probs recovery_probs capacity_modifiers).
Proof.
  intros Hexp shock_mods.
  eexists _, _, _.
  split; [reflexivity|].
  split; [vm_compute; reflexivity|].
  split; [exact (transition_probs_recovery rt)|].
  split.
  - eapply transition_probs_unit. exact (transition_probs_recovery rt).
  - assert (Hp : 0.85 < probability_of rt (100 + (0.0 + 0.0)) (inject_Z 1)).
    { eapply Qlt_le_trans;
        [|apply probability_of_lower_bound; [exact Hexp| |]].
      - apply Qnot_le_lt. intros Hle. vm_compute in Hle. now apply Hle.
      - apply Qle_bool_imp_le. reflexivity.
      - reflexivity. }
    unfold engine.scaled_recovery_probs. cbv zeta. cbn [map].
    repeat constructor;
      (apply scaled_above_one;
       [apply Qle_bool_imp_le; reflexivity
       |eapply Qle_lt_trans; [|rewrite Qmult_1_r; exact Hp];
        apply Qle_bool_imp_le; reflexivity]).
Qed.

Lemma example_exp_bounds : exp_bounds example.numpy.
Proof.
  split.
  - intros x Hx. simpl. unfold example.exp.
    apply Qle_bool_iff in Hx. rewrite Hx, Qred_correct. lra.
  - intros y Hy. simpl. unfold example.exp.
    destruct (Qle_bool 0 y) eqn:E; rewrite Qred_correct; [|lra].
    apply Qle_bool_iff in E.
    assert (H0 : y == 0) by lra. rewrite H0. apply Qle_bool_imp_le. reflexivity.
Defined.

Lemma recovery_probability_exceeds_one_witness :
  let shock_mods := shocks.active_shock_modifiers example.industrial_action in
  exists features capacity_modifiers recovery_probs,
    engine._build_features example.cohort = Ok features /\
    capacity.capacity_feedback example.cohort 7.0 (Some (dict.update [] shock_mods))
    = Ok capacity_modifiers /\
    engine.transition_probs example.numpy example.bundle shock_mods
      "disability_recovery" features [] (bool_astype [true; true; true])
    = Ok recovery_probs /\
    Forall unit_interval recovery_probs /\
    Forall (fun p => 1 < p)
      (engine.scaled_recovery_probs recovery_probs capacity_modifiers).
Proof.
  exact (recovery_probability_exceeds_one example.numpy example_exp_bounds).
Defined.

Lemma missing_transition_raises_witness :
  let outcome :=
    engine.simulate_round example.numpy (Ok example.bundle) [example.cohort] 0%nat 2
      (Some example.decisions) None (Some example.bundle_without_mortality) 456 None in
  raises (snd outcome) /\
  fst outcome !! 0%nat = [example.cohort] !! 0%nat /\
  forall l, (l < length [example.cohort])%nat ->
            fst outcome !! l = [example.cohort] !! l.
Proof.
  apply (missing_transition_raises example.numpy (Ok example.bundle)
           [example.cohort] 0%nat 2 (Some example.decisions) None
           (Some example.bundle_without_mortality) 456 None
           example.bundle_without_mortality "mortality").
  - reflexivity.
  - simpl. tauto.
  - reflexivity.
Defined.

Lemma simulate_round_deterministic_witness :
  same_outcome example.run
    (engine.simulate_round example.numpy_counting (Raise ValueError)
       example.heap_after 0%nat 2 (Some example.decisions)
       (Some example.industrial_action) (Some example.bundle) 456 None).
Proof.
  destruct (simulate_round_deterministic example.numpy example.numpy_counting
              (Ok example.bundle) (Raise ValueError) [example.cohort] 0%nat 2
              (Some example.decisions) (Some example.industrial_action)
              (Some example.bundle) 456 None) as [Hkeeps Hsame].
  - reflexivity.
  - reflexivity.
  - exists (fun s g => fst g = s). split; [reflexivity|].
    split; [intros g1 [s n] H|intros shape scale g1 [s n] H];
      simpl in H; subst g1; simpl; split; reflexivity.
  - reflexivity.
  - exact (Hsame example.heap_after Hkeeps).
Defined.

(** * Further properties of the code *)

(** ** hazards.py *)

Lemma get_Forall {V : Type} (P : string * V -> Prop) (d : dict.t V) (k : string) (v : V) :
  Forall P d -> dict.get d k = Some v -> P (k, v).
Proof.
  induction 1 as [|[k0 v0] d H0 Hd IH]; simpl; [discriminate|].
  destruct (String.eqb k0 k) eqn:E.
  - apply String.eqb_eq in E. subst k0. intros [= <-]. exact H0.
  - exact IH.
Qed.

Lemma predictor_loop (n : nat) (features : dict.t ndarray) (coefficients : dict.t Q)
    (lp0 : ndarray) :
  columns_of_length n features -> length lp0 = n ->
  exists lp,
    foldM
      (fun lp kc =>
         match dict.get features (fst kc) with
         | None => Ok lp
         | Some values => broadcast2 Qplus lp (map (fun v => snd kc * v) values)
         end)
      coefficients lp0 = Ok lp /\
    length lp = n /\
    forall i, (i < n)%nat ->
      nth i lp 0 == nth i lp0 0 + linear_terms i coefficients features.
Proof.
  intros Hf. revert lp0.
  induction coefficients as [|[k c] coefficients IH]; intros lp0 Hlen.
  - exists lp0. split; [reflexivity|]. split; [exact Hlen|]. intros i _. simpl. lra.
  - rewrite foldM_cons. cbn [fst snd].
    destruct (dict.get features k) as [values|] eqn:Eget.
    + pose proof (get_Forall _ _ _ _ Hf Eget) as Hv. cbn [snd] in Hv.
      rewrite broadcast2_same by (rewrite length_map; congruence).
      cbn [bind].
      destruct (IH (zip_with Qplus lp0 (map (fun v => c * v) values))) as [lp [E [Hl Hn]]].
      { rewrite length_zip_with, length_map. lia. }
      exists lp. split; [exact E|]. split; [exact Hl|].
      intros i Hi. rewrite (Hn i Hi). simpl. rewrite Eget.
      rewrite (nth_zip_with Qplus _ _ i 0 0 0) by (rewrite ?length_map; lia).
      rewrite (nth_map' (fun v => c * v) values i 0 0) by lia. lra.
    + cbn [bind]. destruct (IH lp0 Hlen) as [lp [E [Hl Hn]]].
      exists lp. split; [exact E|]. split; [exact Hl|].
      intros i Hi. rewrite (Hn i Hi). simpl. rewrite Eget. lra.
Qed.

(** X1: on a non-empty feature mapping whose arrays all have [n] entries,
    [log_linear_predictor] returns an array of [n] entries, and the entry
    of individual [i] is the intercept plus, for each coefficient whose
    key is a feature, the coefficient times the individual's feature
    value; a coefficient on a key that is no feature adds nothing. *)
Theorem log_linear_predictor_sum (n : nat) (intercept : Q) (coefficients : dict.t Q)
    (features : dict.t ndarray) :
  features <> [] -> columns_of_length n features ->
  exists lp,
    hazards.log_linear_predictor intercept coefficients features = Ok lp /\
    length lp = n /\
    forall i, (i < n)%nat ->
      nth i lp 0 == intercept + linear_terms i coefficients features.
Proof.
  intros Hne Hf. unfold hazards.log_linear_predictor.
  destruct features as [|[k0 v0] rest]; [contradiction|].
  cbn [dict.values map snd bind].
  assert (Hv0 : length v0 = n) by (inversion Hf; assumption).
  destruct (predictor_loop n ((k0, v0) :: rest) coefficients (map (fun _ => intercept) v0) Hf)
    as [lp [E [Hl Hn]]].
  { now rewrite length_map. }
  exists lp. split; [exact E|]. split; [exact Hl|].
  intros i Hi. rewrite (Hn i Hi).
  rewrite (nth_map' (fun _ => intercept) v0 i 0 0) by lia. reflexivity.
Qed.

Lemma log_linear_predictor_sum_witness :
  exists lp,
    hazards.log_linear_predictor (-3) [("age", 0.02); ("frailty", 5); ("imd", 0.1)]
      [("age", [70; 80]); ("imd", [1; 5])] = Ok lp /\
    length lp = 2%nat /\
    forall i, (i < 2)%nat ->
      nth i lp 0 == -3 + linear_terms i [("age", 0.02); ("frailty", 5); ("imd", 0.1)]
                          [("age", [70; 80]); ("imd", [1; 5])].
Proof.
  apply (log_linear_predictor_sum 2).
  - discriminate.
  - repeat constructor.
Defined.

(** X2: whatever the exponential returns, [hazard_to_probability] yields
    one value per hazard and every value lies in [0, 1]. *)
Theorem hazard_to_probability_unit (rt : Numpy) (hazard : ndarray) (dt_months : Q) :
  length (hazards.hazard_to_probability rt hazard dt_months) = length hazard /\
  Forall unit_interval (hazards.hazard_to_probability rt hazard dt_months).
Proof.
  unfold hazards.hazard_to_probability. split.
  - now rewrite !length_map.
  - apply List.Forall_forall. intros p Hp.
    apply in_map_iff in Hp. destruct Hp as [q [<- _]].
    pose proof (clip_bounds q 0.0 1.0). unfold unit_interval. lra.
Qed.

Lemma maximum_monotone (x y lo : Q) : x <= y -> maximum x lo <= maximum y lo.
Proof.
  intros H.
  destruct (maximum_cases x lo) as [[? E1]|[? E1]];
    destruct (maximum_cases y lo) as [[? E2]|[? E2]]; rewrite E1, E2; lra.
Qed.

Lemma minimum_monotone (x y hi : Q) : x <= y -> minimum x hi <= minimum y hi.
Proof.
  intros H.
  destruct (minimum_cases x hi) as [[? E1]|[? E1]];
    destruct (minimum_cases y hi) as [[? E2]|[? E2]]; rewrite E1, E2; lra.
Qed.

Lemma clip_monotone (x y lo hi : Q) : x <= y -> clip x lo hi <= clip y lo hi.
Proof. intros H. unfold clip. now apply minimum_monotone, maximum_monotone. Qed.

(** X3: with a monotone exponential and a non-negative time step, a larger
    hazard never gives a smaller probability. *)
Theorem hazard_to_probability_monotone (rt : Numpy) (low high : ndarray)
    (dt_months : Q) :
  exp_monotone rt -> 0 <= dt_months -> Forall2 Qle low high ->
  Forall2 Qle (hazards.hazard_to_probability rt low dt_months)
              (hazards.hazard_to_probability rt high dt_months).
Proof.
  intros Hexp Hdt H. unfold hazards.hazard_to_probability.
  induction H as [|a b low high Hab H IH]; simpl; constructor; [|exact IH].
  apply clip_monotone.
  assert (Hm : maximum a 0 <= maximum b 0) by now apply maximum_monotone.
  assert (Harg : - maximum b 0 * (dt_months / 12.0) <= - maximum a 0 * (dt_months / 12.0)).
  { assert (0 <= dt_months / 12.0) by (apply Qle_shift_div_l; lra). nra. }
  pose proof (Hexp _ _ Harg). lra.
Qed.

(** X4: with an exponential that is 1 at 0, a hazard that is not positive
    gives probability 0, and so does any hazard over a time step of 0. *)
Theorem hazard_to_probability_zero (rt : Numpy) (hazard : ndarray) (dt_months : Q) :
  exp_zero rt ->
  Forall (fun h => h <= 0) hazard \/ dt_months == 0 ->
  Forall (fun p => p == 0) (hazards.hazard_to_probability rt hazard dt_months).
Proof.
  intros Hexp H. unfold hazards.hazard_to_probability.
  rewrite map_map. apply List.Forall_forall. intros p Hp.
  apply in_map_iff in Hp. destruct Hp as [h [<- Hin]].
  assert (Harg : - maximum h 0 * (dt_months / 12.0) == 0).
  { destruct H as [H|H].
    - rewrite List.Forall_forall in H. specialize (H h Hin).
      destruct (maximum_cases h 0) as [[? ->]|[? ->]]; [lra|].
      assert (h == 0) as -> by lra. field.
    - rewrite H. field. }
  pose proof (Hexp _ Harg) as Hone.
  unfold clip.
  destruct (maximum_cases (1.0 - np_exp rt (- maximum h 0 * (dt_months / 12.0))) 0.0)
    as [[? ->]|[? ->]].
  - destruct (minimum_cases 0.0 1.0) as [[? ->]|[? ->]]; lra.
  - destruct (minimum_cases (1.0 - np_exp rt (- maximum h 0 * (dt_months / 12.0))) 1.0)
      as [[? ->]|[? ->]]; lra.
Qed.

Lemma inverse_antitone (x y : Q) : x <= y -> y < 0 -> 1 / (1 - x) <= 1 / (1 - y).
Proof.
  intros H Hy.
  apply Qle_shift_div_l; [lra|].
  assert (Hq : 1 / (1 - x) * (1 - x) == 1) by (field; lra).
  assert (Hpos : 0 <= 1 / (1 - x)) by (apply Qle_shift_div_l; lra).
  assert (1 / (1 - x) * (1 - y) <= 1 / (1 - x) * (1 - x)); [|lra].
  rewrite !(Qmult_comm (1 / (1 - x))).
  apply Qmult_le_compat_r; [lra|exact Hpos].
Qed.

Lemma example_exp_monotone : exp_monotone example.numpy.
Proof.
  intros x y H. simpl. unfold example.exp. rewrite !Qred_correct.
  destruct (Qle_bool 0 x) eqn:Ex; destruct (Qle_bool 0 y) eqn:Ey;
    try apply (leb_true 0 x) in Ex; try apply (leb_false 0 x) in Ex;
    try apply (leb_true 0 y) in Ey; try apply (leb_false 0 y) in Ey.
  - lra.
  - lra.
  - assert (1 / (1 - x) <= 1) by (apply Qle_shift_div_r; lra). lra.
  - now apply inverse_antitone.
Defined.

Lemma example_exp_zero : exp_zero example.numpy.
Proof.
  intros x H. simpl. unfold example.exp. rewrite Qred_correct.
  assert (E : Qle_bool 0 x = true) by (apply Qle_bool_iff; lra).
  rewrite E. lra.
Defined.

Lemma hazard_to_probability_monotone_witness :
  Forall2 Qle (hazards.hazard_to_probability example.numpy [0.1; 2] 1)
              (hazards.hazard_to_probability example.numpy [0.3; 2] 1).
Proof.
  apply (hazard_to_probability_monotone example.numpy [0.1; 2] [0.3; 2] 1).
  - exact example_exp_monotone.
  - lra.
  - repeat constructor; lra.
Defined.

Lemma hazard_to_probability_zero_witness :
  Forall (fun p => p == 0) (hazards.hazard_to_probability example.numpy [-1; 0] 3).
Proof.
  apply (hazard_to_probability_zero example.numpy [-1; 0] 3).
  - exact example_exp_zero.
  - left. repeat constructor; lra.
Defined.

(** ** policies.py *)

Section Policies.
Context (rt : Numpy).

Lemma ramp_unit (a : policies.ActivePolicy) : 0 <= policies.ramp rt a <= 1.
Proof.
  unfold policies.ramp.
  destruct (policies.months_active a <=? Z.max (utils.lag_months (policies.policy a)) 0)%Z.
  - lra.
  - match goal with |- 0 <= clip ?x _ _ <= 1 => pose proof (clip_bounds x 0.0 1.0) end. lra.
Qed.

Lemma diminishing_multiplier_unit (a : policies.ActivePolicy) :
  0 <= policies.diminishing_multiplier a <= 1.
Proof.
  unfold policies.diminishing_multiplier.
  pose proof (clip_bounds (policies.intensity a) 0.0 1.0) as Hc.
  set (c := clip (policies.intensity a) 0.0 1.0) in *.
  set (dr := utils.diminishing_return (policies.policy a)).
  assert (Hd : 0 <= maximum 0.0 (minimum 1.0 dr) <= 1).
  { destruct (minimum_cases 1.0 dr) as [[? ->]|[? ->]];
      [destruct (maximum_cases 0.0 dr) as [[? ->]|[? ->]]
      |destruct (maximum_cases 0.0 1.0) as [[? ->]|[? ->]]]; lra. }
  set (dim := maximum 0.0 (minimum 1.0 dr)) in *.
  assert (0 <= c <= 1) by lra. nra.
Qed.

(** X5: the effect strength of an active policy always lies in [0, 1],
    whatever its intensity, lag, diminishing return and months active. *)
Theorem effect_strength_unit (a : policies.ActivePolicy) :
  0 <= policies.effect_strength rt a <= 1.
Proof.
  unfold policies.effect_strength.
  pose proof (clip_bounds (policies.intensity a) 0.0 1.0) as Hc.
  pose proof (ramp_unit a) as Hr.
  pose proof (diminishing_multiplier_unit a) as Hd.
  set (c := clip (policies.intensity a) 0.0 1.0) in *.
  set (r := policies.ramp rt a) in *.
  set (d := policies.diminishing_multiplier a) in *.
  assert (Hc' : 0 <= c <= 1) by lra.
  assert (Hcr : 0 <= c * r <= 1) by nra.
  nra.
Qed.

Lemma dormant_strength (a : policies.ActivePolicy) :
  dormant a -> leb (policies.effect_strength rt a) 0 = true.
Proof.
  intros H. apply leb_true. unfold policies.effect_strength.
  pose proof (clip_bounds (policies.intensity a) 0.0 1.0) as Hc.
  pose proof (ramp_unit a) as Hr.
  pose proof (diminishing_multiplier_unit a) as Hd.
  destruct H as [H|H].
  - assert (Hz : policies.ramp rt a = 0.0).
    { unfold policies.ramp. apply Z.leb_le in H. now rewrite H. }
    rewrite Hz. nra.
  - assert (Hz : clip (policies.intensity a) 0.0 1.0 <= 0).
    { unfold clip.
      destruct (maximum_cases (policies.intensity a) 0.0) as [[? ->]|[? ->]].
      - destruct (minimum_cases 0.0 1.0) as [[? ->]|[? ->]]; lra.
      - destruct (minimum_cases (policies.intensity a) 1.0) as [[? ->]|[? ->]]; lra. }
    set (c := clip (policies.intensity a) 0.0 1.0) in *.
    set (r := policies.ramp rt a) in *.
    set (d := policies.diminishing_multiplier a) in *.
    assert (c == 0) by lra.
    assert (c * r * d == 0) by (rewrite H0; ring). lra.
Qed.

(** X6: a policy that is still within its lag (months active at most
    max(lag, 0)) or whose intensity is not positive adds nothing to the
    aggregated modifiers, wherever it stands among the active policies. *)
Theorem dormant_policy_adds_nothing (before after : list policies.ActivePolicy)
    (a : policies.ActivePolicy) :
  dormant a ->
  policies.aggregate_policy_effects rt (before ++ a :: after)
  = policies.aggregate_policy_effects rt (before ++ after).
Proof.
  intros H. unfold policies.aggregate_policy_effects.
  rewrite !fold_left_app. cbn [fold_left].
  now rewrite (dormant_strength a H).
Qed.

Lemma all_dormant (active : list policies.ActivePolicy) :
  Forall dormant active -> policies.aggregate_policy_effects rt active = [].
Proof.
  unfold policies.aggregate_policy_effects.
  induction 1 as [|a active Ha _ IH]; [reflexivity|].
  cbn [fold_left]. now rewrite (dormant_strength a Ha).
Qed.

End Policies.

Lemma dormant_policy_adds_nothing_witness :
  let falls :=
    {| policies.policy :=
         {| utils.id := "falls_prevention"; utils.name := "Falls prevention";
            utils.description := ""; utils.cost_per_capita := 50;
            utils.effects := [("disability_onset", -0.2)];
            utils.lag_months := 3; utils.diminishing_return := 0.2 |};
       policies.intensity := 0.8;
       policies.months_active := 3 |} in
  policies.aggregate_policy_effects example.numpy ([] ++ falls :: [])
  = policies.aggregate_policy_effects example.numpy ([] ++ []).
Proof.
  intros falls.
  apply (dormant_policy_adds_nothing example.numpy [] [] falls).
  left. simpl. lia.
Defined.

Lemma Forall_set_key {V : Type} (P : string * V -> Prop) (d : dict.t V)
    (k : string) (v : V) :
  Forall P d -> P (k, v) -> Forall P (dict.set d k v).
Proof.
  intros Hd Hv. induction Hd as [|[k0 v0] d H0 Hd IH]; simpl.
  - constructor; [exact Hv|constructor].
  - destruct (String.eqb k0 k) eqn:E.
    + apply String.eqb_eq in E. subst k0. constructor; assumption.
    + constructor; assumption.
Qed.

Lemma Forall_values {V : Type} (P : V -> Prop) (d : dict.t V) :
  Forall (fun kv => P (snd kv)) d -> Forall P (dict.values d).
Proof. unfold dict.values. induction 1; simpl; constructor; auto. Qed.

(** X7: policies whose month counters are all at most 0, as they are
    in the month a policy starts, have no effect: whatever
    [build_active_policies] returns for them, [aggregate_policy_effects]
    turns into the empty modifier mapping. *)
Theorem fresh_policies_have_no_effect (rt : Numpy) (policies_cfg : utils.PoliciesConfig)
    (decisions : option policies.Decisions) (months_elapsed : option (dict.t Z))
    (active : dict.t policies.ActivePolicy) :
  (forall policy_id m,
     dict.get (policies.items_of months_elapsed) policy_id = Some m -> (m <= 0)%Z) ->
  policies.build_active_policies policies_cfg decisions months_elapsed = Ok active ->
  policies.aggregate_policy_effects rt (dict.values active) = [].
Proof.
  intros Hm H. apply all_dormant, Forall_values.
  unfold policies.build_active_policies in H.
  destruct (negb (policies.truthy decisions)); injection H as <-; [constructor|].
  match goal with
  | |- Forall ?P (fold_left ?f ?l ?a) =>
      assert (Hgen : forall acc, Forall P acc -> Forall P (fold_left f l acc))
  end.
  { induction (policies.items_of decisions) as [|[policy_id detail] items IH];
      intros acc Hacc; [exact Hacc|].
    cbn [fold_left]. apply IH.
    destruct (dict.get _ policy_id) as [policy|]; [|exact Hacc].
    apply Forall_set_key; [exact Hacc|].
    left. cbn [snd policies.months_active policies.policy].
    assert ((if policies.truthy months_elapsed
             then dict.get_or (policies.items_of months_elapsed) policy_id 0%Z
             else 0%Z) <= 0)%Z; [|lia].
    destruct (policies.truthy months_elapsed); [|lia].
    unfold dict.get_or.
    destruct (dict.get (policies.items_of months_elapsed) policy_id) as [m|] eqn:E;
      [exact (Hm _ _ E)|lia]. }
  apply Hgen. constructor.
Qed.

Lemma fresh_policies_have_no_effect_witness :
  exists active,
    policies.build_active_policies (utils.policies_cfg example.bundle)
      (Some example.decisions) (Some [("falls_prevention", 0%Z)]) = Ok active /\
    active <> [] /\
    policies.aggregate_policy_effects example.numpy (dict.values active) = [].
Proof.
  eexists. split; [reflexivity|]. split; [discriminate|].
  apply (fresh_policies_have_no_effect example.numpy (utils.policies_cfg example.bundle)
           (Some example.decisions) (Some [("falls_prevention", 0%Z)])).
  - intros policy_id m. cbn [policies.items_of dict.get].
    destruct (String.eqb "falls_prevention" policy_id); [|discriminate].
    intros [= <-]. lia.
  - reflexivity.
Defined.

(** X8: the policy cost is proportional to the cohort size: the cost for
    a cohort of [n] is [n] times the cost for a cohort of one, for every
    catalogue and decision mapping; the call never raises. *)
Theorem calculate_policy_cost_scales (policies_cfg : utils.PoliciesConfig)
    (decisions : option policies.Decisions) (cohort_size : Z) :
  exists cost unit_cost,
    policies.calculate_policy_cost policies_cfg decisions cohort_size = Ok cost /\
    policies.calculate_policy_cost policies_cfg decisions 1 = Ok unit_cost /\
    cost == inject_Z cohort_size * unit_cost.
Proof.
  unfold policies.calculate_policy_cost.
  destruct (negb (policies.truthy decisions)).
  - exists 0.0, 0.0. repeat split. ring.
  - eexists. eexists. split; [reflexivity|]. split; [reflexivity|].
    generalize (dict.of_items
                  (map (fun p => (utils.id p, p)) (utils.policies policies_cfg))).
    intros lookup.
    assert (Hgen : forall items t t1, t == inject_Z cohort_size * t1 ->
      fold_left
        (fun total pd =>
           let '(policy_id, detail) := pd in
           match dict.get lookup policy_id with
           | None => total
           | Some policy =>
               total + utils.cost_per_capita policy * inject_Z cohort_size
                       * dict.get_or detail "intensity" 1.0
                       * dict.get_or detail "coverage" 1.0
           end) items t
      == inject_Z cohort_size *
         fold_left
           (fun total pd =>
              let '(policy_id, detail) := pd in
              match dict.get lookup policy_id with
              | None => total
              | Some policy =>
                  total + utils.cost_per_capita policy * inject_Z 1
                          * dict.get_or detail "intensity" 1.0
                          * dict.get_or detail "coverage" 1.0
              end) items t1).
    { induction items as [|[policy_id detail] items IH]; intros t t1 Ht; [exact Ht|].
      cbn [fold_left]. apply IH.
      destruct (dict.get lookup policy_id) as [policy|]; [|exact Ht].
      rewrite Ht. change (inject_Z 1) with 1. ring. }
    apply Hgen. ring.
Qed.

Lemma get_none_keys {V : Type} (d : dict.t V) (k : string) :
  dict.get d k = None <-> ~ In k (dict.keys d).
Proof.
  induction d as [|[k0 v0] d IH]; simpl.
  - tauto.
  - destruct (String.eqb k0 k) eqn:E.
    + apply String.eqb_eq in E. subst k0. split; [discriminate|]. tauto.
    + apply String.eqb_neq in E. rewrite IH. tauto.
Qed.

Lemma set_fresh {V : Type} (d : dict.t V) (k : string) (v : V) :
  dict.get d k = None -> dict.set d k v = d ++ [(k, v)].
Proof.
  induction d as [|[k0 v0] d IH]; simpl; [reflexivity|].
  destruct (String.eqb k0 k); [discriminate|].
  intros H. now rewrite IH.
Qed.

Lemma catalogue_ids (policies_cfg : utils.PoliciesConfig) :
  Forall (fun kv => utils.id (snd kv) = fst kv)
    (dict.of_items (map (fun p => (utils.id p, p)) (utils.policies policies_cfg))).
Proof.
  unfold dict.of_items, dict.update.
  assert (Hgen : forall (l : list utils.PolicyConfig) acc,
            Forall (fun kv : string * utils.PolicyConfig => utils.id (snd kv) = fst kv) acc ->
            Forall (fun kv : string * utils.PolicyConfig => utils.id (snd kv) = fst kv)
              (fold_left (fun acc kv => dict.set acc (fst kv) (snd kv))
                 (map (fun p => (utils.id p, p)) l) acc)).
  { induction l as [|p l IH]; intros acc Hacc; [exact Hacc|].
    cbn [map fold_left fst snd]. apply IH.
    apply Forall_set_key; [exact Hacc|reflexivity]. }
  apply Hgen. constructor.
Qed.

Lemma catalogue_lookup_iff (policies_cfg : utils.PoliciesConfig) (policy_id : string) :
  in_catalogue policies_cfg policy_id = false <->
  dict.get (dict.of_items (map (fun p => (utils.id p, p)) (utils.policies policies_cfg)))
    policy_id = None.
Proof.
  unfold dict.of_items. rewrite get_update_none, existsb_map_fst.
  unfold in_catalogue. simpl. tauto.
Qed.

(** X9: for a decision mapping, whose keys are distinct,
    [build_active_policies] returns normally; the active policies are
    keyed by exactly the decision ids that the catalogue has, in the order
    of the decisions, and each is the catalogue's policy of that id. *)
Theorem build_active_policies_keys (policies_cfg : utils.PoliciesConfig)
    (decisions : option policies.Decisions) (months_elapsed : option (dict.t Z)) :
  List.NoDup (dict.keys (policies.items_of decisions)) ->
  exists active,
    policies.build_active_policies policies_cfg decisions months_elapsed = Ok active /\
    dict.keys active
    = List.filter (in_catalogue policies_cfg) (dict.keys (policies.items_of decisions)) /\
    Forall (fun kv => utils.id (policies.policy (snd kv)) = fst kv) active.
Proof.
  intros Hnd. unfold policies.build_active_policies.
  destruct (negb (policies.truthy decisions)) eqn:Et.
  - exists []. split; [reflexivity|]. split; [|constructor].
    destruct decisions as [[|? ?]|]; try reflexivity. discriminate.
  - eexists. split; [reflexivity|].
    pose proof (catalogue_ids policies_cfg) as Hids.
    pose proof (catalogue_lookup_iff policies_cfg) as Hcat.
    set (lookup := dict.of_items _) in *.
    match goal with
    | |- dict.keys (fold_left ?f ?l ?a) = _ /\ _ =>
        assert (Hgen : forall acc, List.NoDup (dict.keys l) ->
                  (forall k, In k (dict.keys l) -> ~ In k (dict.keys acc)) ->
                  Forall (fun kv => utils.id (policies.policy (snd kv)) = fst kv) acc ->
                  dict.keys (fold_left f l acc)
                  = dict.keys acc ++ List.filter (in_catalogue policies_cfg) (dict.keys l) /\
                  Forall (fun kv => utils.id (policies.policy (snd kv)) = fst kv)
                    (fold_left f l acc))
    end.
    { clear Hnd Et.
      induction (policies.items_of decisions) as [|[policy_id detail] items IH];
        intros acc Hnd Hfresh Hacc.
      - simpl. rewrite app_nil_r. auto.
      - unfold dict.keys in *. cbn [fold_left map fst List.filter] in *.
        apply List.NoDup_cons_iff in Hnd. destruct Hnd as [Hnotin Hnd].
        destruct (dict.get lookup policy_id) as [policy|] eqn:Eget.
        + assert (Hin : in_catalogue policies_cfg policy_id = true).
          { destruct (in_catalogue policies_cfg policy_id) eqn:E; [reflexivity|].
            apply Hcat in E. congruence. }
          rewrite Hin.
          assert (Hnone : dict.get acc policy_id = None).
          { apply get_none_keys. apply Hfresh. now left. }
          rewrite (set_fresh _ _ _ Hnone).
          destruct (IH (acc ++ [(policy_id,
                     {| policies.policy := policy;
                        policies.intensity := dict.get_or detail "intensity" 1.0;
                        policies.months_active :=
                          if policies.truthy months_elapsed
                          then dict.get_or (policies.items_of months_elapsed) policy_id 0%Z
                          else 0%Z |})]) Hnd) as [Hk Hf].
          * intros k Hk. rewrite map_app, in_app_iff. simpl.
            intros [Hin'|[<-|[]]].
            -- apply (Hfresh k); [now right|exact Hin'].
            -- exact (Hnotin Hk).
          * apply Forall_app. split; [exact Hacc|].
            constructor; [|constructor]. simpl.
            exact (get_Forall _ _ _ _ Hids Eget).
          * split; [|exact Hf].
            rewrite Hk. rewrite map_app. simpl.
            now rewrite <- app_assoc.
        + assert (Hin : in_catalogue policies_cfg policy_id = false) by now apply Hcat.
          rewrite Hin. apply (IH acc Hnd).
          * intros k Hk. apply Hfresh. now right.
          * exact Hacc. }
    apply (Hgen [] Hnd); [intros k _ []|constructor].
Qed.

Lemma build_active_policies_keys_witness :
  exists active,
    policies.build_active_policies (utils.policies_cfg example.bundle)
      (Some (("unknown", []) :: example.decisions)) None = Ok active /\
    dict.keys active
    = List.filter (in_catalogue (utils.policies_cfg example.bundle))
        (dict.keys (policies.items_of (Some (("unknown", []) :: example.decisions)))) /\
    Forall (fun kv => utils.id (policies.policy (snd kv)) = fst kv) active.
Proof.
  apply (build_active_policies_keys (utils.policies_cfg example.bundle)
           (Some (("unknown", []) :: example.decisions)) None).
  simpl. repeat constructor; simpl; intuition discriminate.
Defined.

(** ** shocks.py *)

Lemma modifier_from (k : string) (mods : dict.t Q) (a : Q) :
  fold_right (fun kv acc => if String.eqb (fst kv) k then snd kv + acc else acc) a mods
  == a + fold_right (fun kv acc => if String.eqb (fst kv) k then snd kv + acc else acc)
           0 mods.
Proof.
  induction mods as [|[k0 v0] mods IH]; simpl; [lra|].
  destruct (String.eqb k0 k); rewrite IH; lra.
Qed.

Lemma add_modifiers (k : string) (mods acc : dict.t Q) :
  dict.get_or
    (fold_left (fun acc kv => dict.set acc (fst kv) (dict.get_or acc (fst kv) 0.0 + snd kv))
       mods acc) k 0.0
  == dict.get_or acc k 0.0
     + fold_right (fun kv acc => if String.eqb (fst kv) k then snd kv + acc else acc)
         0 mods.
Proof.
  revert acc. induction mods as [|[k0 v0] mods IH]; intros acc; simpl; [lra|].
  rewrite IH. unfold dict.get_or at 1. rewrite get_set.
  destruct (String.eqb k0 k) eqn:E.
  - apply String.eqb_eq in E. subst k0. lra.
  - fold (dict.get_or acc k 0.0). lra.
Qed.

(** X10: [active_shock_modifiers] adds up, key by key, the modifiers of
    all the shocks it is given: the value under a key is the sum of every
    modifier of that key over the list, a shock listed twice counting
    twice, and 0 (by the default of a lookup) for a key no shock has. *)
Theorem active_shock_modifiers_sum (active : list shocks.Shock) (k : string) :
  dict.get_or (shocks.active_shock_modifiers active) k 0.0 == modifier_total k active.
Proof.
  unfold shocks.active_shock_modifiers.
  assert (Hgen : forall acc,
    dict.get_or
      (fold_left
         (fun acc shock =>
            fold_left
              (fun acc kv => dict.set acc (fst kv) (dict.get_or acc (fst kv) 0.0 + snd kv))
              (shocks.modifiers shock) acc) active acc) k 0.0
    == dict.get_or acc k 0.0 + modifier_total k active).
  { induction active as [|shock active IH]; intros acc; simpl; [lra|].
    rewrite IH, add_modifiers.
    rewrite (modifier_from k (shocks.modifiers shock) (modifier_total k active)). lra. }
  rewrite Hgen. unfold dict.get_or. simpl. lra.
Qed.

Lemma mem_get {V : Type} (d : dict.t V) (k : string) :
  dict.mem d k = true <-> exists v, dict.get d k = Some v.
Proof.
  unfold dict.mem. destruct (dict.get d k) as [v|].
  - split; [intros _; now exists v|reflexivity].
  - split; [discriminate|intros [v H]; discriminate].
Qed.

(** X11: [capacity_feedback] returns exactly when the cohort has the four
    columns it reads (hospitalised, care_home, hospital_beds_per_1k and
    care_home_beds_per_1k); with any of them missing it raises, whatever
    the base length of stay and the modifiers. *)
Theorem capacity_feedback_returns (cohort : states.Cohort) (base_length_of_stay : Q)
    (modifiers : option (dict.t Q)) :
  (exists out, capacity.capacity_feedback cohort base_length_of_stay modifiers = Ok out)
  <-> Forall (fun column => dict.mem (states.data cohort) column = true) capacity_columns.
Proof.
  unfold capacity.capacity_feedback, dict.getitem, capacity_columns. split.
  - intros [out H].
    destruct (dict.get (states.data cohort) "hospitalised") eqn:E1; [|discriminate H].
    destruct (dict.get (states.data cohort) "care_home") eqn:E2; [|discriminate H].
    destruct (dict.get (states.data cohort) "hospital_beds_per_1k") eqn:E3;
      [|discriminate H].
    destruct (dict.get (states.data cohort) "care_home_beds_per_1k") eqn:E4;
      [|discriminate H].
    repeat (constructor; [unfold dict.mem; now rewrite ?E1, ?E2, ?E3, ?E4|]).
    constructor.
  - intros H.
    inversion H as [|? ? H1 Ha]; subst. inversion Ha as [|? ? H2 Hb]; subst.
    inversion Hb as [|? ? H3 Hc]; subst. inversion Hc as [|? ? H4 _]; subst.
    apply mem_get in H1, H2, H3, H4.
    destruct H1 as [? ->], H2 as [? ->], H3 as [? ->], H4 as [? ->].
    eexists. reflexivity.
Qed.

Lemma maximum_ge_left (a b : Q) : a <= maximum a b.
Proof. destruct (maximum_cases a b) as [[? ->]|[? ->]]; lra. Qed.

(** X12: capacity pressure never relieves: whenever [capacity_feedback]
    returns, the mortality multiplier is at least 1; with a non-negative
    capacity_community modifier the disability persistence is at least 1;
    and with a non-negative capacity_hospital modifier and base length of
    stay, the length of stay is at least the base. *)
Theorem capacity_feedback_never_relieves (cohort : states.Cohort)
    (base_length_of_stay : Q) (modifiers : option (dict.t Q)) (out : dict.t Q) :
  capacity.capacity_feedback cohort base_length_of_stay modifiers = Ok out ->
  exists length_of_stay mortality_multiplier disability_persistence,
    dict.get out "length_of_stay" = Some length_of_stay /\
    dict.get out "mortality_multiplier" = Some mortality_multiplier /\
    dict.get out "disability_persistence" = Some disability_persistence /\
    1 <= mortality_multiplier /\
    (0 <= dict.get_or (policies.items_of modifiers) "capacity_community" 0.0 ->
     1 <= disability_persistence) /\
    (0 <= dict.get_or (policies.items_of modifiers) "capacity_hospital" 0.0 ->
     0 <= base_length_of_stay ->
     base_length_of_stay <= length_of_stay).
Proof.
  unfold capacity.capacity_feedback, dict.getitem. intros H.
  destruct (dict.get (states.data cohort) "hospitalised") as [h|]; [|discriminate H].
  destruct (dict.get (states.data cohort) "care_home") as [c|]; [|discriminate H].
  destruct (dict.get (states.data cohort) "hospital_beds_per_1k") as [hb|];
    [|discriminate H].
  destruct (dict.get (states.data cohort) "care_home_beds_per_1k") as [cb|];
    [|discriminate H].
  cbn [bind] in H. injection H as <-.
  eexists _, _, _. split; [reflexivity|]. split; [reflexivity|]. split; [reflexivity|].
  match goal with
  | |- context [maximum 0.0 ?x * 0.3] => pose proof (maximum_ge_left 0.0 x) as Hh;
                                            set (hp := maximum 0.0 x) in *
  end.
  match goal with
  | |- context [maximum 0.0 ?x * 0.15] => pose proof (maximum_ge_left 0.0 x) as Hc;
                                             set (cp := maximum 0.0 x) in *
  end.
  split; [lra|]. split.
  - intros Hm. set (m := dict.get_or _ _ _) in *. nra.
  - intros Hm Hb. set (m := dict.get_or _ _ _) in *.
    assert (1 <= (1.0 + hp * 0.3) * (1.0 + m)) by nra. nra.
Qed.

Lemma capacity_feedback_never_relieves_witness :
  exists length_of_stay mortality_multiplier disability_persistence,
    capacity.capacity_feedback example.cohort 7 None
    = Ok [ ("length_of_stay", length_of_stay);
           ("mortality_multiplier", mortality_multiplier);
           ("disability_persistence", disability_persistence) ] /\
    1 <= mortality_multiplier /\ 1 <= disability_persistence /\ 7 <= length_of_stay.
Proof.
  destruct (capacity_feedback_never_relieves example.cohort 7 None _ eq_refl)
    as (los & mort & dis & Hlos & Hmort & Hdis & H1 & H2 & H3).
  exists los, mort, dis.
  injection Hlos as <-. injection Hmort as <-. injection Hdis as <-.
  split; [reflexivity|]. split; [exact H1|]. split.
  - apply H2. apply Qle_bool_imp_le. reflexivity.
  - apply H3; apply Qle_bool_imp_le; reflexivity.
Defined.

Lemma fold_minimum_le (l : ndarray) (x : Q) :
  fold_left minimum l x <= x /\ Forall (fun e => fold_left minimum l x <= e) l.
Proof.
  revert x. induction l as [|y l IH]; intros x; simpl.
  - split; [lra|constructor].
  - destruct (IH (minimum x y)) as [H1 H2].
    destruct (minimum_cases x y) as [[? E]|[? E]]; rewrite E in *.
    + split; [lra|]. constructor; [lra|exact H2].
    + split; [lra|]. constructor; [lra|exact H2].
Qed.

Lemma fold_minimum_in (l : ndarray) (x : Q) : In (fold_left minimum l x) (x :: l).
Proof.
  revert x. induction l as [|y l IH]; intros x; simpl.
  - now left.
  - destruct (IH (minimum x y)) as [H|H].
    + destruct (minimum_cases x y) as [[? E]|[? E]]; rewrite E in *; simpl; auto.
    + right. right. exact H.
Qed.

Lemma series_min_le (values : ndarray) :
  Forall (fun v => scoring.series_min values <= v) values.
Proof.
  destruct values as [|x l]; [constructor|]. simpl.
  destruct (fold_minimum_le l x) as [H1 H2]. constructor; assumption.
Qed.

Lemma series_max_ge (values : ndarray) :
  Forall (fun v => v <= scoring.series_max values) values.
Proof.
  destruct values as [|x l]; [constructor|]. simpl.
  destruct (fold_maximum_ge l x) as [H1 H2]. constructor; assumption.
Qed.

Lemma series_min_in (values : ndarray) :
  values <> [] -> In (scoring.series_min values) values.
Proof. destruct values as [|x l]; [congruence|]. intros _. apply fold_minimum_in. Qed.

Lemma series_max_in (values : ndarray) :
  values <> [] -> In (scoring.series_max values) values.
Proof. destruct values as [|x l]; [congruence|]. intros _. apply fold_maximum_in. Qed.

Lemma maximum_ge_right (a b : Q) : b <= maximum a b.
Proof. destruct (maximum_cases a b) as [[? ->]|[? ->]]; lra. Qed.

Lemma isclose_eq (a b : Q) : a == b -> scoring.isclose a b = true.
Proof.
  intros H. unfold scoring.isclose. apply leb_true.
  assert (Hz : Qabs (a - b) == 0).
  { assert (E : a - b == 0) by lra. rewrite E. reflexivity. }
  rewrite Hz.
  match goal with |- _ <= maximum ?x ?y => pose proof (maximum_ge_right x y) end. lra.
Qed.

Lemma isclose_apart (a b : Q) : scoring.isclose a b = false -> ~ a == b.
Proof. intros H E. rewrite (isclose_eq a b E) in H. discriminate. Qed.

(** X13: under min-max normalisation (any method other than "zscore")
    [_normalise] returns one score per row, every score lies in [0, 1],
    and either every score is 0 (the values are all close to each other)
    or some row scores 0 and some row scores 1. *)
Theorem normalise_minmax_unit (rt : Numpy) (series : ndarray) (method : string)
    (direction : Z) (scores : ndarray) :
  method <> "zscore" ->
  scoring._normalise rt (scoring.Float series) method direction = Ok scores ->
  length scores = length series /\
  Forall unit_interval scores /\
  (Forall (fun x => x = 0) scores \/
   (Exists (fun x => x == 0) scores /\ Exists (fun x => x == 1) scores)).
Proof.
  intros Hm H. unfold scoring._normalise in H.
  apply String.eqb_neq in Hm. rewrite Hm in H.
  set (values := map (fun v => v * inject_Z direction) series) in *.
  destruct (scoring.isclose (scoring.series_max values) (scoring.series_min values))
    eqn:Eclose; injection H as <-.
  - split; [unfold zeros, values; now rewrite repeat_length, length_map|].
    split; [|left].
    + unfold zeros. apply List.Forall_forall. intros x Hx.
      apply repeat_spec in Hx. subst x. unfold unit_interval. lra.
    + unfold zeros. apply List.Forall_forall. intros x Hx.
      now apply repeat_spec in Hx.
  - assert (Hne : values <> []).
    { intros E. rewrite E in Eclose. vm_compute in Eclose. discriminate. }
    pose proof (series_min_le values) as Hmin.
    pose proof (series_max_ge values) as Hmax.
    pose proof (series_min_in values Hne) as Imin.
    pose proof (series_max_in values Hne) as Imax.
    apply isclose_apart in Eclose.
    set (lo := scoring.series_min values) in *.
    set (hi := scoring.series_max values) in *.
    assert (Hlohi : lo < hi).
    { rewrite List.Forall_forall in Hmin. pose proof (Hmin hi Imax).
      destruct (Qlt_le_dec lo hi); [assumption|].
      exfalso. apply Eclose. lra. }
    split; [unfold values; now rewrite !length_map|]. split; [|right; split].
    + apply List.Forall_forall. intros x Hx.
      apply in_map_iff in Hx. destruct Hx as [v [<- Hv]].
      rewrite List.Forall_forall in Hmin, Hmax.
      pose proof (Hmin v Hv). pose proof (Hmax v Hv). unfold unit_interval. split.
      * apply Qle_shift_div_l; lra.
      * apply Qle_shift_div_r; lra.
    + apply List.Exists_exists. exists ((lo - lo) / (hi - lo)). split.
      * apply (in_map (fun v => (v - lo) / (hi - lo))). exact Imin.
      * field. lra.
    + apply List.Exists_exists. exists ((hi - lo) / (hi - lo)). split.
      * apply (in_map (fun v => (v - lo) / (hi - lo))). exact Imax.
      * field. lra.
Qed.

Lemma normalise_minmax_unit_witness :
  exists scores,
    scoring._normalise example.numpy (scoring.Float [100; 80; 95]) "minmax" (-1)
    = Ok scores /\
    length scores = 3%nat /\
    Forall unit_interval scores /\
    (Forall (fun x => x = 0) scores \/
     (Exists (fun x => x == 0) scores /\ Exists (fun x => x == 1) scores)).
Proof.
  eexists. split; [reflexivity|].
  apply (normalise_minmax_unit example.numpy [100; 80; 95] "minmax" (-1)).
  - discriminate.
  - reflexivity.
Defined.

Lemma sum_const (c : Q) (l : ndarray) :
  Forall (fun v => v == c) l -> sum l == inject_Z (Z.of_nat (length l)) * c.
Proof.
  induction 1 as [|x l Hx Hl IH].
  - unfold sum. simpl. ring.
  - rewrite sum_cons, IH, Hx. cbn [length].
    rewrite Nat2Z.inj_succ, <- Z.add_1_r, inject_Z_plus. simpl (inject_Z 1). ring.
Qed.

Lemma mean_const (c : Q) (l : ndarray) :
  Forall (fun v => v == c) l -> l <> [] -> mean l == c.
Proof.
  intros H Hne. unfold mean. rewrite (sum_const c l H).
  field. destruct l; [congruence|]. cbn [length]. intros E.
  rewrite Nat2Z.inj_succ, <- Z.add_1_r, inject_Z_plus in E.
  pose proof (Nat2Z.is_nonneg (length l)) as Hn. rewrite Zle_Qle in Hn.
  change (inject_Z 0) with 0 in Hn. change (inject_Z 1) with 1 in E. lra.
Qed.

Lemma mean_zero (l : ndarray) : Forall (fun v => v == 0) l -> mean l == 0.
Proof.
  intros H. unfold mean. rewrite (sum_const 0 l H).
  unfold Qdiv. ring.
Qed.

Lemma fold_minimum_const (c : Q) (l : ndarray) (x : Q) :
  x == c -> Forall (fun v => v == c) l -> fold_left minimum l x == c.
Proof.
  intros Hx H. revert x Hx. induction H as [|y l Hy Hl IH]; intros x Hx; simpl.
  - exact Hx.
  - apply IH. destruct (minimum_cases x y) as [[? ->]|[? ->]]; assumption.
Qed.

Lemma fold_maximum_const (c : Q) (l : ndarray) (x : Q) :
  x == c -> Forall (fun v => v == c) l -> fold_left maximum l x == c.
Proof.
  intros Hx H. revert x Hx. induction H as [|y l Hy Hl IH]; intros x Hx; simpl.
  - exact Hx.
  - apply IH. destruct (maximum_cases x y) as [[? ->]|[? ->]]; assumption.
Qed.

Lemma constant_normalises_to_zeros (rt : Numpy) (series : ndarray) (method : string)
    (direction : Z) (c : Q) :
  Forall (fun v => v == c) series ->
  (String.eqb method "zscore" = true -> sqrt_zero rt /\ length series = 1%nat) ->
  scoring._normalise rt (scoring.Float series) method direction
  = Ok (zeros (length series)).
Proof.
  intros Hc Hz. unfold scoring._normalise.
  set (values := map (fun v => v * inject_Z direction) series).
  assert (Hv : Forall (fun v => v == c * inject_Z direction) values).
  { unfold values. apply List.Forall_forall. intros x Hx.
    apply in_map_iff in Hx. destruct Hx as [v [<- Hin]].
    rewrite List.Forall_forall in Hc. now rewrite (Hc v Hin). }
  assert (Hlen : length values = length series) by (unfold values; apply length_map).
  destruct (String.eqb method "zscore").
  - destruct (Hz eq_refl) as [Hsqrt _].
    assert (Hstd : scoring.std0 rt values == 0).
    { unfold scoring.std0. apply Hsqrt. apply mean_zero.
      apply List.Forall_forall. intros x Hx.
      apply in_map_iff in Hx. destruct Hx as [v [<- Hin]].
      assert (Hne : values <> []) by (intros E; rewrite E in Hin; contradiction).
      rewrite (mean_const _ values Hv Hne).
      rewrite List.Forall_forall in Hv. rewrite (Hv v Hin). ring. }
    rewrite (isclose_eq _ 0.0) by (rewrite Hstd; reflexivity).
    now rewrite Hlen.
  - assert (Hclose : scoring.series_max values == scoring.series_min values).
    { destruct values as [|x l]; [reflexivity|]. simpl.
      inversion Hv as [|? ? Hx Hl]; subst.
      rewrite (fold_maximum_const _ l x Hx Hl), (fold_minimum_const _ l x Hx Hl).
      reflexivity. }
    rewrite (isclose_eq _ _ Hclose). now rewrite Hlen.
Qed.

(** X14: a column whose values are all equal normalises to zeros under
    min-max, whatever its length; under z-score a one-row column
    normalises to a single 0, when the square root of 0 is 0. *)
Theorem normalise_constant (rt : Numpy) (series : ndarray) (method : string)
    (direction : Z) (c : Q) :
  Forall (fun v => v == c) series ->
  (String.eqb method "zscore" = true -> sqrt_zero rt /\ length series = 1%nat) ->
  scoring._normalise rt (scoring.Float series) method direction
  = Ok (zeros (length series)).
Proof. apply constant_normalises_to_zeros. Qed.

Lemma example_sqrt_zero : sqrt_zero example.numpy.
Proof.
  intros [n d] H. simpl. unfold example.sqrt. rewrite Qred_correct.
  unfold Qeq in H. simpl in H. rewrite Z.mul_1_r in H. subst n. simpl.
  reflexivity.
Defined.

Lemma normalise_constant_witness :
  scoring._normalise example.numpy (scoring.Float [7]) "zscore" (-1) = Ok (zeros 1).
Proof.
  apply (normalise_constant example.numpy [7] "zscore" (-1) 7).
  - repeat constructor; reflexivity.
  - intros _. split; [exact example_sqrt_zero|reflexivity].
Defined.

Section Weighted.
Context (rt : Numpy) (scoring_cfg : utils.ScoringConfig).
Import scoring.

Lemma score_dimension_tracks (original df df' : DataFrame) (scored : list string)
    (dimension : string) :
  In dimension (dict.keys (utils.weights scoring_cfg)) ->
  columns_track rt scoring_cfg original df scored ->
  score_dimension rt scoring_cfg df dimension = Ok df' ->
  columns_track rt scoring_cfg original df' (dimension :: scored).
Proof.
  intros Hin (Hlen & Hval & Hsc) H. unfold score_dimension in H.
  set (column := String.append dimension "_value") in *.
  set (df1 := if dict.mem (columns df) column then df
              else setcol df column (Float (zeros (len df)))) in *.
  assert (H1 : len df1 = len original /\
               dict.get (columns df1) column
               = Some (Float (dimension_values original dimension)) /\
               (forall d, In d (dict.keys (utils.weights scoring_cfg)) ->
                          match dict.get (columns df1) (String.append d "_value") with
                          | Some s => s = Float (dimension_values original d)
                          | None =>
                              dict.get (columns original) (String.append d "_value")
                              = None
                          end) /\
               (forall k, (forall d, k <> String.append d "_value") ->
                          dict.get (columns df1) k = dict.get (columns df) k)).
  { unfold df1, dict.mem. pose proof (Hval dimension Hin) as Hd. fold column in Hd.
    destruct (dict.get (columns df) column) as [s|] eqn:E.
    - subst s. repeat split; auto.
    - assert (Hz : Float (zeros (len df)) = Float (dimension_values original dimension)).
      { unfold dimension_values. fold column. rewrite Hd, Hlen. reflexivity. }
      split; [exact Hlen|]. split; [|split].
      + unfold setcol. cbn [columns]. rewrite get_set_eq. now rewrite Hz.
      + intros d Hdin. unfold setcol. cbn [columns]. rewrite get_set.
        destruct (String.eqb column (String.append d "_value")) eqn:Ek.
        * apply String.eqb_eq in Ek. unfold column in Ek.
          apply append_suffix_inj in Ek; [|reflexivity]. destruct Ek as [<- _].
          exact Hz.
        * now apply Hval.
      + intros k Hk. unfold setcol. cbn [columns]. apply get_set_ne.
        intros <-. now apply (Hk dimension). }
  destruct H1 as (Hlen1 & Hcol1 & Hval1 & Hkeep1).
  unfold dict.getitem in H. rewrite Hcol1 in H. cbn [bind] in H.
  destruct (_normalise rt (Float (dimension_values original dimension))
              (utils.normalisation scoring_cfg)
              (dict.get_or DIMENSION_DIRECTIONS dimension 1%Z)) as [w|e] eqn:En;
    [|discriminate H].
  cbn [bind] in H. injection H as <-.
  split; [exact Hlen1|]. split.
  - intros d Hdin. unfold setcol. cbn [columns].
    rewrite get_set_ne by (intros Hk; symmetry in Hk; now apply value_ne_score in Hk).
    now apply Hval1.
  - intros d Hd. unfold setcol. cbn [columns]. rewrite get_set.
    destruct (String.eqb (String.append dimension "_score") (String.append d "_score"))
      eqn:Ek.
    + apply String.eqb_eq in Ek. apply append_suffix_inj in Ek; [|reflexivity].
      destruct Ek as [<- _]. unfold dimension_scores. rewrite En. reflexivity.
    + destruct Hd as [<-|Hd]; [rewrite String.eqb_refl in Ek; discriminate|].
      rewrite Hkeep1; [now apply Hsc|].
      intros d' Hk. symmetry in Hk. now apply value_ne_score in Hk.
Qed.

Lemma score_dimensions_track (original : DataFrame) (l : list string) :
  (forall d, In d l -> In d (dict.keys (utils.weights scoring_cfg))) ->
  forall df df' scored,
    columns_track rt scoring_cfg original df scored ->
    foldM (score_dimension rt scoring_cfg) l df = Ok df' ->
    columns_track rt scoring_cfg original df' (rev l ++ scored).
Proof.
  induction l as [|d l IH]; intros Hsub df df' scored Htrack H.
  - injection H as <-. exact Htrack.
  - rewrite foldM_cons in H. bind_inv H.
    simpl. rewrite <- app_assoc. simpl.
    apply (IH (fun d' Hd' => Hsub d' (or_intror Hd')) x df' (d :: scored)); [|exact H].
    apply (score_dimension_tracks original df); auto. apply Hsub. now left.
Qed.

Lemma add_weighted_fold (original : DataFrame) (l : list (string * Q)) :
  (forall dw, In dw l -> fst dw <> "total") ->
  forall df df' total,
    dict.get (columns df) "total_score" = Some (Float total) ->
    (forall dw, In dw l ->
       dict.get (columns df) (String.append (fst dw) "_score")
       = Some (Float (dimension_scores rt scoring_cfg original (fst dw)))) ->
    foldM (fun df dw =>
             add_weighted df "total_score" (String.append (fst dw) "_score") (snd dw))
          l df = Ok df' ->
    dict.get (columns df') "total_score"
    = Some (Float (fold_left
                     (fun total dw =>
                        zip_with Qplus total
                          (map (fun x => x * snd dw)
                             (dimension_scores rt scoring_cfg original (fst dw))))
                     l total)).
Proof.
  induction l as [|dw l IH]; intros Hne df df' total Htot Hsc H.
  - injection H as <-. exact Htot.
  - rewrite foldM_cons in H. bind_inv H.
    unfold add_weighted, dict.getitem in E.
    rewrite Htot, (Hsc dw (or_introl eq_refl)) in E. cbn [bind] in E.
    injection E as <-. simpl.
    refine (IH (fun dw' Hin => Hne dw' (or_intror Hin)) _ df' _ _ _ H).
    + unfold setcol. cbn [columns]. apply get_set_eq.
    + intros dw' Hin. unfold setcol. cbn [columns].
      rewrite get_set_ne; [now apply Hsc; right|].
      intros Hk. apply (Hne dw' (or_intror Hin)).
      change "total_score" with (String.append "total" "_score") in Hk.
      apply append_suffix_inj in Hk; [|reflexivity]. now destruct Hk as [<- _].
Qed.

Lemma dimension_values_length (df : DataFrame) (d : string) :
  wf df -> length (dimension_values df d) = len df.
Proof.
  intros Hwf. unfold dimension_values.
  destruct (dict.get (columns df) (String.append d "_value")) as [[v|v]|] eqn:E;
    try apply zeros_length.
  exact (wf_get df _ v Hwf E).
Qed.

Lemma dimension_scores_length (df : DataFrame) (d : string) :
  wf df -> length (dimension_scores rt scoring_cfg df d) = len df.
Proof.
  intros Hwf. unfold dimension_scores.
  destruct (normalise_float rt (dimension_values df d) (utils.normalisation scoring_cfg)
              (dict.get_or DIMENSION_DIRECTIONS d 1%Z)) as [w [-> Hw]].
  rewrite Hw. now apply dimension_values_length.
Qed.

Lemma weighted_fold_length (n : nat) (scores : string -> ndarray) (l : list (string * Q))
    (total : ndarray) :
  (forall d, length (scores d) = n) -> length total = n ->
  length (fold_left
            (fun total dw =>
               zip_with Qplus total (map (fun x => x * snd dw) (scores (fst dw))))
            l total) = n.
Proof.
  intros Hs. revert total. induction l as [|dw l IH]; intros total Ht; simpl.
  - exact Ht.
  - apply IH. rewrite length_zip_with, length_map, Hs. lia.
Qed.

Lemma weighted_fold_nth (n : nat) (scores : string -> ndarray) (l : list (string * Q))
    (total : ndarray) (i : nat) :
  (forall d, length (scores d) = n) -> length total = n -> (i < n)%nat ->
  nth i (fold_left
           (fun total dw =>
              zip_with Qplus total (map (fun x => x * snd dw) (scores (fst dw))))
           l total) 0
  == nth i total 0
     + fold_right (fun dw acc => nth i (scores (fst dw)) 0 * snd dw + acc) 0 l.
Proof.
  intros Hs. revert total. induction l as [|dw l IH]; intros total Ht Hi; simpl.
  - lra.
  - rewrite IH; [|rewrite length_zip_with, length_map, Hs; lia|exact Hi].
    rewrite (nth_zip_with Qplus _ _ i 0 0 0) by (rewrite ?length_map, ?Hs; lia).
    rewrite (nth_map' (fun x => x * snd dw) _ i 0 0) by (rewrite Hs; lia). lra.
Qed.

Lemma weight_not_total :
  dict.mem (utils.weights scoring_cfg) "total" = false ->
  forall dw, In dw (utils.weights scoring_cfg) -> fst dw <> "total".
Proof.
  unfold dict.mem. intros H dw Hin Heq.
  destruct (dict.get (utils.weights scoring_cfg) "total") eqn:E; [discriminate|].
  apply get_none_keys in E. apply E. unfold dict.keys. rewrite <- Heq.
  now apply in_map.
Qed.

Lemma zeros_nth (n i : nat) : nth i (zeros n) 0 = 0.
Proof.
  unfold zeros. revert i. induction n as [|n IH]; intros [|i]; simpl; auto.
Qed.

(** X15: for a well-formed table whose weighted value columns are numeric
    and a weight mapping with no dimension called "total", the
    [total_score] column that [score_round] sorts by holds, for each row,
    the sum over the weighted dimensions of weight times the row's
    normalised score, each dimension normalised from the input table's own
    value column (zeros if it has none). *)
Theorem total_score_is_weighted_sum (df : DataFrame) :
  wf df -> numeric_dimensions scoring_cfg df ->
  dict.mem (utils.weights scoring_cfg) "total" = false ->
  exists scored total,
    scored_frame rt df scoring_cfg = Ok scored /\
    dict.get (columns scored) "total_score" = Some (Float total) /\
    length total = len df /\
    forall i, (i < len df)%nat -> nth i total 0 == weighted_total rt scoring_cfg df i.
Proof.
  intros Hwf Hnum Hno.
  destruct (scored_frame_spec rt scoring_cfg df Hwf Hnum) as [scored [Hrun _]].
  exists scored. assert (H := Hrun). unfold scored_frame in H. bind_inv H.
  assert (Htrack : columns_track rt scoring_cfg df x
                     (rev (dict.keys (utils.weights scoring_cfg)) ++ [])).
  { apply (score_dimensions_track df _ (fun d Hd => Hd) df); [|exact E].
    split; [reflexivity|]. split; [|intros d []].
    intros d Hd. unfold dimension_values.
    destruct (dict.get (columns df) (String.append d "_value")) as [s|] eqn:Ed;
      [|reflexivity].
    destruct (Hnum d s Hd Ed) as [v ->]. reflexivity. }
  destruct Htrack as (Hlen & _ & Hsc).
  pose proof (add_weighted_fold df (utils.weights scoring_cfg) (weight_not_total Hno)
                (setcol x "total_score" (Float (zeros (len x)))) scored
                (zeros (len x))) as Htot.
  eexists. split; [exact Hrun|]. split.
  - apply Htot; [unfold setcol; cbn [columns]; apply get_set_eq| |exact H].
    intros dw Hin. unfold setcol. cbn [columns].
    rewrite get_set_ne.
    + apply Hsc. rewrite app_nil_r. apply in_rev. rewrite rev_involutive.
      unfold dict.keys. now apply in_map.
    + intros Hk. apply (weight_not_total Hno dw Hin).
      change "total_score" with (String.append "total" "_score") in Hk.
      apply append_suffix_inj in Hk; [|reflexivity]. now destruct Hk as [<- _].
  - assert (Hz : length (zeros (len x)) = len df)
      by exact (eq_trans (zeros_length (len x)) Hlen).
    split.
    + exact (weighted_fold_length (len df) (dimension_scores rt scoring_cfg df)
               (utils.weights scoring_cfg) (zeros (len x))
               (fun d => dimension_scores_length df d Hwf) Hz).
    + intros i Hi.
      rewrite (weighted_fold_nth (len df) (dimension_scores rt scoring_cfg df)
                 (utils.weights scoring_cfg) (zeros (len x)) i
                 (fun d => dimension_scores_length df d Hwf) Hz Hi).
      rewrite zeros_nth. unfold weighted_total. lra.
Qed.

End Weighted.

Lemma total_score_is_weighted_sum_witness :
  exists scored total,
    scoring.scored_frame example.numpy example.table (utils.scoring example.bundle)
    = Ok scored /\
    dict.get (scoring.columns scored) "total_score" = Some (scoring.Float total) /\
    length total = 2%nat /\
    forall i, (i < 2)%nat ->
      nth i total 0
      == weighted_total example.numpy (utils.scoring example.bundle) example.table i.
Proof.
  apply (total_score_is_weighted_sum example.numpy (utils.scoring example.bundle)
           example.table).
  - repeat constructor.
  - apply example_table_numeric. now left.
  - reflexivity.
Defined.

Section Sorting.
Context (rt : Numpy) (scoring_cfg : utils.ScoringConfig).
Import scoring.

Lemma descending_insert (x : nat * Q) (l : list (nat * Q)) :
  descending (map snd l) -> descending (map snd (insert_desc x l)).
Proof.
  induction l as [|y l IH]; simpl.
  - intros _. split; [constructor|exact I].
  - intros [Hy Hl]. destruct (ltb (snd y) (snd x)) eqn:E; simpl.
    + apply ltb_true in E. split; [|split; assumption].
      constructor; [lra|].
      eapply List.Forall_impl; [|exact Hy]. intros q Hq. simpl in Hq. lra.
    + apply ltb_false in E. split; [|now apply IH].
      apply (Permutation_Forall
               (Permutation_sym (Permutation_map snd (insert_desc_perm x l)))).
      simpl. constructor; assumption.
Qed.

Lemma descending_sorted (items acc : list (nat * Q)) :
  descending (map snd acc) ->
  descending (map snd (fold_left (fun acc x => insert_desc x acc) items acc)).
Proof.
  revert acc. induction items as [|x items IH]; intros acc H; simpl; [exact H|].
  apply IH. now apply descending_insert.
Qed.

Lemma sorted_perm (items acc : list (nat * Q)) :
  Permutation (fold_left (fun acc x => insert_desc x acc) items acc) (items ++ acc).
Proof.
  revert acc. induction items as [|x items IH]; intros acc; simpl; [reflexivity|].
  rewrite IH, insert_desc_perm. symmetry. apply Permutation_middle.
Qed.

Lemma combine_lookup (key : ndarray) (start i : nat) (q : Q) :
  In (i, q) (combine (seq start (length key)) key) ->
  (start <= i)%nat /\ key !! (i - start)%nat = Some q.
Proof.
  revert start. induction key as [|k key IH]; intros start; simpl; [tauto|].
  intros [[= <- <-]|H].
  - split; [lia|]. now rewrite Nat.sub_diag.
  - destruct (IH (S start) H) as [Hle Hget]. split; [lia|].
    replace (i - start)%nat with (S (i - S start)) by lia. exact Hget.
Qed.

Lemma take_rows_pairs {A : Type} (key : list A) (l : list (nat * A)) :
  Forall (fun p => key !! fst p = Some (snd p)) l ->
  take_rows (map fst l) key = map snd l.
Proof.
  induction 1 as [|[i q] l Hp Hl IH]; [reflexivity|].
  cbn [map fst snd]. rewrite take_rows_cons. simpl in Hp. rewrite Hp.
  now rewrite IH.
Qed.

Lemma argsort_desc_sorted (key : ndarray) :
  descending (take_rows (argsort_desc key) key).
Proof.
  unfold argsort_desc.
  set (sorted := fold_left (fun acc x => insert_desc x acc)
                   (combine (seq 0 (length key)) key) []).
  rewrite (take_rows_pairs key sorted).
  - apply descending_sorted. exact I.
  - apply List.Forall_forall. intros [i q] Hin. simpl.
    apply (Permutation_in _ (sorted_perm _ _)) in Hin. rewrite app_nil_r in Hin.
    destruct (combine_lookup key 0 i q Hin) as [_ Hget].
    now rewrite Nat.sub_0_r in Hget.
Qed.

Lemma take_rows_perm {A : Type} (l : list A) (o1 o2 : list nat) :
  Permutation o1 o2 -> Permutation (take_rows o1 l) (take_rows o2 l).
Proof.
  induction 1 as [|i o1 o2 H IH|i j o|o1 o2 o3 H1 IH1 H2 IH2].
  - reflexivity.
  - rewrite !take_rows_cons. destruct (l !! i); [now constructor|exact IH].
  - rewrite !take_rows_cons. destruct (l !! i), (l !! j); try reflexivity.
    apply perm_swap.
  - now transitivity (take_rows o2 l).
Qed.

Lemma take_rows_seq {A : Type} (front l : list A) :
  take_rows (seq (length front) (length l)) (front ++ l) = l.
Proof.
  revert front. induction l as [|x l IH]; intros front; [reflexivity|].
  cbn [length seq]. rewrite take_rows_cons.
  rewrite lookup_app_r by lia. rewrite Nat.sub_diag. simpl.
  f_equal. specialize (IH (front ++ [x])).
  rewrite length_app, <- app_assoc in IH. simpl in IH.
  now rewrite Nat.add_1_r in IH.
Qed.

Lemma take_rows_all {A : Type} (l : list A) (order : list nat) :
  Permutation order (seq 0 (length l)) -> Permutation (take_rows order l) l.
Proof.
  intros H. rewrite (take_rows_perm l _ _ H).
  pose proof (take_rows_seq [] l) as E. simpl in E. now rewrite E.
Qed.

(** X16: on a well-formed table of any number of rows whose weighted
    value columns are numeric, [score_round] returns the scored rows
    reordered as wholes by one permutation of the row positions, such that
    [total_score] is in descending order from the first row down, no row
    label is lost or repeated, and the [rank] column counts 1, 2, ..., n. *)
Theorem score_round_sorted (df : DataFrame) :
  wf df -> numeric_dimensions scoring_cfg df ->
  exists scored total order out,
    scored_frame rt df scoring_cfg = Ok scored /\
    dict.get (columns scored) "total_score" = Some (Float total) /\
    Permutation order (seq 0 (len df)) /\
    score_round rt df scoring_cfg = Ok out /\
    out = setcol (take_frame order scored) "rank" (Float (ranks (len df))) /\
    dict.get (columns out) "total_score" = Some (Float (take_rows order total)) /\
    descending (take_rows order total) /\
    Permutation (index out) (index df).
Proof.
  intros Hwf Hnum.
  destruct (scored_frame_spec rt scoring_cfg df Hwf Hnum) as [scored [Escored Hs]].
  destruct Hs as [[Hidx Hlen Hwf' Hnum' Hmiss] [t Ht] Hdims].
  pose proof (wf_get scored _ t Hwf' Ht) as Htlen. rewrite Hlen in Htlen.
  exists scored, t, (argsort_desc t).
  assert (Hperm : Permutation (argsort_desc t) (seq 0 (len df))).
  { rewrite <- Htlen. apply argsort_desc_perm. }
  assert (Hperm' : Permutation (argsort_desc t) (seq 0 (length (index scored)))).
  { unfold len in Hlen. rewrite Hlen. exact Hperm. }
  assert (Hrows : len (take_frame (argsort_desc t) scored) = len df).
  { unfold len at 1. unfold take_frame. cbn [index].
    rewrite (Permutation_length (take_rows_all (index scored) (argsort_desc t) Hperm')).
    exact Hlen. }
  unfold score_round. rewrite Escored. cbn [bind].
  unfold sort_values_desc, dict.getitem. rewrite Ht. cbn [bind].
  eexists. split; [reflexivity|]. split; [reflexivity|]. split; [exact Hperm|].
  split; [reflexivity|]. rewrite Hrows.
  split; [reflexivity|]. split; [|split].
  - unfold setcol. cbn [columns]. rewrite get_set_ne by discriminate.
    rewrite get_take_frame, Ht. reflexivity.
  - apply argsort_desc_sorted.
  - unfold setcol, take_frame. cbn [index]. rewrite <- Hidx.
    apply take_rows_all. exact Hperm'.
Qed.

End Sorting.

Lemma score_round_sorted_witness :
  exists scored total order out,
    scoring.scored_frame example.numpy example.table (utils.scoring example.bundle)
    = Ok scored /\
    dict.get (scoring.columns scored) "total_score" = Some (scoring.Float total) /\
    Permutation order (seq 0 2) /\
    scoring.score_round example.numpy example.table (utils.scoring example.bundle)
    = Ok out /\
    descending (scoring.take_rows order total) /\
    Permutation (scoring.index out) [0; 1]%nat.
Proof.
  destruct (score_round_sorted example.numpy (utils.scoring example.bundle) example.table)
    as (scored & total & order & out & H1 & H2 & H3 & H4 & _ & _ & H5 & H6).
  - repeat constructor.
  - apply example_table_numeric. now left.
  - exists scored, total, order, out. repeat split; assumption.
Defined.

Section SingleRow.
Context (rt : Numpy) (scoring_cfg : utils.ScoringConfig).
Import scoring.

Lemma score_dimension_zero (df df' : DataFrame) (dimension : string) :
  sqrt_zero rt -> len df = 1%nat -> wf df -> zero_scores df ->
  score_dimension rt scoring_cfg df dimension = Ok df' ->
  zero_scores df'.
Proof.
  intros Hsqrt Hlen Hwf Hz H. unfold score_dimension in H.
  set (column := String.append dimension "_value") in *.
  set (df1 := if dict.mem (columns df) column then df
              else setcol df column (Float (zeros (len df)))) in *.
  assert (H1 : len df1 = 1%nat /\ wf df1 /\
               forall d, dict.get (columns df1) (String.append d "_score")
                         = dict.get (columns df) (String.append d "_score")).
  { unfold df1. destruct (dict.mem (columns df) column).
    - auto.
    - split; [exact Hlen|]. split.
      + apply wf_setcol; [exact Hwf|apply zeros_length].
      + intros d. unfold setcol. cbn [columns]. apply get_set_ne.
        apply value_ne_score. }
  destruct H1 as (Hlen1 & Hwf1 & Hkeep).
  bind_inv H. apply getitem_ok in E.
  destruct x as [v|v]; [|discriminate H].
  pose proof (wf_get df1 _ v Hwf1 E) as Hv. rewrite Hlen1 in Hv.
  destruct v as [|a [|b v]]; try discriminate Hv.
  rewrite (constant_normalises_to_zeros rt [a] _ _ a) in H;
    [|constructor; [reflexivity|constructor]|intros _; split; [exact Hsqrt|reflexivity]].
  cbn [bind] in H. injection H as <-.
  intros d s. unfold setcol. cbn [columns]. rewrite get_set.
  destruct (String.eqb _ _).
  - intros [= <-]. exists 0. split; reflexivity.
  - rewrite Hkeep. apply Hz.
Qed.

Lemma score_dimensions_zero (l : list string) :
  sqrt_zero rt ->
  forall df df',
    len df = 1%nat -> wf df -> zero_scores df ->
    foldM (score_dimension rt scoring_cfg) l df = Ok df' ->
    len df' = 1%nat /\ wf df' /\ zero_scores df'.
Proof.
  intros Hsqrt. induction l as [|d l IH]; intros df df' Hlen Hwf Hz H.
  - injection H as <-. auto.
  - rewrite foldM_cons in H. bind_inv H.
    assert (Hz1 := score_dimension_zero df x d Hsqrt Hlen Hwf Hz E).
    apply (IH x df'); [| |exact Hz1|exact H].
    + unfold score_dimension in E. repeat bind_inv E. injection E as <-.
      destruct (dict.mem _ _); reflexivity || exact Hlen.
    + unfold score_dimension in E. bind_inv E. bind_inv E.
      injection E as <-.
      destruct (normalise_float rt match x0 with Float v => v | Object _ => [] end
                  (utils.normalisation scoring_cfg)
                  (dict.get_or DIMENSION_DIRECTIONS d 1%Z)) as [w [Hw Hwl]].
      destruct x0 as [v|v]; [|discriminate E1].
      rewrite Hw in E1. injection E1 as <-.
      apply getitem_ok in E0.
      destruct (dict.mem (columns df) (String.append d "_value")).
      * apply wf_setcol; [exact Hwf|]. rewrite Hwl. exact (wf_get df _ v Hwf E0).
      * assert (Hwf1 : wf (setcol df (String.append d "_value") (Float (zeros (len df)))))
          by (apply wf_setcol; [exact Hwf|apply zeros_length]).
        apply wf_setcol; [exact Hwf1|]. rewrite Hwl. exact (wf_get _ _ v Hwf1 E0).
Qed.

Lemma add_weighted_zero (df df' : DataFrame) (d : string) (w : Q) :
  zero_scores df ->
  add_weighted df "total_score" (String.append d "_score") w = Ok df' ->
  zero_scores df'.
Proof.
  intros Hz H. unfold add_weighted in H. repeat bind_inv H.
  apply getitem_ok in E, E0.
  destruct (Hz "total" x E) as [qa [-> Ha]].
  destruct (Hz d x0 E0) as [qb [-> Hb]].
  injection H as <-.
  intros d' s. unfold setcol. cbn [columns]. rewrite get_set.
  destruct (String.eqb _ _).
  - intros [= <-]. simpl. eexists. split; [reflexivity|]. rewrite Ha, Hb. ring.
  - apply Hz.
Qed.

Lemma scored_frame_zero (df scored : DataFrame) :
  sqrt_zero rt -> len df = 1%nat -> wf df -> zero_scores df ->
  scored_frame rt df scoring_cfg = Ok scored ->
  zero_scores scored.
Proof.
  intros Hsqrt Hlen Hwf Hz H. unfold scored_frame in H. bind_inv H.
  destruct (score_dimensions_zero _ Hsqrt df x Hlen Hwf Hz E) as (Hlen1 & Hwf1 & Hz1).
  assert (Hz2 : zero_scores (setcol x "total_score" (Float (zeros (len x))))).
  { intros d s. unfold setcol. cbn [columns]. rewrite get_set.
    destruct (String.eqb _ _).
    - intros [= <-]. rewrite Hlen1. exists 0. split; reflexivity.
    - apply Hz1. }
  clear E. revert H Hz2. generalize (setcol x "total_score" (Float (zeros (len x)))).
  induction (utils.weights scoring_cfg) as [|[d w] l IH]; intros df0 H Hz0.
  - injection H as <-. exact Hz0.
  - rewrite foldM_cons in H. bind_inv H.
    apply (IH x0 H). exact (add_weighted_zero df0 x0 d w Hz0 E).
Qed.

Lemma build_leaderboard_zero (summary : dict.t Q) :
  sqrt_zero rt ->
  Forall (fun k => dict.mem summary k = true) leaderboard_keys ->
  exists out total,
    engine._build_leaderboard rt summary scoring_cfg = Ok out /\
    index out = [0%nat] /\
    dict.get (columns out) "rank" = Some (Float [1]) /\
    dict.get (columns out) "total_score" = Some (Float [total]) /\
    total == 0.
Proof.
  intros Hsqrt Hkeys. unfold engine._build_leaderboard, leaderboard_keys in *.
  inversion Hkeys as [|? ? H1 Ha]; subst. inversion Ha as [|? ? H2 Hb]; subst.
  inversion Hb as [|? ? H3 Hc]; subst. inversion Hc as [|? ? H4 _]; subst.
  apply mem_get in H1, H2, H3, H4.
  destruct H1 as [hv H1], H2 as [cv H2], H3 as [pv H3], H4 as [ev H4].
  unfold dict.getitem. rewrite H1, H2, H3, H4. cbn [bind].
  set (metrics_df := {| index := [0%nat]; columns := _ |}).
  assert (Hwf : wf metrics_df) by (repeat constructor).
  assert (Hnum : numeric_dimensions scoring_cfg metrics_df).
  { intros d s _. unfold metrics_df. cbn [columns dict.get].
    destruct (String.eqb "team" _) eqn:E.
    { apply String.eqb_eq in E. apply (f_equal String.length) in E.
      rewrite append_length in E. simpl in E. lia. }
    repeat match goal with
           | |- (if String.eqb ?a ?b then _ else _) = _ -> _ =>
               destruct (String.eqb a b); [intros [= <-]; eexists; reflexivity|]
           end.
    discriminate. }
  assert (Hz : zero_scores metrics_df).
  { intros d s. unfold metrics_df. cbn [columns dict.get].
    change "health_value" with (String.append "health" "_value").
    change "cost_value" with (String.append "cost" "_value").
    change "capacity_value" with (String.append "capacity" "_value").
    change "equity_value" with (String.append "equity" "_value").
    repeat match goal with
           | |- (if String.eqb ?a ?b then _ else _) = _ -> _ =>
               let E := fresh "E" in
               destruct (String.eqb a b) eqn:E;
               [apply String.eqb_eq in E;
                first [ apply value_ne_score in E; contradiction
                      | apply (f_equal String.length) in E;
                        rewrite append_length in E; simpl in E; lia ]|]
           end.
    discriminate. }
  destruct (scored_frame_spec rt scoring_cfg metrics_df Hwf Hnum) as [scored [Escored Hs]].
  pose proof (scored_frame_zero metrics_df scored Hsqrt eq_refl Hwf Hz Escored) as Hzs.
  destruct Hs as [[Hidx Hlen Hwf' Hnum' Hmiss] [t Ht] Hdims].
  destruct (Hzs "total" _ Ht) as [q [[= ->] Hq]].
  unfold score_round. rewrite Escored. cbn [bind].
  unfold sort_values_desc, dict.getitem. rewrite Ht. cbn [bind].
  eexists. exists q. split; [reflexivity|].
  unfold setcol, take_frame, len. cbn [index columns]. rewrite Hidx.
  split; [reflexivity|]. split; [apply get_set_eq|]. split; [|exact Hq].
  rewrite get_set_ne by discriminate.
  rewrite (get_map_values (fun s => match s with
                                    | Float v => Float (take_rows (argsort_desc [q]) v)
                                    | Object v => Object (take_rows (argsort_desc [q]) v)
                                    end)), Ht.
  reflexivity.
Qed.

End SingleRow.

Section Trace.
Context (rt : Numpy).
Context (months : Z) (decisions : option policies.Decisions)
        (cfg : utils.ConfigBundle) (shock_mods : dict.t Q) (base_los : Q).

Lemma simulate_month_trace (month : nat) (st st' : engine.Locals rt) :
  engine.simulate_month rt months decisions cfg shock_mods base_los month st = Ok st' ->
  exists g1 size1 p1 p2 p3 new_incidence g1'
         g2 size2 hospital_probs capacity_modifiers hosp1 new_hospital bed_days g2'
         g3 size3 care_probs care1 dis1 new_care g3'
         g4 size4 mortality_probs new_deaths g4'
         age total_cost qalys disability_prev equity_gap,
    engine.ltc_transitions rt g1 size1 p1 p2 p3 (engine.ltc_state rt st)
    = Ok (engine.ltc_state rt st', new_incidence, g1') /\
    engine.hospital_transitions rt cfg g2 size2 hospital_probs capacity_modifiers
      (engine.hospitalised rt st) (engine.hospital_los_remaining rt st)
    = Ok (hosp1, engine.hospital_los_remaining rt st', new_hospital, bed_days, g2') /\
    engine.care_home_transitions rt g3 size3 care_probs (engine.care_home rt st)
      dis1 (engine.ltc_state rt st')
    = Ok (care1, new_care, g3') /\
    engine.mortality_transitions rt g4 size4 mortality_probs
      (engine.alive rt st) hosp1 care1 dis1
    = Ok (engine.alive rt st', engine.hospitalised rt st', engine.care_home rt st',
          engine.disability rt st', new_deaths, g4') /\
    dict.get (states.data (engine.cohort rt st)) "age" = Some age /\
    engine.cohort rt st'
    = month_cohort (engine.cohort rt st)
        (map (fun a => a + inject_Z (utils.time_step_months (utils.transitions_cfg cfg))
                          / 12.0) age)
        (engine.ltc_state rt st') (engine.disability rt st')
        (engine.hospitalised rt st') (engine.care_home rt st') (engine.alive rt st') /\
    engine.monthly_records rt st'
    = engine.monthly_records rt st
      ++ [month_metrics month new_incidence new_hospital bed_days new_care new_deaths
            total_cost qalys disability_prev equity_gap] /\
    engine.timestep_results rt st'
    = engine.timestep_results rt st
      ++ [month_timestep month new_incidence new_hospital bed_days new_care new_deaths
            total_cost qalys disability_prev equity_gap].
Proof.
  unfold engine.simulate_month. intros H.
  repeat bind_inv H.
  injection H as <-.
  cbn [engine.ltc_state engine.alive engine.cohort engine.hospitalised
       engine.care_home engine.disability engine.hospital_los_remaining
       engine.timestep_results engine.monthly_records].
  do 32 eexists.
  split; [eassumption|]. split; [eassumption|]. split; [eassumption|].
  split; [eassumption|]. split; [apply getitem_ok; eassumption|].
  split; [reflexivity|]. split; reflexivity.
Qed.

Lemma simulate_copy_trace (c : states.Cohort) (decisions_ : option policies.Decisions)
    (shocks : option (list shocks.Shock)) (seed : Z)
    (policy_months_active : option (dict.t Z))
    (cout : states.Cohort) (ts : list states.SimulationTimestepResult)
    (summary : dict.t Q) (leaderboard : scoring.DataFrame) :
  engine.simulate_copy rt c months decisions_ shocks cfg seed policy_months_active
  = Ok (cout, ts, summary, leaderboard) ->
  exists features alive ltc_state disability hospitalised care_home counters
         mods los st,
    dict.get (states.data c) "alive" = Some alive /\
    dict.get (states.data c) "ltc_state" = Some ltc_state /\
    dict.get (states.data c) "disability" = Some disability /\
    dict.get (states.data c) "hospitalised" = Some hospitalised /\
    dict.get (states.data c) "care_home" = Some care_home /\
    engine.run_months rt months decisions_ cfg mods los
      {| engine.gen := default_rng rt seed;
         engine.cohort := c;
         engine.features := features;
         engine.alive := astype_bool alive;
         engine.ltc_state := astype_int ltc_state;
         engine.disability := astype_bool disability;
         engine.hospitalised := astype_bool hospitalised;
         engine.care_home := astype_bool care_home;
         engine.hospital_los_remaining := zeros (states.size c);
         engine.policy_counters := counters;
         engine.timestep_results := [];
         engine.monthly_records := [] |} = Ok st /\
    states.data cout = states.data (engine.cohort rt st) /\
    states.months_elapsed cout
    = (states.months_elapsed (engine.cohort rt st) + months)%Z /\
    ts = engine.timestep_results rt st /\
    engine._summarise_round (engine.monthly_records rt st) = Ok summary /\
    engine._build_leaderboard rt summary (utils.scoring cfg) = Ok leaderboard.
Proof.
  unfold engine.simulate_copy. intros H.
  repeat bind_inv H.
  injection H as <- <- <- <-.
  do 10 eexists.
  split; [apply getitem_ok; exact E0|]. split; [apply getitem_ok; exact E1|].
  split; [apply getitem_ok; exact E2|]. split; [apply getitem_ok; exact E3|].
  split; [apply getitem_ok; exact E4|]. split; [exact E5|].
  unfold engine.working_copy. split; [reflexivity|]. split; [reflexivity|].
  split; [reflexivity|]. split; assumption.
Qed.

Lemma run_segment (P : nat -> engine.Locals rt -> Prop) (n : nat) :
  (forall month s s',
     engine.simulate_month rt months decisions cfg shock_mods base_los month s = Ok s' ->
     P month s -> P (S month) s') ->
  forall start st st',
    foldM (fun st month =>
             engine.simulate_month rt months decisions cfg shock_mods base_los month st)
          (seq start n) st = Ok st' ->
    P start st -> P (start + n)%nat st'.
Proof.
  intros Hstep. induction n as [|n IH]; intros start st st' H Hp.
  - injection H as <-. now rewrite Nat.add_0_r.
  - cbn [seq] in H. rewrite foldM_cons in H. bind_inv H.
    rewrite <- Nat.add_succ_comm. apply (IH (S start) x st' H).
    exact (Hstep start st x E Hp).
Qed.

End Trace.

Section RoundResults.
Context (rt : Numpy).

Lemma summarise_round_keys (records : list (dict.t Q)) (summary : dict.t Q) :
  engine._summarise_round records = Ok summary ->
  Forall (fun k => dict.mem summary k = true) leaderboard_keys.
Proof.
  unfold engine._summarise_round. intros H. repeat bind_inv H.
  injection H as <-. repeat constructor.
Qed.

(** X17: whenever [simulate_round] returns, with a square root that is 0
    at 0, the scored table it returns has the single row labelled 0, with
    rank 1 and a total score of 0: scored alone, the round's own summary
    always normalises to zeros. *)
Theorem simulate_round_leaderboard_single_row
    (load_config_bundle : result utils.ConfigBundle) (h : engine.heap)
    (cohort : engine.loc) (months : Z) (decisions : option policies.Decisions)
    (shocks : option (list shocks.Shock)) (config_bundle : option utils.ConfigBundle)
    (seed : Z) (policy_months_active : option (dict.t Z))
    (h' : engine.heap) (working : engine.loc)
    (timesteps : list states.SimulationTimestepResult) (summary : dict.t Q)
    (leaderboard : scoring.DataFrame) :
  sqrt_zero rt ->
  engine.simulate_round rt load_config_bundle h cohort months decisions shocks
    config_bundle seed policy_months_active
  = (h', Ok (working, timesteps, summary, leaderboard)) ->
  exists total,
    scoring.index leaderboard = [0%nat] /\
    dict.get (scoring.columns leaderboard) "rank" = Some (scoring.Float [1]) /\
    dict.get (scoring.columns leaderboard) "total_score" = Some (scoring.Float [total]) /\
    total == 0.
Proof.
  intros Hsqrt H.
  destruct (simulate_round_inv rt _ _ _ _ _ _ _ _ _ _ _ _ _ _ H)
    as (cfg & cin & cout & _ & _ & _ & _ & Hcopy).
  destruct (simulate_copy_trace rt _ _ _ _ _ _ _ _ _ _ _ Hcopy)
    as (f & a & l & d & ho & ca & co & mo & los & st & _ & _ & _ & _ & _ & _ & _ & _
        & _ & Hsum & Hlb).
  destruct (build_leaderboard_zero rt (utils.scoring cfg) summary Hsqrt
              (summarise_round_keys _ _ Hsum))
    as (out & total & Hout & Hidx & Hrank & Htot & Hz).
  rewrite Hout in Hlb. injection Hlb as <-.
  exists total. auto.
Qed.

(** X18: a round of no months never returns: with months at most 0,
    [simulate_round] raises on every heap, cohort, decision mapping, shock
    list, bundle and seed (there is no monthly record to summarise). *)
Theorem simulate_round_needs_a_month
    (load_config_bundle : result utils.ConfigBundle) (h : engine.heap)
    (cohort : engine.loc) (months : Z) (decisions : option policies.Decisions)
    (shocks : option (list shocks.Shock)) (config_bundle : option utils.ConfigBundle)
    (seed : Z) (policy_months_active : option (dict.t Z)) :
  (months <= 0)%Z ->
  raises (snd (engine.simulate_round rt load_config_bundle h cohort months decisions
                 shocks config_bundle seed policy_months_active)).
Proof.
  intros Hm.
  destruct (engine.simulate_round rt load_config_bundle h cohort months decisions
              shocks config_bundle seed policy_months_active)
    as [h' [[[[working ts] summary] lb]|e]] eqn:E; [|exact I].
  exfalso.
  destruct (simulate_round_inv rt _ _ _ _ _ _ _ _ _ _ _ _ _ _ E)
    as (cfg & cin & cout & _ & _ & _ & _ & Hcopy).
  destruct (simulate_copy_inv rt _ _ _ _ _ _ _ _ _ _ _ Hcopy)
    as (? & ? & ? & ? & ? & ? & _ & _ & _ & _ & _ & _ & _ & _ & _ & Hmonths).
  apply Hmonths. lia.
Qed.

Lemma sum_app_one (l : ndarray) (x : Q) : sum (l ++ [x]) == sum l + x.
Proof.
  unfold sum. rewrite fold_left_app. simpl. reflexivity.
Qed.

Lemma mapM_getitem (key : string) (f : states.SimulationTimestepResult -> Q)
    (timesteps : list states.SimulationTimestepResult) :
  (forall t, dict.get (timestep_record t) key = Some (f t)) ->
  mapM (fun record => dict.getitem record key) (map timestep_record timesteps)
  = Ok (map f timesteps).
Proof.
  intros Hget. induction timesteps as [|t timesteps IH]; [reflexivity|].
  cbn [map mapM]. unfold dict.getitem at 1. rewrite Hget. cbn [bind].
  rewrite IH. reflexivity.
Qed.

Lemma records_column_of (key : string) (f : states.SimulationTimestepResult -> Q)
    (timesteps : list states.SimulationTimestepResult) :
  timesteps <> [] ->
  (forall t, dict.get (timestep_record t) key = Some (f t)) ->
  engine.records_column (map timestep_record timesteps) key = Ok (map f timesteps).
Proof.
  intros Hne Hget. unfold engine.records_column.
  destruct timesteps as [|t timesteps]; [congruence|].
  apply (mapM_getitem key f (t :: timesteps) Hget).
Qed.

Lemma last_map {A B : Type} (f : A -> B) (l : list A) :
  last (map f l) = option_map f (last l).
Proof.
  induction l as [|x [|y l] IH]; try reflexivity. exact IH.
Qed.

Lemma summarise_round_of (timesteps : list states.SimulationTimestepResult)
    (summary : dict.t Q) :
  engine._summarise_round (map timestep_record timesteps) = Ok summary ->
  exists final, last timesteps = Some final /\ summary = summary_of timesteps final.
Proof.
  intros H.
  destruct timesteps as [|t0 rest] eqn:Ets; [discriminate H|].
  rewrite <- Ets in *.
  assert (Hne : timesteps <> []) by (rewrite Ets; discriminate).
  unfold engine._summarise_round in H.
  rewrite (records_column_of "incidence" states.incidence) in H by auto.
  rewrite (records_column_of "hospital_admissions" states.hospital_admissions) in H
    by auto.
  rewrite (records_column_of "bed_days" states.bed_days) in H by auto.
  rewrite (records_column_of "care_home_admissions" states.care_home_admissions) in H
    by auto.
  rewrite (records_column_of "deaths" states.deaths) in H by auto.
  rewrite (records_column_of "costs_gbp" states.costs_gbp) in H by auto.
  rewrite (records_column_of "qalys" states.qalys) in H by auto.
  rewrite (records_column_of "disability_prevalence" states.disability_prevalence) in H
    by auto.
  rewrite (records_column_of "equity_gap_disability"
             (fun t => dict.get_or (states.equity_gaps t) "disability" 0)) in H by auto.
  cbn [bind] in H. unfold engine.iloc_last in H. rewrite !last_map in H.
  destruct (last timesteps) as [final|]; [|discriminate H].
  cbn [option_map bind] in H. injection H as <-.
  exists final. split; reflexivity.
Qed.

Section Months.
Context (months : Z) (decisions : option policies.Decisions)
        (cfg : utils.ConfigBundle) (shock_mods : dict.t Q) (base_los : Q).

Lemma records_in_step (start n : nat) (st st' : engine.Locals rt) :
  foldM (fun st month =>
           engine.simulate_month rt months decisions cfg shock_mods base_los month st)
        (seq start n) st = Ok st' ->
  engine.monthly_records rt st = map timestep_record (engine.timestep_results rt st) ->
  map states.month_index (engine.timestep_results rt st)
  = map (fun k => (Z.of_nat k + 1)%Z) (seq 0 start) ->
  engine.monthly_records rt st' = map timestep_record (engine.timestep_results rt st') /\
  map states.month_index (engine.timestep_results rt st')
  = map (fun k => (Z.of_nat k + 1)%Z) (seq 0 (start + n)).
Proof.
  intros H Hrec Hidx.
  apply (run_segment rt months decisions cfg shock_mods base_los
           (fun k s =>
              engine.monthly_records rt s
              = map timestep_record (engine.timestep_results rt s) /\
              map states.month_index (engine.timestep_results rt s)
              = map (fun k => (Z.of_nat k + 1)%Z) (seq 0 k)) n)
    with (start := start) (st := st); [|exact H|auto].
  clear. intros month s s' Hstep [Hrec Hidx].
  destruct (simulate_month_trace rt _ _ _ _ _ _ _ _ Hstep)
    as (? & ? & ? & ? & ? & ? & ? & ? & ? & ? & ? & ? & ? & ? & ? & ? & ? & ? & ?
        & ? & ? & ? & ? & ? & ? & ? & ? & ? & ? & ? & ? & ?
        & _ & _ & _ & _ & _ & _ & Hr & Ht).
  rewrite Hr, Ht, Hrec, !map_app, Hidx. split; [reflexivity|].
  rewrite seq_S, map_app. reflexivity.
Qed.

End Months.

Lemma round_summary_of_timesteps
    (load_config_bundle : result utils.ConfigBundle) (h : engine.heap)
    (cohort : engine.loc) (months : Z) (decisions : option policies.Decisions)
    (shocks : option (list shocks.Shock)) (config_bundle : option utils.ConfigBundle)
    (seed : Z) (policy_months_active : option (dict.t Z))
    (h' : engine.heap) (working : engine.loc)
    (timesteps : list states.SimulationTimestepResult) (summary : dict.t Q)
    (leaderboard : scoring.DataFrame) :
  engine.simulate_round rt load_config_bundle h cohort months decisions shocks
    config_bundle seed policy_months_active
  = (h', Ok (working, timesteps, summary, leaderboard)) ->
  (0 < months)%Z /\
  map states.month_index timesteps = month_indices (Z.to_nat months) /\
  exists final,
    last timesteps = Some final /\
    states.month_index final = months /\
    summary = summary_of timesteps final.
Proof.
  intros H.
  destruct (simulate_round_inv rt _ _ _ _ _ _ _ _ _ _ _ _ _ _ H)
    as (cfg & cin & cout & _ & _ & _ & _ & Hcopy).
  destruct (simulate_copy_inv rt _ _ _ _ _ _ _ _ _ _ _ Hcopy)
    as (? & ? & ? & ? & ? & ? & _ & _ & _ & _ & _ & _ & _ & _ & _ & Hmonths).
  destruct (simulate_copy_trace rt _ _ _ _ _ _ _ _ _ _ _ Hcopy)
    as (f & a & l & d & ho & ca & co & mo & los & st & _ & _ & _ & _ & _ & Hrun & _ & _
        & -> & Hsum & _).
  unfold engine.run_months in Hrun.
  destruct (records_in_step _ _ _ _ _ _ _ _ _ Hrun eq_refl eq_refl) as [Hrec Hidx].
  rewrite Hrec in Hsum.
  destruct (summarise_round_of _ _ Hsum) as [final [Hlast ->]].
  assert (Hpos : (0 < months)%Z) by lia.
  split; [exact Hpos|]. split; [exact Hidx|].
  exists final. split; [exact Hlast|]. split; [|reflexivity].
  assert (Hl : last (map states.month_index (engine.timestep_results rt st))
               = Some (states.month_index final)).
  { rewrite last_map, Hlast. reflexivity. }
  rewrite Hidx in Hl.
  destruct (Z.to_nat months) as [|n] eqn:En; [congruence|].
  cbn [Nat.add] in Hl. rewrite seq_S, map_app in Hl. cbn [map] in Hl. rewrite last_snoc in Hl.
  injection Hl as <-. simpl. lia.
Qed.

(** X19: whenever [simulate_round] returns, it returns one timestep
    result per month, with month indices 1, 2, ..., months, and the
    summary is a function of them: each total (and the health, cost and
    capacity values) is the sum of the timestep results' entries, and the
    end values are those of the last month. *)
Theorem simulate_round_summary_of_timesteps
    (load_config_bundle : result utils.ConfigBundle) (h : engine.heap)
    (cohort : engine.loc) (months : Z) (decisions : option policies.Decisions)
    (shocks : option (list shocks.Shock)) (config_bundle : option utils.ConfigBundle)
    (seed : Z) (policy_months_active : option (dict.t Z))
    (h' : engine.heap) (working : engine.loc)
    (timesteps : list states.SimulationTimestepResult) (summary : dict.t Q)
    (leaderboard : scoring.DataFrame) :
  engine.simulate_round rt load_config_bundle h cohort months decisions shocks
    config_bundle seed policy_months_active
  = (h', Ok (working, timesteps, summary, leaderboard)) ->
  (0 < months)%Z /\
  map states.month_index timesteps = month_indices (Z.to_nat months) /\
  exists final,
    last timesteps = Some final /\
    states.month_index final = months /\
    summary = summary_of timesteps final.
Proof. apply round_summary_of_timesteps. Qed.

End RoundResults.

Section Conservation.
Context (rt : Numpy).

Lemma count_split (alive mask : list bool) :
  Forall2 (fun (x m : bool) => m = true -> x = true) alive mask ->
  count alive
  = (count (zip_with (fun x (m : bool) => if m then false else x) alive mask)
     + count mask)%nat.
Proof.
  induction 1 as [|x m alive mask Hm _ IH]; [reflexivity|].
  cbn [zip_with count]. rewrite IH.
  destruct m; [rewrite (Hm eq_refl)|destruct x]; lia.
Qed.

Lemma mortality_transitions_count (gen : Generator rt) (size : nat)
    (mortality_probs : ndarray) (alive hospitalised care_home disability : list bool)
    (alive' hospitalised' care_home' disability' : list bool) (new_deaths : nat)
    (gen' : Generator rt) :
  engine.mortality_transitions rt gen size mortality_probs
    alive hospitalised care_home disability
  = Ok (alive', hospitalised', care_home', disability', new_deaths, gen') ->
  count alive = (count alive' + new_deaths)%nat.
Proof.
  unfold engine.mortality_transitions. intros H.
  repeat bind_inv H.
  injection H as <- _ _ _ <- _.
  rewrite <- (map_id alive) in E0 at 1.
  apply mask_set_ok in E1. destruct E1 as [Hlen ->].
  apply count_split.
  exact (guarded_mask (fun a => a) alive _ _ E0 Hlen).
Qed.

Lemma gamma_draws_length (gen : Generator rt) (shape scale : Q) (size : nat) :
  length (fst (engine.gamma_draws rt gen shape scale size)) = size.
Proof.
  revert gen. induction size as [|n IH]; intros gen; simpl; [reflexivity|].
  destruct (next_gamma rt shape scale gen) as [x g].
  specialize (IH g). destruct (engine.gamma_draws rt g shape scale n) as [xs g'].
  simpl in *. now rewrite IH.
Qed.

Lemma sum_at_least_length (l : ndarray) :
  Forall (fun x => 1 <= x) l -> inject_Z (Z.of_nat (length l)) <= sum l.
Proof.
  induction 1 as [|x l Hx _ IH].
  - apply Qle_bool_imp_le. reflexivity.
  - rewrite sum_cons. cbn [length].
    rewrite Nat2Z.inj_succ, <- Z.add_1_r, inject_Z_plus.
    change (inject_Z 1) with 1. lra.
Qed.

Lemma hospital_transitions_bed_days (cfg : utils.ConfigBundle) (gen : Generator rt)
    (size : nat) (hospital_probs : ndarray) (capacity_modifiers : dict.t Q)
    (hospitalised : list bool) (hospital_los_remaining : ndarray)
    (hospitalised' : list bool) (hospital_los_remaining' : ndarray)
    (new_hospital : nat) (bed_days : Q) (gen' : Generator rt) :
  engine.hospital_transitions rt cfg gen size hospital_probs capacity_modifiers
    hospitalised hospital_los_remaining
  = Ok (hospitalised', hospital_los_remaining', new_hospital, bed_days, gen') ->
  inject_Z (Z.of_nat new_hospital) <= bed_days.
Proof.
  unfold engine.hospital_transitions. intros H.
  repeat bind_inv H.
  injection H as _ _ <- <- _.
  match goal with
  | E : engine.gamma rt ?g ?shape ?scale ?k = Ok (?sampled, _) |- _ =>
      unfold engine.gamma in E;
      destruct (ltb shape 0 || ltb scale 0); [discriminate E|];
      injection E as E;
      pose proof (gamma_draws_length g shape scale k) as Hlen;
      rewrite E in Hlen; cbn [fst] in Hlen
  end.
  rewrite <- Hlen.
  match goal with
  | |- _ <= 0.0 + sum (map ?f ?l) =>
      rewrite <- (length_map f l);
      assert (Hs : inject_Z (Z.of_nat (length (map f l))) <= sum (map f l)); [|lra]
  end.
  apply sum_at_least_length. apply List.Forall_forall. intros y Hy.
  apply in_map_iff in Hy. destruct Hy as [z [<- _]].
  pose proof (maximum_ge_left 1.0 z). lra.
Qed.

Section Months.
Context (months : Z) (decisions : option policies.Decisions)
        (cfg : utils.ConfigBundle) (shock_mods : dict.t Q) (base_los : Q).

Lemma deaths_in_step (n : nat) (st st' : engine.Locals rt) :
  foldM (fun st month =>
           engine.simulate_month rt months decisions cfg shock_mods base_los month st)
        (seq 0 n) st = Ok st' ->
  engine.timestep_results rt st = [] ->
  inject_Z (Z.of_nat (count (engine.alive rt st)))
  == inject_Z (Z.of_nat (count (engine.alive rt st')))
     + sum (map states.deaths (engine.timestep_results rt st')).
Proof.
  intros H Hts.
  apply (run_segment rt months decisions cfg shock_mods base_los
           (fun k s =>
              inject_Z (Z.of_nat (count (engine.alive rt st)))
              == inject_Z (Z.of_nat (count (engine.alive rt s)))
                 + sum (map states.deaths (engine.timestep_results rt s))) n)
    with (start := 0%nat) (st := st); [|exact H|].
  - clear H Hts. intros month s s' Hstep Hinv.
    destruct (simulate_month_trace rt _ _ _ _ _ _ _ _ Hstep)
      as (? & ? & ? & ? & ? & ? & ? & ? & ? & ? & ? & ? & ? & ? & ? & ? & ? & ? & ?
          & ? & ? & ? & ? & ? & ? & new_deaths & ? & ? & ? & ? & ? & ?
          & _ & _ & _ & Hmort & _ & _ & _ & Ht).
    rewrite Hinv, Ht, map_app. cbn [map]. rewrite sum_app_one.
    rewrite (mortality_transitions_count _ _ _ _ _ _ _ _ _ _ _ _ _ Hmort).
    cbn [month_timestep states.deaths].
    rewrite Nat2Z.inj_add, inject_Z_plus. lra.
  - rewrite Hts. unfold sum. simpl. lra.
Qed.

Lemma bed_days_in_step (n : nat) (st st' : engine.Locals rt) :
  foldM (fun st month =>
           engine.simulate_month rt months decisions cfg shock_mods base_los month st)
        (seq 0 n) st = Ok st' ->
  engine.timestep_results rt st = [] ->
  Forall (fun t => 0 <= states.hospital_admissions t <= states.bed_days t)
    (engine.timestep_results rt st').
Proof.
  intros H Hts.
  apply (run_segment rt months decisions cfg shock_mods base_los
           (fun k s =>
              Forall (fun t => 0 <= states.hospital_admissions t <= states.bed_days t)
                (engine.timestep_results rt s)) n)
    with (start := 0%nat) (st := st); [|exact H|].
  - clear H Hts. intros month s s' Hstep Hinv.
    destruct (simulate_month_trace rt _ _ _ _ _ _ _ _ Hstep)
      as (? & ? & ? & ? & ? & ? & ? & ? & ? & ? & ? & ? & new_hospital & bed_days & ?
          & ? & ? & ? & ? & ? & ? & ? & ? & ? & ? & ? & ? & ? & ? & ? & ? & ?
          & _ & Hhosp & _ & _ & _ & _ & _ & Ht).
    rewrite Ht. apply Forall_app. split; [exact Hinv|].
    constructor; [|constructor]. cbn [month_timestep states.hospital_admissions
                                       states.bed_days].
    split.
    + rewrite <- (Zle_Qle 0). lia.
    + exact (hospital_transitions_bed_days _ _ _ _ _ _ _ _ _ _ _ _ Hhosp).
  - rewrite Hts. constructor.
Qed.

Lemma age_in_step (n : nat) (st st' : engine.Locals rt) (age0 : ndarray) :
  foldM (fun st month =>
           engine.simulate_month rt months decisions cfg shock_mods base_los month st)
        (seq 0 n) st = Ok st' ->
  dict.get (states.data (engine.cohort rt st)) "age" = Some age0 ->
  states.months_elapsed (engine.cohort rt st')
  = states.months_elapsed (engine.cohort rt st) /\
  exists age,
    dict.get (states.data (engine.cohort rt st')) "age" = Some age /\
    Forall2 (fun a b =>
               b == a + inject_Z (Z.of_nat n)
                        * (inject_Z (utils.time_step_months (utils.transitions_cfg cfg))
                           / 12.0))
      age0 age.
Proof.
  intros H Hage.
  apply (run_segment rt months decisions cfg shock_mods base_los
           (fun k s =>
              states.months_elapsed (engine.cohort rt s)
              = states.months_elapsed (engine.cohort rt st) /\
              exists age,
                dict.get (states.data (engine.cohort rt s)) "age" = Some age /\
                Forall2 (fun a b =>
                           b == a + inject_Z (Z.of_nat k)
                                    * (inject_Z (utils.time_step_months
                                                   (utils.transitions_cfg cfg))
                                       / 12.0))
                  age0 age) n)
    with (start := 0%nat) (st := st); [|exact H|].
  - clear H Hage. intros month s s' Hstep [Hm (age & Hget & Hall)].
    destruct (simulate_month_trace rt _ _ _ _ _ _ _ _ Hstep)
      as (? & ? & ? & ? & ? & ? & ? & ? & ? & ? & ? & ? & ? & ? & ?
          & ? & ? & ? & ? & ? & ? & ? & ? & ? & ? & ? & ? & age' & ? & ? & ? & ?
          & _ & _ & _ & _ & Hage' & Hcohort & _ & _).
    rewrite Hget in Hage'. injection Hage' as <-.
    rewrite Hcohort. split; [exact Hm|].
    eexists. split.
    + unfold month_cohort, engine.set_data. cbn [states.data].
      rewrite !get_set_ne by discriminate. apply get_set_eq.
    + clear -Hall. induction Hall as [|a b age0 age Hab _ IH]; simpl; constructor;
        [|exact IH].
      rewrite Hab, Nat2Z.inj_succ, <- Z.add_1_r, inject_Z_plus.
      change (inject_Z 1) with 1. ring.
  - split; [reflexivity|]. exists age0. split; [exact Hage|].
    apply Forall_Forall2_diag, List.Forall_forall. intros a _. simpl.
    change (inject_Z 0) with 0. ring.
Qed.

End Months.

End Conservation.

Section RoundConservation.
Context (rt : Numpy) (load_config_bundle : result utils.ConfigBundle).

(** X20: deaths are conserved: whenever [simulate_round] returns, the
    number alive in the caller's cohort equals the number alive in the
    cohort returned plus the deaths reported over the timestep results,
    and that sum of deaths is the summary's deaths_total. *)
Theorem deaths_account_for_alive_drop (h : engine.heap)
    (cohort : engine.loc) (months : Z) (decisions : option policies.Decisions)
    (shocks : option (list shocks.Shock)) (config_bundle : option utils.ConfigBundle)
    (seed : Z) (policy_months_active : option (dict.t Z))
    (h' : engine.heap) (working : engine.loc)
    (timesteps : list states.SimulationTimestepResult) (summary : dict.t Q)
    (leaderboard : scoring.DataFrame) :
  engine.simulate_round rt load_config_bundle h cohort months decisions shocks
    config_bundle seed policy_months_active
  = (h', Ok (working, timesteps, summary, leaderboard)) ->
  exists before after alive_before alive_after,
    h !! cohort = Some before /\
    h' !! working = Some after /\
    dict.get (states.data before) "alive" = Some alive_before /\
    dict.get (states.data after) "alive" = Some alive_after /\
    inject_Z (Z.of_nat (count (astype_bool alive_before)))
    == inject_Z (Z.of_nat (count (astype_bool alive_after)))
       + sum (map states.deaths timesteps) /\
    dict.get summary "deaths_total" = Some (sum (map states.deaths timesteps)).
Proof.
  intros H.
  destruct (round_summary_of_timesteps rt _ _ _ _ _ _ _ _ _ _ _ _ _ _ H)
    as (Hpos & _ & final & _ & _ & Hsummary).
  destruct (simulate_round_inv rt _ _ _ _ _ _ _ _ _ _ _ _ _ _ H)
    as (cfg & cin & cout & Hin & -> & _ & Hout & Hcopy).
  destruct (simulate_copy_trace rt _ _ _ _ _ _ _ _ _ _ _ Hcopy)
    as (f & a & l & d & ho & ca & co & mo & los & st & Ha & _ & _ & _ & _ & Hrun
        & Hdata & _ & -> & _ & _).
  unfold engine.run_months in Hrun.
  pose proof (deaths_in_step rt _ _ _ _ _ _ _ _ Hrun eq_refl) as Hcount.
  destruct (months_segment rt _ _ _ _ _ _ _ _ Hrun) as (_ & _ & _ & _ & Hsync).
  destruct Hsync as [_ Hsync].
  { intros Hnil. apply (f_equal (@length nat)) in Hnil.
    rewrite length_seq in Hnil. simpl in Hnil. lia. }
  rewrite get_copy in Ha.
  exists cin, cout, a, (bool_astype (engine.alive rt st)).
  split; [exact Hin|]. split; [exact Hout|]. split; [exact Ha|].
  split; [rewrite Hdata; exact Hsync|].
  split; [rewrite astype_bool_bool_astype; exact Hcount|].
  rewrite Hsummary. reflexivity.
Qed.

(** X21: every admission takes at least one bed-day: whenever
    [simulate_round] returns, each timestep result reports at least as
    many bed-days as hospital admissions, and no negative admissions. *)
Theorem bed_days_cover_admissions (h : engine.heap)
    (cohort : engine.loc) (months : Z) (decisions : option policies.Decisions)
    (shocks : option (list shocks.Shock)) (config_bundle : option utils.ConfigBundle)
    (seed : Z) (policy_months_active : option (dict.t Z))
    (h' : engine.heap) (working : engine.loc)
    (timesteps : list states.SimulationTimestepResult) (summary : dict.t Q)
    (leaderboard : scoring.DataFrame) :
  engine.simulate_round rt load_config_bundle h cohort months decisions shocks
    config_bundle seed policy_months_active
  = (h', Ok (working, timesteps, summary, leaderboard)) ->
  Forall (fun t => 0 <= states.hospital_admissions t <= states.bed_days t) timesteps.
Proof.
  intros H.
  destruct (simulate_round_inv rt _ _ _ _ _ _ _ _ _ _ _ _ _ _ H)
    as (cfg & cin & cout & _ & _ & _ & _ & Hcopy).
  destruct (simulate_copy_trace rt _ _ _ _ _ _ _ _ _ _ _ Hcopy)
    as (f & a & l & d & ho & ca & co & mo & los & st & _ & _ & _ & _ & _ & Hrun
        & _ & _ & -> & _ & _).
  unfold engine.run_months in Hrun.
  exact (bed_days_in_step rt _ _ _ _ _ _ _ _ Hrun eq_refl).
Qed.

(** X22: whenever [simulate_round] returns, the cohort it returns has
    every individual, alive or not, older by months x time_step_months / 12
    years than in the caller's cohort, and its months_elapsed is the
    caller's plus months. *)
Theorem ages_advance (h : engine.heap)
    (cohort : engine.loc) (months : Z) (decisions : option policies.Decisions)
    (shocks : option (list shocks.Shock)) (config_bundle : option utils.ConfigBundle)
    (seed : Z) (policy_months_active : option (dict.t Z))
    (h' : engine.heap) (working : engine.loc)
    (timesteps : list states.SimulationTimestepResult) (summary : dict.t Q)
    (leaderboard : scoring.DataFrame) :
  engine.simulate_round rt load_config_bundle h cohort months decisions shocks
    config_bundle seed policy_months_active
  = (h', Ok (working, timesteps, summary, leaderboard)) ->
  exists cfg before after age_before age_after,
    bundle_in_use load_config_bundle config_bundle = Ok cfg /\
    h !! cohort = Some before /\
    h' !! working = Some after /\
    dict.get (states.data before) "age" = Some age_before /\
    dict.get (states.data after) "age" = Some age_after /\
    Forall2 (fun a b =>
               b == a + inject_Z months
                        * (inject_Z (utils.time_step_months (utils.transitions_cfg cfg))
                           / 12.0))
      age_before age_after /\
    states.months_elapsed after = (states.months_elapsed before + months)%Z.
Proof.
  intros H.
  destruct (round_summary_of_timesteps rt _ _ _ _ _ _ _ _ _ _ _ _ _ _ H)
    as (Hpos & _).
  assert (Hcfg : exists cfg, bundle_in_use load_config_bundle config_bundle = Ok cfg /\
            exists cin cout,
              h !! cohort = Some cin /\ h' !! working = Some cout /\
              engine.simulate_copy rt (states.copy cin) months decisions shocks cfg seed
                policy_months_active = Ok (cout, timesteps, summary, leaderboard)).
  { unfold engine.simulate_round in H. unfold bundle_in_use.
    destruct (match config_bundle with Some c => Ok c | None => load_config_bundle end)
      as [cfg|e]; [|discriminate H].
    exists cfg. split; [reflexivity|].
    destruct (h !! cohort) as [cin|] eqn:Ecin; [|discriminate H].
    destruct (engine.simulate_copy _ _ _ _ _ _ _ _) as [[[[cout ts'] sm'] lb']|e] eqn:Ecopy;
      [|discriminate H].
    injection H as <- <- <- <- <-.
    exists cin, cout. split; [reflexivity|]. split; [|exact Ecopy].
    apply list_lookup_insert_eq. rewrite length_app. simpl. lia. }
  destruct Hcfg as (cfg & Hcfg & cin & cout & Hin & Hout & Hcopy).
  destruct (simulate_copy_trace rt _ _ _ _ _ _ _ _ _ _ _ Hcopy)
    as (f & a & l & d & ho & ca & co & mo & los & st & _ & _ & _ & _ & _ & Hrun
        & Hdata & Hmonths & _ & _ & _).
  unfold engine.run_months in Hrun.
  assert (Hfeat : exists age, dict.get (states.data cin) "age" = Some age).
  { unfold engine.simulate_copy in Hcopy. bind_inv Hcopy.
    unfold engine._build_features in E. bind_inv E. apply getitem_ok in E0.
    rewrite get_copy in E0. now exists x0. }
  destruct Hfeat as [age0 Hage0].
  destruct (age_in_step rt _ _ _ _ _ _ _ _ age0 Hrun) as [Hm (age & Hage & Hall)].
  { cbn [engine.cohort]. now rewrite get_copy. }
  exists cfg, cin, cout, age0, age.
  split; [exact Hcfg|]. split; [exact Hin|]. split; [exact Hout|].
  split; [exact Hage0|]. split; [rewrite Hdata; exact Hage|]. split.
  - rewrite Z2Nat.id in Hall by lia. exact Hall.
  - rewrite Hmonths, Hm. reflexivity.
Qed.

End RoundConservation.

Lemma simulate_round_leaderboard_single_row_witness :
  exists total,
    scoring.index (snd example.outputs) = [0%nat] /\
    dict.get (scoring.columns (snd example.outputs)) "rank" = Some (scoring.Float [1]) /\
    dict.get (scoring.columns (snd example.outputs)) "total_score"
    = Some (scoring.Float [total]) /\
    total == 0.
Proof.
  exact (simulate_round_leaderboard_single_row example.numpy _ _ _ _ _ _ _ _ _ _ _ _ _ _
           example_sqrt_zero example_run_returns).
Defined.

Lemma simulate_round_needs_a_month_witness :
  raises (snd (engine.simulate_round example.numpy (Ok example.bundle) [example.cohort]
                 0%nat 0 (Some example.decisions) None (Some example.bundle) 456 None)).
Proof.
  apply (simulate_round_needs_a_month example.numpy). lia.
Defined.

Lemma simulate_round_summary_of_timesteps_witness :
  (0 < 2)%Z /\
  map states.month_index (snd (fst (fst example.outputs))) = month_indices (Z.to_nat 2) /\
  exists final,
    last (snd (fst (fst example.outputs))) = Some final /\
    states.month_index final = 2%Z /\
    snd (fst example.outputs) = summary_of (snd (fst (fst example.outputs))) final.
Proof.
  exact (simulate_round_summary_of_timesteps example.numpy _ _ _ _ _ _ _ _ _ _ _ _ _ _
           example_run_returns).
Defined.

Lemma deaths_account_for_alive_drop_witness :
  exists before after alive_before alive_after,
    [example.cohort] !! 0%nat = Some before /\
    example.heap_after !! example.advanced = Some after /\
    dict.get (states.data before) "alive" = Some alive_before /\
    dict.get (states.data after) "alive" = Some alive_after /\
    inject_Z (Z.of_nat (count (astype_bool alive_before)))
    == inject_Z (Z.of_nat (count (astype_bool alive_after)))
       + sum (map states.deaths (snd (fst (fst example.outputs)))) /\
    dict.get (snd (fst example.outputs)) "deaths_total"
    = Some (sum (map states.deaths (snd (fst (fst example.outputs))))).
Proof.
  exact (deaths_account_for_alive_drop example.numpy _ _ _ _ _ _ _ _ _ _ _ _ _ _
           example_run_returns).
Defined.

Lemma busy_run_returns :
  engine.simulate_round example.numpy (Ok example3.bundle) [example3.cohort] 0%nat 2
    (Some example.decisions) None (Some example3.bundle) 456 None
  = (example3.heap_after,
     Ok (example3.advanced, example3.timesteps,
         snd (fst example3.outputs), snd example3.outputs)).
Proof. vm_compute. reflexivity. Defined.

Lemma bed_days_cover_admissions_witness :
  Forall (fun t => 0 <= states.hospital_admissions t <= states.bed_days t)
    example3.timesteps /\
  map states.hospital_admissions example3.timesteps = [3; 1].
Proof.
  split.
  - exact (bed_days_cover_admissions example.numpy _ _ _ _ _ _ _ _ _ _ _ _ _ _
             busy_run_returns).
  - vm_compute. reflexivity.
Defined.

Lemma ages_advance_witness :
  exists cfg before after age_before age_after,
    bundle_in_use (Ok example.bundle) (Some example.bundle) = Ok cfg /\
    [example.cohort] !! 0%nat = Some before /\
    example.heap_after !! example.advanced = Some after /\
    dict.get (states.data before) "age" = Some age_before /\
    dict.get (states.data after) "age" = Some age_after /\
    Forall2 (fun a b =>
               b == a + inject_Z 2
                        * (inject_Z (utils.time_step_months (utils.transitions_cfg cfg))
                           / 12.0))
      age_before age_after /\
    states.months_elapsed after = (states.months_elapsed before + 2)%Z.
Proof.
  exact (ages_advance example.numpy _ _ _ _ _ _ _ _ _ _ _ _ _ _ example_run_returns).
Defined.

Lemma mapM_Forall2 {A B : Type} (f : A -> result B) (l : list A) (out : list B) :
  mapM f l = Ok out -> Forall2 (fun x y => f x = Ok y) l out.
Proof.
  revert out. induction l as [|x l IH]; intros out H; simpl in H.
  - injection H as <-. constructor.
  - destruct (f x) as [y|] eqn:E; [|discriminate H]. cbn [bind] in H.
    destruct (mapM f l) as [ys|]; [|discriminate H]. cbn [bind] in H.
    injection H as <-. constructor; [exact E|now apply IH].
Qed.

Lemma foldM_keeps {A B : Type} (P : A -> Prop) (f : A -> B -> result A)
    (l : list B) (a a' : A) :
  (forall a b a1, In b l -> P a -> f a b = Ok a1 -> P a1) ->
  P a -> foldM f l a = Ok a' -> P a'.
Proof.
  revert a. induction l as [|b l IH]; intros a Hstep Ha H.
  - injection H as <-. exact Ha.
  - rewrite foldM_cons in H. destruct (f a b) as [a1|] eqn:E; cbn [bind] in H.
    + apply (IH a1); [| |exact H].
      * intros a0 b0 a2 Hin. apply Hstep. now right.
      * apply (Hstep a b a1); [now left|exact Ha|exact E].
    + discriminate H.
Qed.

Lemma inplace_Forall {A B : Type} (f : A -> B -> A) (P : A -> Prop) (G : B -> Prop)
    (total : list A) (arr : list B) (v : list A) :
  (forall x y, P x -> G y -> P (f x y)) ->
  inplace f total arr = Ok v -> Forall P total -> Forall G arr -> Forall P v.
Proof.
  intros Hf. unfold inplace. destruct (length arr =? length total)%nat.
  - intros [= <-] Ht. revert arr. induction Ht as [|x total Hx Ht IH]; intros arr Ha.
    + constructor.
    + destruct Ha as [|y arr Hy Ha]; simpl; constructor; [now apply Hf|now apply IH].
  - destruct arr as [|y [|y' arr]]; try discriminate. intros [= <-] Ht Ha.
    inversion Ha; subst. induction Ht as [|x total Hx Ht IH]; simpl; constructor.
    + now apply Hf.
    + exact IH.
Qed.

Lemma iadd_total_nonneg (total arr total' : array) :
  total_nonneg total -> nonnegative arr -> iadd total arr = Ok total' ->
  total_nonneg total'.
Proof.
  intros Ht Ha H. destruct total as [t|t|t].
  - destruct arr; simpl in H; try discriminate H.
    destruct (inplace orb t v); [|discriminate H]. injection H as <-. exact I.
  - destruct arr; simpl in H; try discriminate H;
      match type of H with bind ?m _ = _ => destruct m end;
      try discriminate H; injection H as <-; exact I.
  - simpl in H. destruct (inplace fadd t (as_float arr)) as [v|] eqn:E; [|discriminate H].
    injection H as <-. simpl.
    refine (inplace_Forall fadd nonneg_number nonneg_number _ _ _ _ E Ht Ha).
    intros [x| |] [y| |] Hx Hy; simpl in *; try contradiction. lra.
Qed.

Lemma integer_guarded (z : Z) : ~ inject_Z z + 0.000000000001 == 0.
Proof.
  destruct (Z.le_gt_cases 0 z) as [H|H].
  - rewrite Zle_Qle in H. change (inject_Z 0) with 0 in H. lra.
  - assert (H' : (z <= -1)%Z) by lia. rewrite Zle_Qle in H'.
    change (inject_Z (-1)) with (-1) in H'. lra.
Qed.

Lemma total_guarded (total : array) :
  total_nonneg total -> Forall guarded (as_float total).
Proof.
  destruct total as [t|t|t]; simpl; intros H.
  - apply List.Forall_map. apply List.Forall_forall. intros b _.
    exists (of_bool b). split; [reflexivity|]. destruct b; simpl; lra.
  - apply List.Forall_map. apply List.Forall_forall. intros z _.
    exists (inject_Z z). split; [reflexivity|]. apply integer_guarded.
  - eapply List.Forall_impl; [|exact H]. intros [q| |] Hq; simpl in Hq; try contradiction.
    exists q. split; [reflexivity|]. lra.
Qed.

Lemma nonneg_is_number (l : list float64) : Forall nonneg_number l -> Forall number l.
Proof.
  apply List.Forall_impl. intros [q| |] H; simpl in H; try contradiction. now exists q.
Qed.

Lemma float_arrays (out : list array) :
  Forall (fun arr => exists v, arr = float_array v /\ Forall unit_interval v) out ->
  exists adjusted,
    out = map float_array adjusted /\ Forall (Forall unit_interval) adjusted.
Proof.
  induction 1 as [|arr out [v [-> Hv]] _ [adjusted [-> IH]]].
  - exists []. split; [reflexivity|constructor].
  - exists (v :: adjusted). split; [reflexivity|]. constructor; assumption.
Qed.

Lemma clipped_numbers (kept : list float64) :
  Forall number kept ->
  exists v, FloatArray (map (fun x => fclip x (Finite 0.0) (Finite 1.0)) kept)
            = float_array v /\ Forall unit_interval v.
Proof.
  induction 1 as [|x kept [q ->] _ [v [E Hv]]].
  - exists []. split; [reflexivity|constructor].
  - exists (clip q 0.0 1.0 :: v). split.
    + cbn [map]. rewrite fclip_Finite. injection E as E.
      unfold float_array. cbn [map]. now rewrite E.
    + constructor; [|exact Hv]. pose proof (clip_bounds q 0.0 1.0).
      unfold unit_interval. lra.
Qed.

Lemma probabilities_nonnegative (a : array) : holds_probabilities a -> nonnegative a.
Proof.
  apply List.Forall_impl. intros [q| |] H; simpl in *; try contradiction. lra.
Qed.

(** X23: on arrays of any element type whose values are probabilities,
    numbers within [0, 1], when [ensure_competing_risk] returns it returns
    either its argument itself or, array for array, float64 arrays whose
    values are all numbers within [0, 1]: no NaN, no infinity and nothing
    outside the interval. *)
Theorem ensure_competing_risk_clips (probabilities out : list array) :
  Forall holds_probabilities probabilities ->
  hazards.ensure_competing_risk probabilities = Ok out ->
  out = probabilities \/
  exists adjusted,
    out = map float_array adjusted /\
    length adjusted = length probabilities /\
    Forall (Forall unit_interval) adjusted.
Proof.
  unfold hazards.ensure_competing_risk. intros Hprob H.
  assert (Hnn : Forall nonnegative probabilities).
  { eapply List.Forall_impl; [|exact Hprob]. apply probabilities_nonnegative. }
  clear Hprob.
  destruct probabilities as [|first rest] eqn:Eps; [discriminate H|].
  rewrite <- Eps in *. cbn [bind] in H.
  destruct (foldM iadd probabilities (zeros_like first)) as [total|] eqn:Etot;
    [|discriminate H].
  cbn [bind] in H.
  assert (Htot : total_nonneg total).
  { refine (foldM_keeps total_nonneg iadd probabilities _ _ _ _ Etot).
    - intros a b a1 Hin Ha E. apply (iadd_total_nonneg a b a1 Ha); [|exact E].
      rewrite List.Forall_forall in Hnn. now apply Hnn.
    - destruct first as [v|v|v]; simpl; try exact I.
      apply List.Forall_map. apply List.Forall_forall. intros x _. simpl. lra. }
  apply total_guarded in Htot.
  set (excess := map (fun t => fmaximum (fsub t (Finite 1.0)) (Finite 0.0))
                   (as_float total)) in *.
  assert (Hex : Forall number excess).
  { unfold excess. apply List.Forall_map.
    eapply List.Forall_impl; [|exact Htot]. intros x [q [-> _]].
    rewrite fexcess_Finite. now eexists. }
  destruct (np.max excess) as [worst|]; [|discriminate H]. cbn [bind] in H.
  destruct (fle worst (Finite 0.00000001)); [injection H as <-; now left|].
  right. apply mapM_Forall2 in H.
  assert (Hout : Forall (fun arr => exists v, arr = float_array v
                                      /\ Forall unit_interval v) out).
  { assert (Hin : Forall nonnegative probabilities) by exact Hnn.
    clear -H Hin Htot Hex.
    induction H as [|arr adj ps adjusted Hadj _ IH]; constructor.
    - inversion Hin as [|? ? Harr _]; subst.
      destruct (broadcast2 fdiv (as_float arr) _) as [share|] eqn:E1;
        [|discriminate Hadj].
      cbn [bind] in Hadj.
      destruct (broadcast2 fmul excess share) as [cut|] eqn:E2; [|discriminate Hadj].
      cbn [bind] in Hadj.
      destruct (broadcast2 fsub (as_float arr) cut) as [kept|] eqn:E3;
        [|discriminate Hadj].
      cbn [bind] in Hadj. injection Hadj as <-.
      apply clipped_numbers.
      assert (Hshare : Forall number share).
      { refine (broadcast2_Forall fdiv number
                  (fun y => exists q, y = Finite q /\ ~ q == 0) number
                  _ _ _ _ E1 (nonneg_is_number _ Harr) _).
        - intros x y [a ->] [b [-> Hb]]. unfold fdiv.
          destruct (Qeq_bool b 0) eqn:E; [apply Qeq_bool_iff in E; contradiction|].
          now eexists.
        - apply List.Forall_map. eapply List.Forall_impl; [|exact Htot].
          intros x [q [-> Hq]]. exists (q + 0.000000000001). split; [reflexivity|exact Hq]. }
      assert (Hcut : Forall number cut).
      { refine (broadcast2_Forall fmul number number number _ _ _ _ E2 Hex Hshare).
        intros x y [a ->] [b ->]. now eexists. }
      refine (broadcast2_Forall fsub number number number _ _ _ _ E3
                (nonneg_is_number _ Harr) Hcut).
      intros x y [a ->] [b ->]. now eexists.
    - apply IH. now inversion Hin. }
  destruct (float_arrays out Hout) as [adjusted [-> Hunit]].
  exists adjusted. split; [reflexivity|]. split; [|exact Hunit].
  apply Forall2_length in H. rewrite length_map in H. now symmetry.
Qed.

Lemma ensure_competing_risk_clips_witness :
  exists out,
    hazards.ensure_competing_risk
      [float_array [0.9; 0.5]; BoolArray [true; false]; IntArray [0; 1]%Z] = Ok out /\
    (out = [float_array [0.9; 0.5]; BoolArray [true; false]; IntArray [0; 1]%Z] \/
     exists adjusted,
       out = map float_array adjusted /\
       length adjusted = 3%nat /\
       Forall (Forall unit_interval) adjusted).
Proof.
  eexists. split; [reflexivity|].
  apply (ensure_competing_risk_clips
           [float_array [0.9; 0.5]; BoolArray [true; false]; IntArray [0; 1]%Z]).
  - unfold holds_probabilities. cbn [as_float float_array map].
    repeat constructor; apply Qle_bool_imp_le; reflexivity.
  - reflexivity.
Defined.

(** ** engine.py: [_imd_gap] and [_calculate_qalys] *)

Lemma sum_unit (l : ndarray) :
  Forall unit_interval l -> 0 <= sum l <= inject_Z (Z.of_nat (length l)).
Proof.
  induction 1 as [|x l [Hx0 Hx1] _ IH].
  - unfold sum. simpl. split; apply Qle_bool_imp_le; reflexivity.
  - rewrite sum_cons. cbn [length].
    rewrite Nat2Z.inj_succ, <- Z.add_1_r, inject_Z_plus.
    change (inject_Z 1) with 1. lra.
Qed.

Lemma mean_unit (l : ndarray) : Forall unit_interval l -> 0 <= mean l <= 1.
Proof.
  intros H. pose proof (sum_unit l H) as [H0 H1]. unfold mean.
  destruct l as [|x l].
  - split; apply Qle_bool_imp_le; reflexivity.
  - assert (Hn : 0 < inject_Z (Z.of_nat (length (x :: l)))).
    { rewrite <- (Zlt_Qlt 0). simpl. lia. }
    split; [apply Qle_shift_div_l|apply Qle_shift_div_r]; lra.
Qed.

Lemma select_Forall {A : Type} (P : A -> Prop) (arr : list A) (mask : list bool) :
  Forall P arr -> Forall P (select arr mask).
Proof.
  intros H. revert mask. induction H as [|x arr Hx _ IH]; intros [|m mask]; simpl;
    try constructor.
  destruct m; [constructor; [exact Hx|apply IH]|apply IH].
Qed.

Lemma same_mask (c bound : Q) (l : ndarray) :
  bound == c -> Forall (fun x => x == c) l ->
  map (fun x => Qeq_bool x bound) l = map (fun _ => true) l.
Proof.
  intros Hb. induction 1 as [|x l Hx _ IH]; [reflexivity|].
  simpl. rewrite IH. f_equal. apply Qeq_bool_iff. now rewrite Hx, Hb.
Qed.

(** X24: when [_imd_gap] returns on disability flags that lie in [0, 1],
    the gap lies in [-1, 1]; and when all the living are in one IMD
    quintile, or nobody is alive, the gap is 0. *)
Theorem imd_gap_bounds (disability imd : ndarray) (alive : list bool) (gap : Q) :
  engine._imd_gap disability imd alive = Ok gap ->
  (Forall unit_interval disability -> -1 <= gap <= 1) /\
  ((exists quintile, Forall (fun x => x == quintile) (select imd alive)) -> gap == 0).
Proof.
  unfold engine._imd_gap. intros H.
  destruct (count alive =? 0)%nat.
  { injection H as <-. split; intros _; [split; apply Qle_bool_imp_le|]; reflexivity. }
  repeat bind_inv H. injection H as <-.
  unfold mask_get in E, E0.
  destruct (length alive =? length imd)%nat; [|discriminate E].
  destruct (length alive =? length disability)%nat; [|discriminate E0].
  injection E as <-. injection E0 as <-.
  split.
  - intros Hd.
    assert (Hsel : forall mask,
              Forall unit_interval (select (select disability alive) mask)).
    { intros mask. now apply select_Forall, select_Forall. }
    pose proof (mean_unit _ (Hsel (map (fun x => Qeq_bool x
                  (scoring.series_min (select imd alive))) (select imd alive)))).
    pose proof (mean_unit _ (Hsel (map (fun x => Qeq_bool x
                  (scoring.series_max (select imd alive))) (select imd alive)))).
    lra.
  - intros [c Hc].
    destruct (select imd alive) as [|x l] eqn:El; [simpl; ring|].
    rewrite <- El in *.
    assert (Hlo : scoring.series_min (select imd alive) == c).
    { rewrite El in *. simpl. inversion Hc; subst. now apply fold_minimum_const. }
    assert (Hhi : scoring.series_max (select imd alive) == c).
    { rewrite El in *. simpl. inversion Hc; subst. now apply fold_maximum_const. }
    rewrite (same_mask c _ _ Hlo Hc), (same_mask c _ _ Hhi Hc). ring.
Qed.

Lemma imd_gap_bounds_witness :
  exists gap,
    engine._imd_gap [1; 0; 1; 1] [1; 1; 5; 5] [true; true; true; false] = Ok gap /\
    -1 <= gap <= 1.
Proof.
  eexists. split; [reflexivity|].
  apply (imd_gap_bounds [1; 0; 1; 1] [1; 1; 5; 5] [true; true; true; false]).
  - reflexivity.
  - repeat constructor; apply Qle_bool_imp_le; reflexivity.
Defined.

Lemma living_sum (weights : dict.t Q) (ltc_state : list Z) (disability alive : list bool) :
  length disability = length ltc_state -> length alive = length ltc_state ->
  sum (zip_with Qmult
         (zip_with Qmult
            (map (fun s =>
                    if (s =? 0)%Z then dict.get_or weights "healthy" 0.9
                    else if (s =? 1)%Z then dict.get_or weights "ltc_mild" 0.8
                    else if (s =? 2)%Z then dict.get_or weights "ltc_moderate" 0.65
                    else if (3 <=? s)%Z then dict.get_or weights "ltc_severe" 0.45
                    else 0.5) ltc_state)
            (map (fun d : bool =>
                    if d
                    then dict.get_or weights "disability" 0.5
                         / maximum (dict.get_or weights "healthy" 0.9) 0.000001
                    else 1.0) disability))
         (bool_astype alive))
  == living_utility weights ltc_state disability alive.
Proof.
  revert disability alive.
  induction ltc_state as [|s ltc_state IH]; intros [|d disability] [|a alive] Hd Ha;
    try discriminate; [reflexivity|].
  cbn [map zip_with bool_astype living_utility].
  change (map of_bool alive) with (bool_astype alive).
  rewrite sum_cons, IH by (simpl in *; lia).
  unfold utility. destruct a; unfold of_bool; ring.
Qed.

(** X25: on arrays of one length [_calculate_qalys] returns, and the
    result is the time step in years times the sum, over the living only,
    of the weight of the individual's tier times the disability factor if
    disabled; the dead add nothing. *)
Theorem calculate_qalys_counts_the_living (ltc_state : list Z)
    (disability alive : list bool) (weights : dict.t Q) (dt_years : Q) :
  length disability = length ltc_state -> length alive = length ltc_state ->
  exists qalys,
    engine._calculate_qalys ltc_state disability alive weights dt_years = Ok qalys /\
    qalys == living_utility weights ltc_state disability alive * dt_years.
Proof.
  intros Hd Ha. unfold engine._calculate_qalys.
  rewrite broadcast2_same by (rewrite !length_map; lia). cbn [bind].
  rewrite broadcast2_same
    by (unfold bool_astype; rewrite length_zip_with, !length_map; lia).
  cbn [bind]. eexists. split; [reflexivity|].
  now rewrite living_sum.
Qed.

Lemma calculate_qalys_counts_the_living_witness :
  exists qalys,
    engine._calculate_qalys [0; 2; 3]%Z [false; true; true] [true; true; false] [] (1 / 12)
    = Ok qalys /\
    qalys == living_utility [] [0; 2; 3]%Z [false; true; true] [true; true; false]
             * (1 / 12).
Proof.
  apply (calculate_qalys_counts_the_living [0; 2; 3]%Z [false; true; true]
           [true; true; false] [] (1 / 12)); reflexivity.
Defined.

(** ** engine.py: modifiers and month counters *)

Lemma get_or_absent {V : Type} (d : dict.t V) (k : string) (default : V) :
  ~ In k (dict.keys d) -> dict.get_or d k default = default.
Proof.
  intros H. unfold dict.get_or. apply get_none_keys in H. now rewrite H.
Qed.

Lemma inert_source (coefficients : dict.t Q) (features : dict.t ndarray)
    (alive_mask : ndarray) (source : dict.t Q) :
  Forall (inert coefficients features) (dict.keys source) ->
  fold_left
    (fun combined kv =>
       let '(key, value) := kv in
       if String.prefix "capacity_" key then combined
       else if dict.mem coefficients key && negb (dict.mem combined key)
            then dict.set combined key (map (fun _ : Q => value) alive_mask)
            else combined)
    source features = features.
Proof.
  induction source as [|[key value] source IH]; intros H; [reflexivity|].
  unfold dict.keys in H. cbn [map fst] in H.
  apply List.Forall_cons_iff in H. destruct H as [Hk H].
  cbn [fold_left]. cbv beta iota.
  match goal with
  | |- fold_left _ _ ?first = _ => assert (Hstep : first = features)
  end.
  { destruct (String.prefix "capacity_" key) eqn:Ep; [reflexivity|].
    unfold inert, ndarray in Hk.
    destruct Hk as [Hk|[Hk|Hk]]; [congruence| |]; rewrite Hk;
      rewrite ?andb_false_r; reflexivity. }
  rewrite Hstep. apply IH. exact H.
Qed.

(** X26: a modifier has no part in a transition's probabilities unless it
    is keyed by the transition's name (a shift of the intercept) or by a
    coefficient of the transition that is no feature yet: with all
    modifier keys other than the name, and each a capacity modifier, no
    coefficient, or a feature already, [_probability_for_transition]
    returns what it returns without any modifiers. *)
Theorem probability_ignores_inert_modifiers (rt : Numpy) (name : string)
    (features : dict.t ndarray) (intercept : Q) (coefficients : dict.t Q)
    (dt_months : Q) (policy_modifiers shock_modifiers : dict.t Q) :
  ~ In name (dict.keys policy_modifiers) -> ~ In name (dict.keys shock_modifiers) ->
  Forall (inert coefficients features) (dict.keys policy_modifiers) ->
  Forall (inert coefficients features) (dict.keys shock_modifiers) ->
  engine._probability_for_transition rt name features intercept coefficients dt_months
    policy_modifiers shock_modifiers
  = engine._probability_for_transition rt name features intercept coefficients dt_months
      [] [].
Proof.
  intros Hp Hs Hip His. unfold engine._probability_for_transition.
  destruct (dict.getitem features "age") as [age|e]; [|reflexivity]. cbn [bind].
  rewrite (get_or_absent policy_modifiers name 0.0 Hp).
  rewrite (get_or_absent shock_modifiers name 0.0 Hs).
  cbn [fold_left].
  rewrite (inert_source coefficients features _ policy_modifiers Hip).
  rewrite (inert_source coefficients features _ shock_modifiers His).
  reflexivity.
Qed.

Lemma probability_ignores_inert_modifiers_witness :
  engine._probability_for_transition example.numpy "mortality"
    [("age", [70; 80])] (-3) [("age", 0.02); ("shock_mortality", 1)] 1
    [("disability_onset", -0.2); ("age", 5)]
    [("capacity_hospital", -0.2); ("shock_hospital", 0.25)]
  = engine._probability_for_transition example.numpy "mortality"
      [("age", [70; 80])] (-3) [("age", 0.02); ("shock_mortality", 1)] 1 [] [].
Proof.
  apply (probability_ignores_inert_modifiers example.numpy "mortality").
  - simpl. intuition discriminate.
  - simpl. intuition discriminate.
  - constructor; [right; left; reflexivity|].
    constructor; [right; right; reflexivity|constructor].
  - constructor; [left; reflexivity|].
    constructor; [right; left; reflexivity|constructor].
Defined.

Lemma keys_set_present {V : Type} (d : dict.t V) (k : string) (v : V) :
  In k (dict.keys d) -> dict.keys (dict.set d k v) = dict.keys d.
Proof.
  unfold dict.keys. induction d as [|[k0 v0] d IH]; simpl; [tauto|].
  destruct (String.eqb k0 k) eqn:E; [reflexivity|].
  apply String.eqb_neq in E. intros [H|H]; [congruence|].
  simpl. now rewrite IH.
Qed.

Lemma get_in_keys {V : Type} (d : dict.t V) (k : string) (v : V) :
  dict.get d k = Some v -> In k (dict.keys d).
Proof.
  intros H. destruct (in_dec string_dec k (dict.keys d)) as [Hin|Hin]; [exact Hin|].
  apply get_none_keys in Hin. congruence.
Qed.

Lemma counters_loop (decisions : option policies.Decisions) (ks : list string)
    (counters : dict.t Z) :
  List.NoDup ks -> (forall k, In k ks -> In k (dict.keys counters)) ->
  let after :=
    fold_left
      (fun counters policy_id =>
         if policies.truthy decisions
            && dict.mem (policies.items_of decisions) policy_id
         then
           if ltb 0 (dict.get_or
                       (dict.get_or (policies.items_of decisions) policy_id [])
                       "intensity" 0)
           then dict.set counters policy_id
                  (dict.get_or counters policy_id 0 + 1)%Z
           else counters
         else counters)
      ks counters in
  dict.keys after = dict.keys counters /\
  forall policy_id c,
    dict.get counters policy_id = Some c ->
    dict.get after policy_id
    = Some (if existsb (String.eqb policy_id) ks && advances decisions policy_id
            then (c + 1)%Z else c).
Proof.
  intros Hnd. revert counters. induction Hnd as [|k ks Hk Hnd IH]; intros counters Hin.
  - simpl. split; [reflexivity|]. intros policy_id c H. exact H.
  - cbn [fold_left].
    set (next := if policies.truthy decisions
                    && dict.mem (policies.items_of decisions) k
                 then if ltb 0 (dict.get_or
                                  (dict.get_or (policies.items_of decisions) k [])
                                  "intensity" 0)
                      then dict.set counters k (dict.get_or counters k 0 + 1)%Z
                      else counters
                 else counters).
    assert (Hnext : dict.keys next = dict.keys counters /\
                    forall policy_id c,
                      dict.get counters policy_id = Some c ->
                      dict.get next policy_id
                      = Some (if String.eqb policy_id k && advances decisions policy_id
                              then (c + 1)%Z else c)).
    { unfold next, advances.
      destruct (policies.truthy decisions && dict.mem (policies.items_of decisions) k)
        eqn:E1.
      - destruct (ltb 0 _) eqn:E2.
        + split; [apply keys_set_present, Hin; now left|].
          intros policy_id c Hc. rewrite get_set, String.eqb_sym.
          destruct (String.eqb policy_id k) eqn:E.
          * apply String.eqb_eq in E. subst policy_id.
            rewrite E1, E2. cbn [andb]. unfold dict.get_or. now rewrite Hc.
          * exact Hc.
        + split; [reflexivity|]. intros policy_id c Hc. rewrite Hc.
          destruct (String.eqb policy_id k) eqn:E; [|reflexivity].
          apply String.eqb_eq in E. subst policy_id. rewrite E1, E2. reflexivity.
      - split; [reflexivity|]. intros policy_id c Hc. rewrite Hc.
        destruct (String.eqb policy_id k) eqn:E; [|reflexivity].
        apply String.eqb_eq in E. subst policy_id.
        fold (advances decisions k). unfold advances. rewrite E1. reflexivity. }
    destruct Hnext as [Hkeys Hget].
    destruct (IH next) as [Hkeys' Hget'].
    { intros k' Hk'. rewrite Hkeys. apply Hin. now right. }
    split; [now rewrite Hkeys'|].
    intros policy_id c Hc.
    rewrite (Hget' policy_id _ (Hget policy_id c Hc)). f_equal.
    cbn [existsb].
    destruct (String.eqb policy_id k) eqn:E; cbn [orb andb].
    + apply String.eqb_eq in E. subst policy_id.
      assert (Hex : existsb (String.eqb k) ks = false).
      { destruct (existsb (String.eqb k) ks) eqn:Ex; [|reflexivity].
        apply existsb_exists in Ex. destruct Ex as [k' [Hk' Ek']].
        apply String.eqb_eq in Ek'. subst k'. contradiction. }
      rewrite Hex. cbn [andb]. reflexivity.
    + reflexivity.
Qed.

Lemma simulate_month_counters (rt : Numpy) (months : Z)
    (decisions : option policies.Decisions) (cfg : utils.ConfigBundle)
    (shock_mods : dict.t Q) (base_los : Q) (month : nat) (st st' : engine.Locals rt) :
  engine.simulate_month rt months decisions cfg shock_mods base_los month st = Ok st' ->
  engine.policy_counters rt st'
  = fold_left
      (fun counters policy_id =>
         if policies.truthy decisions
            && dict.mem (policies.items_of decisions) policy_id
         then
           if ltb 0 (dict.get_or
                       (dict.get_or (policies.items_of decisions) policy_id [])
                       "intensity" 0)
           then dict.set counters policy_id
                  (dict.get_or counters policy_id 0 + 1)%Z
           else counters
         else counters)
      (dict.keys (engine.policy_counters rt st)) (engine.policy_counters rt st).
Proof.
  unfold engine.simulate_month. intros H.
  repeat bind_inv H. injection H as <-. reflexivity.
Qed.

(** X27: one month leaves the month counters with the same keys and moves
    each by at most one: the counter of a policy advances by 1 exactly
    when the decisions hold that policy with an intensity above 0, the
    intensity of a decision that gives none counting as 0 here; every
    other counter keeps its value. *)
Theorem month_counters_advance (rt : Numpy) (months : Z)
    (decisions : option policies.Decisions) (cfg : utils.ConfigBundle)
    (shock_mods : dict.t Q) (base_los : Q) (month : nat) (st st' : engine.Locals rt) :
  List.NoDup (dict.keys (engine.policy_counters rt st)) ->
  engine.simulate_month rt months decisions cfg shock_mods base_los month st = Ok st' ->
  dict.keys (engine.policy_counters rt st') = dict.keys (engine.policy_counters rt st) /\
  forall policy_id c,
    dict.get (engine.policy_counters rt st) policy_id = Some c ->
    dict.get (engine.policy_counters rt st') policy_id
    = Some (if advances decisions policy_id then (c + 1)%Z else c).
Proof.
  intros Hnd H. rewrite (simulate_month_counters _ _ _ _ _ _ _ _ _ H).
  destruct (counters_loop decisions _ (engine.policy_counters rt st) Hnd (fun k Hk => Hk))
    as [Hkeys Hget].
  split; [exact Hkeys|].
  intros policy_id c Hc. rewrite (Hget policy_id c Hc). f_equal.
  assert (Hex : existsb (String.eqb policy_id) (dict.keys (engine.policy_counters rt st))
                = true).
  { apply existsb_exists. exists policy_id. split; [|apply String.eqb_refl].
    exact (get_in_keys _ _ _ Hc). }
  rewrite Hex. reflexivity.
Qed.

Lemma example_month_returns :
  engine.simulate_month example.numpy 2 (Some example.decisions) example.bundle
    (shocks.active_shock_modifiers example.industrial_action) 7 0 example2.start
  = Ok example2.after_month.
Proof.
  unfold example2.after_month.
  assert (Hok : match engine.simulate_month example.numpy 2 (Some example.decisions)
                        example.bundle
                        (shocks.active_shock_modifiers example.industrial_action) 7 0
                        example2.start with
                | Ok _ => true
                | Raise _ => false
                end = true) by (vm_compute; reflexivity).
  destruct (engine.simulate_month example.numpy 2 (Some example.decisions)
              example.bundle (shocks.active_shock_modifiers example.industrial_action)
              7 0 example2.start) as [st|e]; [reflexivity|discriminate Hok].
Defined.

Lemma month_counters_advance_witness :
  dict.get (engine.policy_counters example.numpy example2.after_month) "falls_prevention"
  = Some (if advances (Some example.decisions) "falls_prevention"
          then (0 + 1)%Z else 0%Z).
Proof.
  refine (proj2 (month_counters_advance example.numpy _ _ _ _ _ _ _ _ _
                   example_month_returns) "falls_prevention" 0%Z eq_refl).
  repeat constructor. simpl. tauto.
Defined.

Section Proportions.
Context (rt : Numpy).

Lemma count_and (a b : list bool) : (count (zip_with andb a b) <= count b)%nat.
Proof.
  revert b. induction a as [|x a IH]; intros [|y b]; simpl; try lia.
  specialize (IH b). destruct x, y; simpl; lia.
Qed.

Lemma mortality_transitions_lengths (gen : Generator rt) (size : nat)
    (mortality_probs : ndarray) (alive hospitalised care_home disability : list bool)
    (alive' hospitalised' care_home' disability' : list bool) (new_deaths : nat)
    (gen' : Generator rt) :
  engine.mortality_transitions rt gen size mortality_probs
    alive hospitalised care_home disability
  = Ok (alive', hospitalised', care_home', disability', new_deaths, gen') ->
  length alive' = length alive /\ length hospitalised' = length alive /\
  length care_home' = length alive /\ length disability' = length alive /\
  length hospitalised = length alive /\ length care_home = length alive /\
  length disability = length alive.
Proof.
  unfold engine.mortality_transitions. intros H.
  repeat bind_inv H.
  injection H as <- <- <- <- _ _.
  repeat match goal with
         | E : mask_set _ _ _ = Ok _ |- _ =>
             apply mask_set_ok in E; destruct E as [? ->]
         end.
  rewrite !length_zip_with. repeat split; lia.
Qed.

Section Months.
Context (months : Z) (decisions : option policies.Decisions)
        (cfg : utils.ConfigBundle) (shock_mods : dict.t Q) (base_los : Q).

Lemma simulate_month_prevalence (month : nat) (st st' : engine.Locals rt) :
  engine.simulate_month rt months decisions cfg shock_mods base_los month st = Ok st' ->
  exists t,
    engine.timestep_results rt st' = engine.timestep_results rt st ++ [t] /\
    0 <= states.disability_prevalence t <= 1.
Proof.
  unfold engine.simulate_month. intros H.
  repeat bind_inv H.
  injection H as <-. cbn [engine.timestep_results].
  eexists. split; [reflexivity|]. cbn [states.disability_prevalence].
  match goal with
  | E : engine.mortality_transitions _ _ _ _ _ _ _ _ = Ok _ |- _ =>
      pose proof (mortality_transitions_lengths _ _ _ _ _ _ _ _ _ _ _ _ _ E)
        as (Ha & _ & _ & Hd & _)
  end.
  match goal with
  | E : broadcast2 andb ?d ?a = Ok ?da |- _ =>
      rewrite broadcast2_same in E by lia; injection E as <-;
      pose proof (count_and d a) as Hc
  end.
  match goal with
  | |- 0 <= inject_Z (Z.of_nat ?x) / inject_Z (Z.max (Z.of_nat ?y) 1) <= 1 =>
      assert (H0 : 0 <= inject_Z (Z.of_nat x)) by (rewrite <- (Zle_Qle 0); lia);
      assert (H1 : inject_Z (Z.of_nat x) <= inject_Z (Z.max (Z.of_nat y) 1))
        by (rewrite <- Zle_Qle; lia);
      assert (H2 : 0 < inject_Z (Z.max (Z.of_nat y) 1))
        by (rewrite <- (Zlt_Qlt 0); lia)
  end.
  split; [apply Qle_shift_div_l|apply Qle_shift_div_r]; lra.
Qed.

Lemma prevalence_in_step (n : nat) (st st' : engine.Locals rt) :
  foldM (fun st month =>
           engine.simulate_month rt months decisions cfg shock_mods base_los month st)
        (seq 0 n) st = Ok st' ->
  engine.timestep_results rt st = [] ->
  Forall (fun t => 0 <= states.disability_prevalence t <= 1)
    (engine.timestep_results rt st').
Proof.
  intros H Hts.
  apply (run_segment rt months decisions cfg shock_mods base_los
           (fun k s =>
              Forall (fun t => 0 <= states.disability_prevalence t <= 1)
                (engine.timestep_results rt s)) n)
    with (start := 0%nat) (st := st); [|exact H|].
  - clear H Hts. intros month s s' Hstep Hinv.
    destruct (simulate_month_prevalence month s s' Hstep) as (t & -> & Ht).
    apply Forall_app. split; [exact Hinv|]. constructor; [exact Ht|constructor].
  - rewrite Hts. constructor.
Qed.

End Months.

(** X28: disability prevalence is a proportion: whenever [simulate_round]
    returns, every timestep result reports a disability prevalence in
    [0, 1], and so does the summary's disability_prev_end. *)
Theorem disability_prevalence_is_a_proportion
    (load_config_bundle : result utils.ConfigBundle) (h : engine.heap)
    (cohort : engine.loc) (months : Z) (decisions : option policies.Decisions)
    (shocks : option (list shocks.Shock)) (config_bundle : option utils.ConfigBundle)
    (seed : Z) (policy_months_active : option (dict.t Z))
    (h' : engine.heap) (working : engine.loc)
    (timesteps : list states.SimulationTimestepResult) (summary : dict.t Q)
    (leaderboard : scoring.DataFrame) :
  engine.simulate_round rt load_config_bundle h cohort months decisions shocks
    config_bundle seed policy_months_active
  = (h', Ok (working, timesteps, summary, leaderboard)) ->
  Forall (fun t => 0 <= states.disability_prevalence t <= 1) timesteps /\
  exists prevalence,
    dict.get summary "disability_prev_end" = Some prevalence /\
    0 <= prevalence <= 1.
Proof.
  intros H.
  destruct (round_summary_of_timesteps rt _ _ _ _ _ _ _ _ _ _ _ _ _ _ H)
    as (_ & _ & final & Hlast & _ & ->).
  destruct (simulate_round_inv rt _ _ _ _ _ _ _ _ _ _ _ _ _ _ H)
    as (cfg & cin & cout & _ & _ & _ & _ & Hcopy).
  destruct (simulate_copy_trace rt _ _ _ _ _ _ _ _ _ _ _ Hcopy)
    as (f & a & l & d & ho & ca & co & mo & los & st & _ & _ & _ & _ & _ & Hrun
        & _ & _ & -> & _ & _).
  unfold engine.run_months in Hrun.
  pose proof (prevalence_in_step _ _ _ _ _ _ _ _ Hrun eq_refl) as Hall.
  split; [exact Hall|].
  exists (states.disability_prevalence final). split; [reflexivity|].
  rewrite List.Forall_forall in Hall. apply Hall.
  apply last_Some in Hlast. destruct Hlast as [front ->].
  apply in_or_app. right. now left.
Qed.

End Proportions.

Lemma disability_prevalence_is_a_proportion_witness :
  Forall (fun t => 0 <= states.disability_prevalence t <= 1)
    (snd (fst (fst example.outputs))) /\
  exists prevalence,
    dict.get (snd (fst example.outputs)) "disability_prev_end" = Some prevalence /\
    0 <= prevalence <= 1.
Proof.
  exact (disability_prevalence_is_a_proportion example.numpy _ _ _ _ _ _ _ _ _ _ _ _ _ _
           example_run_returns).
Defined.

Section Incidence.
Context (rt : Numpy).

Lemma tier_zero_same (before after : list Z) :
  Forall2 (fun x y => (x =? 0)%Z = (y =? 0)%Z) before after ->
  count (tier_zero before) = count (tier_zero after).
Proof.
  induction 1 as [|x y before after Hxy _ IH]; [reflexivity|].
  unfold tier_zero in *. cbn [map count]. now rewrite Hxy, IH.
Qed.

Lemma tier_zero_onset (ltc_state : list Z) (mask : list bool) :
  Forall2 (fun x (m : bool) => m = true -> (x =? 0)%Z = true) ltc_state mask ->
  count (tier_zero ltc_state)
  = (count (tier_zero (zip_with (fun x (m : bool) => if m then 1%Z else x)
                         ltc_state mask))
     + count mask)%nat.
Proof.
  induction 1 as [|x m ltc_state mask Hm _ IH]; [reflexivity|].
  unfold tier_zero in *. cbn [zip_with map count]. rewrite IH.
  destruct m; [rewrite (Hm eq_refl); simpl|]; lia.
Qed.

Lemma ltc_transitions_incidence (gen : Generator rt) (size : nat)
    (onset_probs progression_probs severe_probs : ndarray)
    (ltc_state ltc_state' : list Z) (new_incidence : nat) (gen' : Generator rt) :
  engine.ltc_transitions rt gen size onset_probs progression_probs severe_probs
    ltc_state = Ok (ltc_state', new_incidence, gen') ->
  count (tier_zero ltc_state) = (count (tier_zero ltc_state') + new_incidence)%nat.
Proof.
  unfold engine.ltc_transitions. intros H.
  repeat bind_inv H.
  injection H as <- <- _.
  match goal with
  | Em : broadcast2 andb (map (fun s => (s =? 0)%Z) ltc_state) _ = Ok ?mask,
    Es : mask_set ltc_state ?mask 1%Z = Ok ?after |- _ =>
      pose proof (mask_set_ok _ _ _ _ Es) as [Hlen Hafter];
      pose proof (guarded_mask (fun s => (s =? 0)%Z) ltc_state _ mask Em Hlen) as Hg;
      rewrite (tier_zero_onset ltc_state mask Hg), <- Hafter
  end.
  f_equal.
  etransitivity.
  - apply tier_zero_same.
    eapply (guarded_update (fun x y => (x =? 0)%Z = (y =? 0)%Z) (fun s => (s =? 1)%Z));
      try eassumption.
    + reflexivity.
    + intros t Ht%Z.eqb_eq. now subst t.
  - apply tier_zero_same.
    eapply (guarded_update (fun x y => (x =? 0)%Z = (y =? 0)%Z) (fun s => (2 <=? s)%Z));
      try eassumption.
    + reflexivity.
    + intros t Ht%Z.leb_le. destruct (Z.eqb_spec t 0); [lia|reflexivity].
Qed.

Section Months.
Context (months : Z) (decisions : option policies.Decisions)
        (cfg : utils.ConfigBundle) (shock_mods : dict.t Q) (base_los : Q).

Lemma incidence_in_step (n : nat) (st st' : engine.Locals rt) :
  foldM (fun st month =>
           engine.simulate_month rt months decisions cfg shock_mods base_los month st)
        (seq 0 n) st = Ok st' ->
  engine.timestep_results rt st = [] ->
  inject_Z (Z.of_nat (count (tier_zero (engine.ltc_state rt st))))
  == inject_Z (Z.of_nat (count (tier_zero (engine.ltc_state rt st'))))
     + sum (map states.incidence (engine.timestep_results rt st')).
Proof.
  intros H Hts.
  apply (run_segment rt months decisions cfg shock_mods base_los
           (fun k s =>
              inject_Z (Z.of_nat (count (tier_zero (engine.ltc_state rt st))))
              == inject_Z (Z.of_nat (count (tier_zero (engine.ltc_state rt s))))
                 + sum (map states.incidence (engine.timestep_results rt s))) n)
    with (start := 0%nat) (st := st); [|exact H|].
  - clear H Hts. intros month s s' Hstep Hinv.
    destruct (simulate_month_trace rt _ _ _ _ _ _ _ _ Hstep)
      as (? & ? & ? & ? & ? & new_incidence & ? & ? & ? & ? & ? & ? & ? & ? & ? & ?
          & ? & ? & ? & ? & ? & ? & ? & ? & ? & ? & ? & ? & ? & ? & ? & ?
          & Hltc & _ & _ & _ & _ & _ & _ & Ht).
    rewrite Hinv, Ht, map_app. cbn [map]. rewrite sum_app_one.
    rewrite (ltc_transitions_incidence _ _ _ _ _ _ _ _ _ Hltc).
    cbn [month_timestep states.incidence].
    rewrite Nat2Z.inj_add, inject_Z_plus. lra.
  - rewrite Hts. unfold sum. simpl. lra.
Qed.

End Months.

Lemma astype_int_int_astype (l : list Z) : astype_int (int_astype l) = l.
Proof.
  unfold astype_int, int_astype. induction l as [|z l IH]; simpl; [reflexivity|].
  rewrite IH. f_equal. apply trunc_inject. reflexivity.
Qed.

(** X29: new long-term conditions are conserved: whenever
    [simulate_round] returns, the number of individuals at tier 0 in the
    caller's cohort equals the number at tier 0 in the cohort returned
    plus the incidence reported over the timestep results, which is the
    summary's incidence_total. *)
Theorem incidence_accounts_for_tier_zero_drop
    (load_config_bundle : result utils.ConfigBundle) (h : engine.heap)
    (cohort : engine.loc) (months : Z) (decisions : option policies.Decisions)
    (shocks : option (list shocks.Shock)) (config_bundle : option utils.ConfigBundle)
    (seed : Z) (policy_months_active : option (dict.t Z))
    (h' : engine.heap) (working : engine.loc)
    (timesteps : list states.SimulationTimestepResult) (summary : dict.t Q)
    (leaderboard : scoring.DataFrame) :
  engine.simulate_round rt load_config_bundle h cohort months decisions shocks
    config_bundle seed policy_months_active
  = (h', Ok (working, timesteps, summary, leaderboard)) ->
  exists before after tiers_before tiers_after,
    h !! cohort = Some before /\
    h' !! working = Some after /\
    dict.get (states.data before) "ltc_state" = Some tiers_before /\
    dict.get (states.data after) "ltc_state" = Some tiers_after /\
    inject_Z (Z.of_nat (count (tier_zero (astype_int tiers_before))))
    == inject_Z (Z.of_nat (count (tier_zero (astype_int tiers_after))))
       + sum (map states.incidence timesteps) /\
    dict.get summary "incidence_total" = Some (sum (map states.incidence timesteps)).
Proof.
  intros H.
  destruct (round_summary_of_timesteps rt _ _ _ _ _ _ _ _ _ _ _ _ _ _ H)
    as (Hpos & _ & final & _ & _ & Hsummary).
  destruct (simulate_round_inv rt _ _ _ _ _ _ _ _ _ _ _ _ _ _ H)
    as (cfg & cin & cout & Hin & -> & _ & Hout & Hcopy).
  destruct (simulate_copy_trace rt _ _ _ _ _ _ _ _ _ _ _ Hcopy)
    as (f & a & l & d & ho & ca & co & mo & los & st & _ & Hl & _ & _ & _ & Hrun
        & Hdata & _ & -> & _ & _).
  unfold engine.run_months in Hrun.
  pose proof (incidence_in_step _ _ _ _ _ _ _ _ Hrun eq_refl) as Hcount.
  destruct (months_segment rt _ _ _ _ _ _ _ _ Hrun) as (_ & _ & _ & _ & Hsync).
  destruct Hsync as [Hsync _].
  { intros Hnil. apply (f_equal (@length nat)) in Hnil.
    rewrite length_seq in Hnil. simpl in Hnil. lia. }
  rewrite get_copy in Hl.
  exists cin, cout, l, (int_astype (engine.ltc_state rt st)).
  split; [exact Hin|]. split; [exact Hout|]. split; [exact Hl|].
  split; [rewrite Hdata; exact Hsync|].
  split; [rewrite astype_int_int_astype; exact Hcount|].
  rewrite Hsummary. reflexivity.
Qed.

End Incidence.

Lemma incidence_accounts_for_tier_zero_drop_witness :
  (exists before after tiers_before tiers_after,
     [example3.cohort] !! 0%nat = Some before /\
     example3.heap_after !! example3.advanced = Some after /\
     dict.get (states.data before) "ltc_state" = Some tiers_before /\
     dict.get (states.data after) "ltc_state" = Some tiers_after /\
     inject_Z (Z.of_nat (count (tier_zero (astype_int tiers_before))))
     == inject_Z (Z.of_nat (count (tier_zero (astype_int tiers_after))))
        + sum (map states.incidence example3.timesteps) /\
     dict.get (snd (fst example3.outputs)) "incidence_total"
     = Some (sum (map states.incidence example3.timesteps))) /\
  map states.incidence example3.timesteps = [3; 0].
Proof.
  split.
  - exact (incidence_accounts_for_tier_zero_drop example.numpy _ _ _ _ _ _ _ _ _ _ _ _
             _ _ busy_run_returns).
  - vm_compute. reflexivity.
Defined.

(** ** scoring.py: the scored and ranked table *)

Lemma Qmult_one (v : Q) : v * inject_Z 1 = v.
Proof.
  destruct v as [n d]. unfold Qmult, inject_Z. cbn [Qnum Qden].
  now rewrite Z.mul_1_r, Pos.mul_1_r.
Qed.

Lemma Qmult_minus_one (v : Q) : v * inject_Z (-1) = - v.
Proof.
  destruct v as [n d]. unfold Qmult, Qopp, inject_Z. cbn [Qnum Qden].
  rewrite Pos.mul_1_r. f_equal. lia.
Qed.

Lemma direction_of (dimension : string) :
  dict.get_or scoring.DIMENSION_DIRECTIONS dimension 1%Z
  = if String.eqb dimension "cost" then (-1)%Z else 1%Z.
Proof.
  unfold dict.get_or, scoring.DIMENSION_DIRECTIONS. cbn [dict.get].
  destruct (String.eqb "health" dimension) eqn:E1.
  { apply String.eqb_eq in E1. now subst. }
  destruct (String.eqb "cost" dimension) eqn:E2.
  { apply String.eqb_eq in E2. now subst. }
  rewrite String.eqb_sym in E2. rewrite E2.
  destruct (String.eqb "capacity" dimension); [reflexivity|].
  destruct (String.eqb "equity" dimension); reflexivity.
Qed.

Lemma direction_adjusts (dimension : string) (values : ndarray) :
  map (fun v => v * inject_Z (dict.get_or scoring.DIMENSION_DIRECTIONS dimension 1%Z))
    values
  = spec_sign_adjusted dimension values.
Proof.
  rewrite direction_of. unfold spec_sign_adjusted.
  destruct (String.eqb dimension "cost").
  - apply map_ext. intros v. apply Qmult_minus_one.
  - rewrite <- (map_id values) at 2. apply map_ext. intros v. apply Qmult_one.
Qed.

(** The code's normalisation computes the specification's. *)
Lemma normalise_refines (rt : Numpy) (values : ndarray) (method dimension : string) :
  scoring._normalise rt (scoring.Float values) method
    (dict.get_or scoring.DIMENSION_DIRECTIONS dimension 1%Z)
  = Ok (spec_normalised rt method (spec_sign_adjusted dimension values)).
Proof.
  unfold scoring._normalise, spec_normalised. rewrite direction_adjusts.
  destruct (String.eqb method "zscore").
  - unfold scoring.std0, spec_population_std.
    destruct (scoring.isclose _ _); reflexivity.
  - destruct (scoring.isclose _ _); reflexivity.
Qed.

Lemma dimension_scores_refine (rt : Numpy) (scoring_cfg : utils.ScoringConfig)
    (df : scoring.DataFrame) (dimension : string) :
  dimension_scores rt scoring_cfg df dimension
  = spec_scores rt scoring_cfg df dimension.
Proof.
  unfold dimension_scores, spec_scores. now rewrite normalise_refines.
Qed.

Lemma weighted_total_refines (rt : Numpy) (scoring_cfg : utils.ScoringConfig)
    (df : scoring.DataFrame) (i : nat) :
  weighted_total rt scoring_cfg df i == spec_weighted_sum rt scoring_cfg df i.
Proof.
  unfold weighted_total, spec_weighted_sum.
  induction (utils.weights scoring_cfg) as [|dw l IH]; simpl; [reflexivity|].
  rewrite IH, dimension_scores_refine. ring.
Qed.

Section Ranked.
Context (rt : Numpy) (scoring_cfg : utils.ScoringConfig).
Import scoring.

Lemma add_weighted_keeps (l : list (string * Q)) (df df' : DataFrame) (k : string) :
  foldM (fun df dw =>
           add_weighted df "total_score" (String.append (fst dw) "_score") (snd dw))
        l df = Ok df' ->
  k <> "total_score" ->
  dict.get (columns df') k = dict.get (columns df) k.
Proof.
  revert df. induction l as [|dw l IH]; intros df H Hk.
  - now injection H as <-.
  - rewrite foldM_cons in H. bind_inv H. rewrite (IH x H Hk).
    unfold add_weighted in E. repeat bind_inv E.
    destruct x0 as [va|]; [|discriminate E]. destruct x1 as [vb|]; [|discriminate E].
    injection E as <-. unfold setcol. cbn [columns]. apply get_set_ne.
    intros Heq. now apply Hk.
Qed.

Lemma score_ne_total (d : string) :
  d <> "total" -> String.append d "_score" <> "total_score".
Proof.
  intros Hd Hk. apply Hd.
  change "total_score" with (String.append "total" "_score") in Hk.
  apply append_suffix_inj in Hk; [|reflexivity]. now destruct Hk.
Qed.

Lemma scored_frame_columns (df scored : DataFrame) :
  wf df -> numeric_dimensions scoring_cfg df ->
  scored_frame rt df scoring_cfg = Ok scored ->
  index scored = index df /\ wf scored /\
  (forall d, In d (dict.keys (utils.weights scoring_cfg)) ->
     dict.get (columns scored) (String.append d "_value")
     = Some (Float (dimension_values df d))) /\
  (forall d, In d (dict.keys (utils.weights scoring_cfg)) -> d <> "total" ->
     dict.get (columns scored) (String.append d "_score")
     = Some (Float (spec_scores rt scoring_cfg df d))) /\
  exists total,
    dict.get (columns scored) "total_score" = Some (Float total) /\
    length total = len df /\
    (dict.mem (utils.weights scoring_cfg) "total" = false ->
     forall i, (i < len df)%nat -> nth i total 0 == spec_weighted_sum rt scoring_cfg df i).
Proof.
  intros Hwf Hnum Hrun.
  destruct (scored_frame_spec rt scoring_cfg df Hwf Hnum) as [scored' [Hrun' Hs]].
  rewrite Hrun in Hrun'. injection Hrun' as <-.
  destruct Hs as [[Hidx Hlen Hwf' Hnum' Hmiss] [t Ht] Hdims].
  assert (H := Hrun). unfold scored_frame in H. bind_inv H.
  assert (Htrack : columns_track rt scoring_cfg df x
                     (rev (dict.keys (utils.weights scoring_cfg)) ++ [])).
  { apply (score_dimensions_track rt scoring_cfg df _ (fun d Hd => Hd) df); [|exact E].
    split; [reflexivity|]. split; [|intros d []].
    intros d Hd. unfold dimension_values.
    destruct (dict.get (columns df) (String.append d "_value")) as [s|] eqn:Ed;
      [|reflexivity].
    destruct (Hnum d s Hd Ed) as [v ->]. reflexivity. }
  destruct Htrack as (Hlenx & Hval & Hsc).
  assert (Hkeep : forall k, k <> "total_score" ->
                    dict.get (columns scored) k = dict.get (columns x) k).
  { intros k Hk. rewrite (add_weighted_keeps _ _ _ k H Hk).
    unfold setcol. cbn [columns]. apply get_set_ne. intros Heq. now apply Hk. }
  split; [exact Hidx|]. split; [exact Hwf'|]. split; [|split].
  - intros d Hd. destruct (Hdims d Hd) as [[v Hv] _].
    rewrite Hkeep in Hv by apply value_ne_total.
    specialize (Hval d Hd). rewrite Hv in Hval. rewrite Hkeep by apply value_ne_total.
    now rewrite Hv, Hval.
  - intros d Hd Hnt. rewrite Hkeep by now apply score_ne_total.
    rewrite <- dimension_scores_refine. apply Hsc.
    rewrite app_nil_r. now apply in_rev in Hd.
  - exists t. split; [exact Ht|]. split.
    + rewrite <- Hlen. exact (wf_get scored _ t Hwf' Ht).
    + intros Hno i Hi.
      assert (H1 : dict.get (columns (setcol x "total_score" (Float (zeros (len x)))))
                     "total_score" = Some (Float (zeros (len x))))
        by (unfold setcol; cbn [columns]; apply get_set_eq).
      assert (H2 : forall dw, In dw (utils.weights scoring_cfg) ->
                     dict.get (columns (setcol x "total_score" (Float (zeros (len x)))))
                       (String.append (fst dw) "_score")
                     = Some (Float (dimension_scores rt scoring_cfg df (fst dw)))).
      { intros dw Hin. unfold setcol. cbn [columns].
        rewrite get_set_ne.
        - apply Hsc. rewrite app_nil_r. apply in_rev. rewrite rev_involutive.
          unfold dict.keys. now apply in_map.
        - intros Hk. symmetry in Hk. revert Hk. apply score_ne_total.
          now apply (weight_not_total scoring_cfg Hno). }
      pose proof (add_weighted_fold rt scoring_cfg df (utils.weights scoring_cfg)
                    (weight_not_total scoring_cfg Hno) _ scored _ H1 H2 H) as Htot.
      rewrite Htot in Ht. injection Ht as <-.
      assert (Hz : length (zeros (len x)) = len df)
        by exact (eq_trans (zeros_length (len x)) Hlenx).
      rewrite (weighted_fold_nth (len df) (dimension_scores rt scoring_cfg df)
                 (utils.weights scoring_cfg) (zeros (len x)) i
                 (fun d => dimension_scores_length rt scoring_cfg df d Hwf) Hz Hi).
      rewrite zeros_nth, <- weighted_total_refines. unfold weighted_total. lra.
Qed.

Lemma score_round_ranked (df : DataFrame) :
  wf df -> numeric_dimensions scoring_cfg df ->
  exists total out,
    score_round rt df scoring_cfg = Ok out /\
    scored_and_ranked rt scoring_cfg df (argsort_desc total) total out /\
    (dict.mem (utils.weights scoring_cfg) "total" = false ->
     forall i, (i < len df)%nat -> nth i total 0 == spec_weighted_sum rt scoring_cfg df i).
Proof.
  intros Hwf Hnum.
  destruct (scored_frame_spec rt scoring_cfg df Hwf Hnum) as [scored [Escored _]].
  destruct (scored_frame_columns df scored Hwf Hnum Escored)
    as (Hidx & Hwf' & Hval & Hsc & t & Ht & Htlen & Hsum).
  exists t.
  assert (Hperm : Permutation (argsort_desc t) (seq 0 (len df))).
  { rewrite <- Htlen. apply argsort_desc_perm. }
  assert (Hperm' : Permutation (argsort_desc t) (seq 0 (length (index scored)))).
  { rewrite Hidx. exact Hperm. }
  assert (Hrows : len (take_frame (argsort_desc t) scored) = len df).
  { unfold len at 1. unfold take_frame. cbn [index].
    rewrite (Permutation_length (take_rows_all (index scored) (argsort_desc t) Hperm')).
    now rewrite Hidx. }
  unfold score_round. rewrite Escored. cbn [bind].
  unfold sort_values_desc, dict.getitem. rewrite Ht. cbn [bind].
  eexists. split; [reflexivity|]. split; [|exact Hsum].
  unfold scored_and_ranked, setcol. cbn [columns index]. rewrite Hrows.
  split; [exact Hperm|].
  split; [unfold take_frame; cbn [index]; now rewrite Hidx|]. split; [|split].
  - intros d Hd.
    rewrite get_set_ne by (intros H; symmetry in H; now apply value_ne_rank in H).
    rewrite get_take_frame, (Hval d Hd). reflexivity.
  - intros d Hd Hnt.
    rewrite get_set_ne by (intros H; symmetry in H; now apply score_ne_rank in H).
    rewrite get_take_frame, (Hsc d Hd Hnt). reflexivity.
  - split; [exact Htlen|]. split; [|split].
    + rewrite get_set_ne by discriminate. rewrite get_take_frame, Ht. reflexivity.
    + apply argsort_desc_sorted.
    + apply get_set_eq.
Qed.

End Ranked.

Section Claims.
Context (rt : Numpy) (scoring_cfg : utils.ScoringConfig).
Import scoring.

Lemma normalised_zero (method : string) (values : ndarray) :
  Forall (fun v => v == 0) values ->
  Forall (fun v => v == 0) (spec_normalised rt method values).
Proof.
  intros Hz. unfold spec_normalised.
  assert (Hzeros : forall n, Forall (fun v => v == 0) (zeros n)).
  { intros n. eapply List.Forall_impl; [|apply zeros_all_zero].
    intros v ->. reflexivity. }
  destruct (String.eqb method "zscore").
  - destruct (isclose _ _); [apply Hzeros|].
    apply List.Forall_map. eapply List.Forall_impl; [|exact Hz].
    intros v Hv. simpl. rewrite Hv, (mean_zero values Hz). unfold Qdiv. ring.
  - assert (Hclose : series_max values == series_min values).
    { destruct values as [|x l]; [reflexivity|]. simpl.
      inversion Hz as [|? ? Hx Hl]; subst.
      rewrite (fold_maximum_const _ l x Hx Hl), (fold_minimum_const _ l x Hx Hl).
      reflexivity. }
    rewrite (isclose_eq _ _ Hclose). apply Hzeros.
Qed.

Lemma all_zero_zeros (l : ndarray) : Forall (fun x => x = 0) l -> l = zeros (length l).
Proof.
  induction 1 as [|x l -> _ IH]; [reflexivity|]. cbn [length]. unfold zeros in *.
  cbn [repeat]. now rewrite <- IH.
Qed.

Lemma take_rows_zeros (order : list nat) (n : nat) :
  Permutation order (seq 0 n) -> take_rows order (zeros n) = zeros n.
Proof.
  intros Hperm.
  rewrite (all_zero_zeros (take_rows order (zeros n)))
    by (apply take_rows_Forall, zeros_all_zero).
  f_equal. rewrite <- (zeros_length n) in Hperm.
  rewrite (Permutation_length (take_rows_all (zeros n) order Hperm)).
  apply zeros_length.
Qed.


Lemma argsort_desc_two (a b : Q) :
  argsort_desc [a; b] = (if ltb a b then [1; 0] else [0; 1])%nat.
Proof. unfold argsort_desc. simpl. destruct (ltb a b); reflexivity. Qed.


End Claims.



